(** * NarrativeIQ: credit metering, word-level diff and graph assembly

    A shallow embedding of the NarrativeIQ backend.  Two variants of the
    backend live side by side in the repository: the legacy single-file
    Flask application ([app/app.py], module [Legacy] below) and the layered
    FastAPI application ([app/routers], [app/services], [app/db]; module
    [Layered]).
    Further modules hold the graph builder, the cleaning of the answers
    of the model and the credit routes of the legacy application
    ([LegacyGraph], [LegacyAI], [LegacyCredits]), and the theme heuristic
    and the payment routes of the layered one ([Nlp], [Payments]).

    Conventions.
    - A Python [str] is a [string]; a character stands for the code point
      with the same number (the code points below 256).
    - Python list indices are [nat]; a slice [l[i:j]] is [slice l i j].
    - A [dict] is an association list in insertion order, looked up from
      the front.
    - A function that may raise returns a [result]; stateful code is a
      computation over an explicit [world]. *)

From Stdlib Require Import List Arith Bool Lia ZArith String Ascii.
From Stdlib Require Import Permutation Sorted.
From Stdlib Require Import DecimalString DecimalNat.
Import ListNotations.

Set Implicit Arguments.

(* ================================================================= *)
(** * Python string and list primitives *)

Module Py.

Local Open Scope string_scope.

(** [str.isspace] on one character, for the code points below 256:
      TAB, LF, VT, FF, CR, the separators FS, GS, RS, US, SPACE, NEL and
      the no-break space. *)
Definition isspace (c : ascii) : bool :=
  let n := nat_of_ascii c in
  (((9 <=? n) && (n <=? 13)) || ((28 <=? n) && (n <=? 32))
   || (n =? 133) || (n =? 160))%nat.

(** [s.split()]: the maximal runs of non-whitespace characters, in
      order.  [cur] is the run being read; it is empty between runs. *)
Fixpoint split_go (cur : string) (s : string) : list string :=
  match s with
  | EmptyString => match cur with EmptyString => [] | _ => [cur] end
  | String c s' =>
      if isspace c then
        match cur with
        | EmptyString => split_go EmptyString s'
        | _ => cur :: split_go EmptyString s'
        end
      else split_go (cur ++ String c EmptyString) s'
  end.

Definition split (s : string) : list string := split_go EmptyString s.

(** [sep.join(ws)] *)
Fixpoint join (sep : string) (ws : list string) : string :=
  match ws with
  | [] => EmptyString
  | [w] => w
  | w :: ws' => w ++ sep ++ join sep ws'
  end.

(** [l[i1:i2]] for non-negative indices. *)
Definition slice {A : Type} (l : list A) (i1 i2 : nat) : list A :=
  firstn (i2 - i1) (skipn i1 l).

(** [len(s)] *)
Definition len (s : string) : nat := String.length s.

Fixpoint lstrip (s : string) : string :=
  match s with
  | String c s' => if isspace c then lstrip s' else s
  | EmptyString => EmptyString
  end.

Fixpoint rev_string (s acc : string) : string :=
  match s with
  | EmptyString => acc
  | String c s' => rev_string s' (String c acc)
  end.

(** [s.strip()] *)
Definition strip (s : string) : string :=
  rev_string (lstrip (rev_string (lstrip s) EmptyString)) EmptyString.

(** [s[:n]] *)
Fixpoint take (n : N) (s : string) : string :=
  match s with
  | EmptyString => EmptyString
  | String c s' =>
      if (n =? 0)%N then EmptyString else String c (take (N.pred n) s')
  end.

(** [str.lower] on the code points below 256. *)
Definition lower_char (c : ascii) : ascii :=
  let n := nat_of_ascii c in
  if (((65 <=? n) && (n <=? 90))
      || ((192 <=? n) && (n <=? 222) && negb (n =? 215)))%nat
  then ascii_of_nat (n + 32)
  else c.

Fixpoint lower (s : string) : string :=
  match s with
  | EmptyString => EmptyString
  | String c s' => String (lower_char c) (lower s')
  end.

(** [s.replace(old, new)] for one-character [old] and [new]. *)
Fixpoint replace_char (old new : ascii) (s : string) : string :=
  match s with
  | EmptyString => EmptyString
  | String c s' =>
      String (if Ascii.eqb c old then new else c) (replace_char old new s')
  end.

(** The line feed, written [\n] in the source. *)
Definition nl : string := String (ascii_of_nat 10) EmptyString.

End Py.

(* ================================================================= *)
(** * [difflib.SequenceMatcher]

    The standard-library matcher both [compute_diff] functions are built
    on, as the two call sites construct it: [isjunk] is [None], so the
    junk set [bjunk] is empty, and [autojunk] is the only option that
    differs between the two. *)

(** A match [(i, j, k)]: [a[i:i+k] == b[j:j+k]]. *)
Definition Match : Type := (nat * nat * nat)%type.

(** Tuples compare lexicographically, as in [list.sort]. *)
Definition match_leb (x y : Match) : bool :=
let '(i1, j1, k1) := x in
let '(i2, j2, k2) := y in
(i1 <? i2) || ((i1 =? i2) && ((j1 <? j2) || ((j1 =? j2) && (k1 <=? k2)))).

Fixpoint insert_sorted (x : Match) (l : list Match) : list Match :=
match l with
| [] => [x]
| y :: l' => if match_leb x y then x :: l else y :: insert_sorted x l'
end.

(** [matching_blocks.sort()] *)
Fixpoint sort (l : list Match) : list Match :=
match l with
| [] => []
| x :: l' => insert_sorted x (sort l')
end.

Inductive tag : Type := Replace | Delete | Insert | Equal.

(** An opcode [(tag, i1, i2, j1, j2)]. *)
Definition opcode : Type := (tag * nat * nat * nat * nat)%type.

(** A region [(alo, ahi, blo, bhi)] still to be matched. *)
Definition rect : Type := (nat * nat * nat * nat)%type.

Section SequenceMatcher.

Variable A : Type.
Variable eqb : A -> A -> bool.

(** ** [__chain_b] *)

(** [b2j]: for each element of [b], the indices where it occurs. *)
Definition b2j_t : Type := list (A * list nat).

Fixpoint b2j_get (b2j : b2j_t) (x : A) : list nat :=
  match b2j with
  | [] => []
  | (y, idxs) :: rest => if eqb y x then idxs else b2j_get rest x
  end.

(** [b2j.setdefault(elt, []).append(i)] *)
Fixpoint setdefault_append (b2j : b2j_t) (elt : A) (i : nat) : b2j_t :=
  match b2j with
  | [] => [(elt, [i])]
  | (y, idxs) :: rest =>
      if eqb y elt then (y, idxs ++ [i]) :: rest
      else (y, idxs) :: setdefault_append rest elt i
  end.

Fixpoint index_b (b : list A) (i : nat) (b2j : b2j_t) : b2j_t :=
  match b with
  | [] => b2j
  | elt :: b' => index_b b' (S i) (setdefault_append b2j elt i)
  end.

(** The elements that occur more than [ntest] times are "popular"
      and are deleted from [b2j]. *)
Definition purge_popular (ntest : nat) (b2j : b2j_t) : b2j_t :=
  filter (fun e => negb (ntest <? List.length (snd e))) b2j.

Definition chain_b (autojunk : bool) (b : list A) : b2j_t :=
  let b2j := index_b b 0 [] in
  let n := List.length b in
  if autojunk && (200 <=? n)
  then purge_popular (n / 100 + 1) b2j
  else b2j.

(** ** [find_longest_match] *)

Variable a b : list A.
Variable b2j : b2j_t.

(** [a[i] == b[j]]; both indices are in range wherever it is used. *)
Definition same_at (i j : nat) : bool :=
  match nth_error a i, nth_error b j with
  | Some x, Some y => eqb x y
  | _, _ => false
  end.

(** [b2j.get(a[i], nothing)] *)
Definition b2j_at (i : nat) : list nat :=
  match nth_error a i with
  | Some x => b2j_get b2j x
  | None => []
  end.

Definition j2len_t : Type := list (nat * nat).

(** [j2len.get(j, 0)] *)
Fixpoint j2len_get (j2len : j2len_t) (j : nat) : nat :=
  match j2len with
  | [] => 0
  | (j', k) :: rest => if j' =? j then k else j2len_get rest j
  end.

(** [j2len.get(j-1, 0)]: the key [-1] is never bound. *)
Definition j2len_get_pred (j2len : j2len_t) (j : nat) : nat :=
  match j with
  | 0 => 0
  | S j' => j2len_get j2len j'
  end.

(** The loop over [b2j[a[i]]] for one [i].  [k <= i + 1] throughout,
      so [i - k + 1] is computed as [i + 1 - k]. *)
Fixpoint scan_row (j2len : j2len_t) (i blo bhi : nat) (js : list nat)
    (newj2len : j2len_t) (best : Match) : j2len_t * Match :=
  match js with
  | [] => (newj2len, best)
  | j :: js' =>
      if j <? blo then scan_row j2len i blo bhi js' newj2len best
      else if bhi <=? j then (newj2len, best)
      else
        let k := j2len_get_pred j2len j + 1 in
        let newj2len' := (j, k) :: newj2len in
        let '(_, _, bestsize) := best in
        let best' := if bestsize <? k then (i + 1 - k, j + 1 - k, k) else best in
        scan_row j2len i blo bhi js' newj2len' best'
  end.

(** The loop [for i in range(alo, ahi)]. *)
Fixpoint scan_rows (blo bhi : nat) (rows : list nat) (j2len : j2len_t)
    (best : Match) : Match :=
  match rows with
  | [] => best
  | i :: rows' =>
      let '(newj2len, best') := scan_row j2len i blo bhi (b2j_at i) [] best in
      scan_rows blo bhi rows' newj2len best'
  end.

(** [while besti > alo and bestj > blo and a[besti-1] == b[bestj-1]] *)
Fixpoint extend_back (alo blo besti bestj bestsize : nat) {struct besti} : Match :=
  match besti with
  | 0 => (besti, bestj, bestsize)
  | S i' =>
      if (alo <? besti) && (blo <? bestj) && same_at i' (bestj - 1)
      then extend_back alo blo i' (bestj - 1) (bestsize + 1)
      else (besti, bestj, bestsize)
  end.

(** [while besti+bestsize < ahi and bestj+bestsize < bhi and
      a[besti+bestsize] == b[bestj+bestsize]]; [room] is
      [ahi - (besti + bestsize)], the iterations the first guard allows. *)
Fixpoint extend_fwd (ahi bhi besti bestj bestsize room : nat) : nat :=
  match room with
  | 0 => bestsize
  | S room' =>
      if (besti + bestsize <? ahi) && (bestj + bestsize <? bhi)
         && same_at (besti + bestsize) (bestj + bestsize)
      then extend_fwd ahi bhi besti bestj (bestsize + 1) room'
      else bestsize
  end.

Definition find_longest_match (alo ahi blo bhi : nat) : Match :=
  let best := scan_rows blo bhi (seq alo (ahi - alo)) [] (alo, blo, 0) in
  let '(besti, bestj, bestsize) := best in
  let '(besti, bestj, bestsize) := extend_back alo blo besti bestj bestsize in
  let bestsize :=
    extend_fwd ahi bhi besti bestj bestsize (ahi - (besti + bestsize)) in
  (besti, bestj, bestsize).

(** ** [get_matching_blocks] *)

(** The [while queue] loop.  The head of [queue] is the top of the
      Python stack ([queue.pop()] takes the last appended region). *)
Fixpoint blocks_loop (fuel : nat) (queue : list rect)
    (matching_blocks : list Match) : option (list Match) :=
  match queue with
  | [] => Some matching_blocks
  | (alo, ahi, blo, bhi) :: queue0 =>
      match fuel with
      | 0 => None
      | S fuel' =>
          let '(i, j, k) := find_longest_match alo ahi blo bhi in
          if k =? 0 then blocks_loop fuel' queue0 matching_blocks
          else
            let queue1 :=
              if (alo <? i) && (blo <? j) then (alo, i, blo, j) :: queue0
              else queue0 in
            let queue2 :=
              if (i + k <? ahi) && (j + k <? bhi)
              then (i + k, ahi, j + k, bhi) :: queue1
              else queue1 in
            blocks_loop fuel' queue2 (matching_blocks ++ [(i, j, k)])
      end
  end.

(** The loop that merges adjacent blocks; [cur] is [(i1, j1, k1)]. *)
Fixpoint collapse (blocks : list Match) (cur : Match)
    (non_adjacent : list Match) : list Match * Match :=
  match blocks with
  | [] => (non_adjacent, cur)
  | (i2, j2, k2) :: rest =>
      let '(i1, j1, k1) := cur in
      if (i1 + k1 =? i2) && (j1 + k1 =? j2)
      then collapse rest (i1, j1, k1 + k2) non_adjacent
      else
        collapse rest (i2, j2, k2)
          (if 0 <? k1 then non_adjacent ++ [(i1, j1, k1)] else non_adjacent)
  end.

Definition get_matching_blocks : option (list Match) :=
  let la := List.length a in
  let lb := List.length b in
  match blocks_loop (2 * la + 2) [(0, la, 0, lb)] [] with
  | None => None
  | Some matching_blocks =>
      let sorted := sort matching_blocks in
      let '(non_adjacent, (i1, j1, k1)) := collapse sorted (0, 0, 0) [] in
      let non_adjacent :=
        if 0 <? k1 then non_adjacent ++ [(i1, j1, k1)] else non_adjacent in
      Some (non_adjacent ++ [(la, lb, 0)])
  end.

(** ** [get_opcodes] *)

Fixpoint opcodes_loop (blocks : list Match) (i j : nat)
    (answer : list opcode) : list opcode :=
  match blocks with
  | [] => answer
  | (ai, bj, size) :: rest =>
      let answer1 :=
        if (i <? ai) && (j <? bj) then answer ++ [(Replace, i, ai, j, bj)]
        else if i <? ai then answer ++ [(Delete, i, ai, j, bj)]
        else if j <? bj then answer ++ [(Insert, i, ai, j, bj)]
        else answer in
      let i' := ai + size in
      let j' := bj + size in
      let answer2 :=
        if 0 <? size then answer1 ++ [(Equal, ai, i', bj, j')] else answer1 in
      opcodes_loop rest i' j' answer2
  end.

Definition get_opcodes : option (list opcode) :=
  match get_matching_blocks with
  | None => None
  | Some blocks => Some (opcodes_loop blocks 0 0 [])
  end.

End SequenceMatcher.

(** [SequenceMatcher(None, a, b, autojunk).get_opcodes()] *)
Definition sequence_matcher_opcodes {A : Type} (eqb : A -> A -> bool)
  (autojunk : bool) (a b : list A) : option (list opcode) :=
get_opcodes eqb a b (chain_b eqb autojunk b).


(* ================================================================= *)
(** * Values, exceptions and effects *)

(** What [json.loads] produces and [json.dumps] consumes (numbers are
    integers here). *)
#[warnings="-register-all"]
Inductive json : Type :=
| JNull
| JBool (b : bool)
| JInt (z : Z)
| JStr (s : string)
| JList (l : list json)
| JDict (d : list (string * json)).

(** A call either returns a value or raises; the exception is kept as
    its message, [str(e)]. *)
Inductive result (A : Type) : Type :=
| Ok (a : A)
| Raise (e : string).

Arguments Ok {A} a.
Arguments Raise {A} e.

(** What a request does to the outside, in the order it does it. *)
Inductive event : Type :=
| BalanceInc (user_id : string) (delta : Z)
| Generate (messages : list (string * string))
| AuditInsert (user_id : string) (operation : string)
| DocumentInsert (user_id : string).

(** Computations over a store [W] that may raise.  The store changes
    made before an exception stay. *)
Definition M (W A : Type) : Type := W -> result A * W.

Definition ret {W A : Type} (x : A) : M W A := fun w => (Ok x, w).

Definition raise {W A : Type} (e : string) : M W A := fun w => (Raise e, w).

Definition bind {W A B : Type} (c : M W A) (k : A -> M W B) : M W B :=
fun w =>
  match c w with
  | (Ok x, w') => k x w'
  | (Raise e, w') => (Raise e, w')
  end.

(** [try: c] with the outcome handed to the code after it: [Raise e]
    is the [except Exception as e] branch. *)
Definition attempt {W A : Type} (c : M W A) : M W (result A) :=
fun w => let '(r, w') := c w in (Ok r, w').

Definition lift {W A : Type} (r : result A) : M W A := fun w => (r, w).

Declare Scope monad_scope.
Delimit Scope monad_scope with monad.
Notation "x <- c ;; k" := (bind c (fun x => k))
  (at level 61, c at next level, right associativity) : monad_scope.
Notation "c ;;; k" := (bind c (fun _ => k))
  (at level 61, right associativity) : monad_scope.

Fixpoint dict_lookup (d : list (string * json)) (key : string) : option json :=
match d with
| [] => None
| (k, v) :: d' => if String.eqb k key then Some v else dict_lookup d' key
end.

(** [obj.get(key, default)]; only a [dict] has [get]. *)
Definition get (obj : json) (key : string) (default : json) : result json :=
match obj with
| JDict d =>
    Ok (match dict_lookup d key with Some v => v | None => default end)
| _ => Raise "AttributeError"%string
end.

(** [obj[key]] with a string key. *)
Definition getitem (obj : json) (key : string) : result json :=
match obj with
| JDict d =>
    match dict_lookup d key with
    | Some v => Ok v
    | None => Raise "KeyError"%string
    end
| _ => Raise "TypeError"%string
end.

(** The items a [for] loop or a comprehension sees: the elements of a
    list, the characters of a string, the keys of a dict; nothing else
    that [json.loads] returns can be iterated. *)
Fixpoint chars_of (s : string) : list json :=
match s with
| EmptyString => []
| String c s' => JStr (String c EmptyString) :: chars_of s'
end.

Definition iterate (v : json) : result (list json) :=
match v with
| JList l => Ok l
| JStr s => Ok (chars_of s)
| JDict d => Ok (map (fun kv => JStr (fst kv)) d)
| _ => Raise "TypeError"%string
end.

(** Python truthiness. *)
Definition truthy (v : json) : bool :=
match v with
| JNull => false
| JBool b => b
| JInt z => negb (z =? 0)%Z
| JStr s => negb (String.eqb s EmptyString)
| JList l => match l with [] => false | _ => true end
| JDict d => match d with [] => false | _ => true end
end.

(** What a route sends back: an answer with a status and a JSON body; a
    stream of events read to its end; or a stream that breaks, after
    the events it delivered, with the exception its generator raises. *)
Inductive response : Type :=
| Http (status : nat) (body : json)
| EventStream (events : list json)
| BrokenStream (events : list json) (e : string).

(* ================================================================= *)
(** * The layered application ([app/main.py] and below) *)

Module Layered.

Local Open Scope monad_scope.

(** ** [app/services/diff.py] *)

Inductive diff_type : Type := added | removed | unchanged.

Record DiffSegment : Type := segment { type : diff_type; content : string }.

(** One iteration of the [for] loop of [compute_diff]. *)
Definition diff_step (original_words enhanced_words : list string)
    (result : list DiffSegment) (op : opcode) : list DiffSegment :=
let '(opcode, i1, i2, j1, j2) := op in
match opcode with
| Equal =>
    result ++ [segment unchanged (Py.join " " (Py.slice original_words i1 i2))]
| Replace =>
    (result ++ [segment removed (Py.join " " (Py.slice original_words i1 i2))])
      ++ [segment added (Py.join " " (Py.slice enhanced_words j1 j2))]
| Delete =>
    result ++ [segment removed (Py.join " " (Py.slice original_words i1 i2))]
| Insert =>
    result ++ [segment added (Py.join " " (Py.slice enhanced_words j1 j2))]
end.

(** [None] stands for a matcher whose loop runs out of fuel; there is
    always enough of it ([compute_diff_total]). *)
Definition compute_diff (original enhanced : string) : option (list DiffSegment) :=
let original_words := Py.split original in
let enhanced_words := Py.split enhanced in
match sequence_matcher_opcodes String.eqb false original_words enhanced_words with
| None => None
| Some ops => Some (fold_left (diff_step original_words enhanced_words) ops [])
end.

(** ** [app/config.py] *)

Definition CREDIT_COST : list (string * Z) :=
[("enhance", 1%Z); ("mindmap", 2%Z); ("consistency", 2%Z); ("evolution", 2%Z)]%string.

Fixpoint credit_cost_in (table : list (string * Z)) (feature : string) : Z :=
match table with
| [] => 0%Z
| (f, c) :: table' => if String.eqb f feature then c else credit_cost_in table' feature
end.

(** [settings.CREDIT_COST[feature]], for the four features of the table. *)
Definition credit_cost (feature : string) : Z := credit_cost_in CREDIT_COST feature.

(** ** [app/models/schemas.py] *)

Inductive PersonaEnum : Type :=
| technical | business | finance | simplified | comedian | poet.

Definition PersonaEnum_value (p : PersonaEnum) : string :=
match p with
| technical => "technical"
| business => "business"
| finance => "finance"
| simplified => "simplified"
| comedian => "comedian"
| poet => "poet"
end.

Definition PersonaEnum_members : list PersonaEnum :=
[technical; business; finance; simplified; comedian; poet].

(** [PersonaEnum(s)]: the member whose value is [s]; no member, no
    request (the field fails validation). *)
Definition PersonaEnum_of (s : string) : option PersonaEnum :=
find (fun p => String.eqb (PersonaEnum_value p) s) PersonaEnum_members.

Record EnhanceRequest : Type :=
  { enhance_body_text : string; enhance_body_persona : PersonaEnum }.

(** [text: str = Field(..., min_length=10, max_length=20000)],
    [persona: PersonaEnum]. *)
Definition parse_EnhanceRequest (text persona : string) : option EnhanceRequest :=
if ((10 <=? Z.of_nat (Py.len text)) && (Z.of_nat (Py.len text) <=? 20000))%Z then
  match PersonaEnum_of persona with
  | Some p => Some {| enhance_body_text := text; enhance_body_persona := p |}
  | None => None
  end
else None.

(** The bodies of the mindmap and consistency routes carry one field,
    [text], between 10 and 30000 characters; the evolution body adds
    [character_name]. *)
Record EvolutionRequest : Type :=
  { evolution_body_text : string; evolution_body_character_name : string }.

(** ** The store and the collaborators *)

(** A row of the [analyses] table. *)
Record Analysis : Type :=
  { analysis_user_id : string;
    analysis_feature : string;
    analysis_persona : option string;
    analysis_input_text : string;
    analysis_output_json : json;
    analysis_credits_used : Z }.

Record world : Type :=
  { profiles : string -> option Z;
    analyses : list Analysis;
    completions : nat;
    trace : list event }.

(** What the collaborators do during one request.  [completion n] is
    the content of the [n]-th completion asked for, or the exception
    the call raises; [completion_stream n] is the [delta.content] of the
    chunks that arrive, and the exception that ends the stream early, if
    one does.  [model_validate name answer] is what the framework does
    with the value that a route declared with [response_model=name]
    returns: nothing when the value fits the model of
    [app/models/schemas.py], a [ResponseValidationError] when it does
    not. *)
Record env : Type :=
  { completion : nat -> result string;
    completion_stream : nat -> list string * option string;
    json_loads : string -> result json;
    json_dumps : json -> string;
    analyses_insert : result unit;
    spacy_ents : string -> list (string * string);
    extract_themes_heuristic : string -> list string;
    ENHANCE_USER_TEMPLATE : string -> string;
    relationship_user_prompt : string -> list string -> string -> string;
    RELATIONSHIP_SYSTEM_PROMPT : string;
    FULL_GRAPH_SYSTEM_PROMPT : string;
    CONSISTENCY_SYSTEM_PROMPT : string;
    EVOLUTION_SYSTEM_PROMPT : string;
    model_validate : string -> json -> result unit }.

(** [UPDATE profiles SET credits = credits + delta WHERE user_id = ...
    RETURNING credits]: one statement, on the one row of the user if
    there is one. *)
Definition update_credits (user_id : string) (delta : Z) : M world (option Z) :=
fun w =>
  match profiles w user_id with
  | None => (Ok None, w)
  | Some c =>
      (Ok (Some (c + delta)%Z),
       {| profiles := fun u => if String.eqb u user_id then Some (c + delta)%Z
                               else profiles w u;
          analyses := analyses w;
          completions := completions w;
          trace := trace w ++ [BalanceInc user_id delta] |})
  end.

Section Collaborators.

Variable E : env.

(** ** [app/db/supabase.py] *)

Definition get_user_credits (user_id : string) : M world Z :=
fun w =>
  (Ok (match profiles w user_id with Some c => c | None => 0%Z end), w).

(** Modelled from the spec: the database function [deduct_credits(uid,
    amount)] that [supabase.rpc] calls is not part of the sources.  It
    is the reservation of the specification, one atomic statement: if
    the balance is at least [amount] it is decremented by [amount] and
    the answer is true; otherwise nothing changes and the answer is
    false. *)
Definition rpc_deduct_credits (uid : string) (amount : Z) : M world json :=
fun w =>
  match profiles w uid with
  | None => (Ok (JBool false), w)
  | Some c =>
      if (amount <=? c)%Z
      then bind (update_credits uid (- amount)) (fun _ => ret (JBool true)) w
      else (Ok (JBool false), w)
  end.

Definition deduct_credits (user_id : string) (amount : Z) : M world bool :=
res_data <- rpc_deduct_credits user_id amount ;;
ret (match res_data with JBool true => true | _ => false end).

(** The argument of [update] is built with [supabase.raw], and the
    client of the supabase library has no attribute [raw]: the call
    raises an [AttributeError] before any request is sent, and the
    store is as it was. *)
Definition add_credits (user_id : string) (amount : Z) : M world Z :=
raise "AttributeError"%string.

Definition log_analysis (user_id feature input_text : string)
    (output_json : json) (credits_used : Z) (persona : option string) : M world unit :=
fun w =>
  match analyses_insert E with
  | Raise e => (Raise e, w)
  | Ok _ =>
      (Ok tt,
       {| profiles := profiles w;
          analyses := analyses w ++
            [{| analysis_user_id := user_id;
                analysis_feature := feature;
                analysis_persona := persona;
                analysis_input_text := Py.take 5000 input_text;
                analysis_output_json := output_json;
                analysis_credits_used := credits_used |}];
          completions := completions w;
          trace := trace w ++ [AuditInsert user_id feature] |})
  end.

(** ** [app/services/llm.py] *)

Definition PERSONA_PROMPTS : list (string * string) :=
[("technical",
  "You are a precise technical writing engine. Rewrite the provided text to be structured, jargon-aware, and logically sequenced. Use clear headings where appropriate, avoid ambiguity, and ensure every sentence adds information value. Do not use filler words.");
 ("business",
  "You are a professional business communication expert. Rewrite the text to be persuasive, executive-ready, and results-oriented. Use confident, active voice. Highlight value propositions and keep sentences concise.");
 ("finance",
  "You are a financial analyst and writer. Rewrite the text with an analytical, data-oriented tone. Use precise language, reference quantifiable outcomes where inferred, and maintain a formal, objective style.");
 ("simplified",
  "You are a clarity specialist. Rewrite the text so a 12-year-old can understand it without losing the core meaning. Use short sentences, common words, and concrete examples. No jargon.");
 ("comedian",
  "You are a witty writer with sharp comedic timing. Rewrite the text to be light, clever, and entertaining — without sacrificing the core message. Use wordplay, irony, and a conversational tone. Keep it punchy.");
 ("poet",
  "You are a creative writing poet. Rewrite the text with expressive, lyrical language. Use metaphors, rhythm, and vivid imagery to transform the content into something beautiful and emotionally resonant while preserving the original meaning.")
]%string.

Fixpoint prompts_lookup (d : list (string * string)) (key : string) : option string :=
match d with
| [] => None
| (k, v) :: d' => if String.eqb k key then Some v else prompts_lookup d' key
end.

(** [PERSONA_PROMPTS.get(persona, PERSONA_PROMPTS["simplified"])] *)
Definition system_prompt_for (persona : string) : string :=
match prompts_lookup PERSONA_PROMPTS persona with
| Some prompt => prompt
| None =>
    match prompts_lookup PERSONA_PROMPTS "simplified" with
    | Some prompt => prompt
    | None => EmptyString
    end
end.

(** [await acompletion(...)] without streaming: the content of the
    first choice. *)
Definition acompletion (messages : list (string * string)) : M world string :=
fun w =>
  (completion E (completions w),
   {| profiles := profiles w;
      analyses := analyses w;
      completions := S (completions w);
      trace := trace w ++ [Generate messages] |}).

(** [await acompletion(..., stream=True)] read to its end: the chunks
    that arrive and how the stream ends. *)
Definition acompletion_stream (messages : list (string * string))
  : M world (list string * option string) :=
fun w =>
  (Ok (completion_stream E (completions w)),
   {| profiles := profiles w;
      analyses := analyses w;
      completions := S (completions w);
      trace := trace w ++ [Generate messages] |}).

Definition enhance_text (text persona : string) : M world json :=
let system_prompt := system_prompt_for persona in
content <- acompletion [("system", system_prompt);
                        ("user", ENHANCE_USER_TEMPLATE E text)]%string ;;
lift (json_loads E content).

(** The tokens [stream_enhance_text] yields ([if token: yield token]),
    and the exception that ends it, if any. *)
Definition stream_enhance_text (text persona : string)
  : M world (list string * option string) :=
let system_prompt := system_prompt_for persona in
chunks <- acompletion_stream
  [("system", system_prompt);
   ("user", "Rewrite the following text. Only return the rewritten text, nothing else:"
            ++ Py.nl ++ Py.nl ++ text)]%string ;;
ret (filter (fun token => negb (String.eqb token EmptyString)) (fst chunks),
     snd chunks).

Definition run_llm (system_prompt user_prompt : string) (json_mode : bool)
  : M world string :=
acompletion [("system", system_prompt); ("user", user_prompt)]%string.

(** ** [app/services/nlp.py] *)

Definition ENTITY_TYPE_MAP : list (string * string) :=
[("PERSON", "character"); ("GPE", "location"); ("LOC", "location");
 ("ORG", "character"); ("EVENT", "event"); ("WORK_OF_ART", "object");
 ("FAC", "location")]%string.

Record Entity : Type :=
  { entity_id : string;
    entity_label : string;
    entity_type : string;
    entity_count : Z;
    entity_attributes : json }.

(** [seen[key]["count"] += 1] if [key in seen] *)
Fixpoint seen_count (seen : list (string * Entity)) (key : string)
  : option (list (string * Entity)) :=
match seen with
| [] => None
| (k, e) :: seen' =>
    if String.eqb k key then
      Some ((k, {| entity_id := entity_id e;
                   entity_label := entity_label e;
                   entity_type := entity_type e;
                   entity_count := entity_count e + 1;
                   entity_attributes := entity_attributes e |}) :: seen')
    else
      match seen_count seen' key with
      | Some seen'' => Some ((k, e) :: seen'')
      | None => None
      end
end.

(** One iteration of [for ent in doc.ents]; [ent] is
    [(ent.text, ent.label_)]. *)
Definition extract_step (seen : list (string * Entity)) (ent : string * string)
  : list (string * Entity) :=
let '(ent_text, ent_label_) := ent in
match prompts_lookup ENTITY_TYPE_MAP ent_label_ with
| None => seen
| Some entity_type =>
    let key := Py.lower (Py.strip ent_text) in
    let label := Py.strip ent_text in
    match seen_count seen key with
    | Some seen' => seen'
    | None =>
        seen ++ [(key, {| entity_id := Py.replace_char " " "_" key;
                          entity_label := label;
                          entity_type := entity_type;
                          entity_count := 1;
                          entity_attributes := JDict [] |})]
    end
end.

Definition extract_entities (text : string) : list Entity :=
map snd (fold_left extract_step (spacy_ents E (Py.take 100000 text)) []).

(** ** [app/services/graph.py] *)

(** [v in node_ids], for a set of strings: lists and dicts cannot be
    hashed. *)
Definition in_node_ids (v : json) (node_ids : list string) : result bool :=
match v with
| JStr s => Ok (existsb (String.eqb s) node_ids)
| JList _ | JDict _ => Raise "TypeError"%string
| _ => Ok false
end.

(** [e["source"] in node_ids and e["target"] in node_ids] *)
Definition edge_is_valid (node_ids : list string) (e : json) : result bool :=
match getitem e "source" with
| Raise x => Raise x
| Ok src =>
    match in_node_ids src node_ids with
    | Raise x => Raise x
    | Ok false => Ok false
    | Ok true =>
        match getitem e "target" with
        | Raise x => Raise x
        | Ok tgt => in_node_ids tgt node_ids
        end
    end
end.

(** [[e for e in edges if ...]] over a list. *)
Fixpoint keep_valid_edges (node_ids : list string) (edges : list json)
  : result (list json) :=
match edges with
| [] => Ok []
| e :: edges' =>
    match edge_is_valid node_ids e with
    | Raise x => Raise x
    | Ok keep =>
        match keep_valid_edges node_ids edges' with
        | Raise x => Raise x
        | Ok rest => Ok (if keep then e :: rest else rest)
        end
    end
end.

(** The comprehension over whatever [llm_data.get("edges", [])] is. *)
Definition valid_edges_of (node_ids : list string) (edges : json)
  : result (list json) :=
match iterate edges with
| Raise x => Raise x
| Ok items => keep_valid_edges node_ids items
end.

(** The loop [for entity in raw_entities] that builds [nodes]. *)
Fixpoint build_nodes (enriched_attrs : json) (raw_entities : list Entity)
  : result (list json) :=
match raw_entities with
| [] => Ok []
| entity :: rest =>
    match get enriched_attrs (entity_id entity) (JDict []) with
    | Raise x => Raise x
    | Ok attributes =>
        match build_nodes enriched_attrs rest with
        | Raise x => Raise x
        | Ok nodes =>
            Ok (JDict [("id", JStr (entity_id entity));
                       ("label", JStr (entity_label entity));
                       ("type", JStr (entity_type entity));
                       ("attributes", attributes)]%string :: nodes)
        end
    end
end.

(** [n["id"]] of a node built by [build_nodes]. *)
Definition node_id (n : json) : option string :=
match getitem n "id" with
| Ok (JStr s) => Some s
| _ => None
end.

Fixpoint node_ids_of (nodes : list json) : list string :=
match nodes with
| [] => []
| n :: nodes' =>
    match node_id n with
    | Some s => s :: node_ids_of nodes'
    | None => node_ids_of nodes'
    end
end.

(** [themes[:6]] *)
Definition first_six (themes : json) : result json :=
match themes with
| JList l => Ok (JList (firstn 6 l))
| JStr s => Ok (JStr (Py.take 6 s))
| _ => Raise "TypeError"%string
end.

(** [json.dumps([{"id": ..., "label": ..., "type": ...} for e in
    raw_entities], indent=2)] *)
Definition entity_list_str (raw_entities : list Entity) : string :=
json_dumps E
  (JList (map (fun e => JDict [("id", JStr (entity_id e));
                               ("label", JStr (entity_label e));
                               ("type", JStr (entity_type e))]%string)
              raw_entities)).

Definition _full_llm_graph (text : string) : M world json :=
result <- run_llm (FULL_GRAPH_SYSTEM_PROMPT E)
            ("Extract from this text:" ++ Py.nl ++ Py.nl ++ Py.take 5000 text)%string
            true ;;
match json_loads E result with
| Ok graph => ret graph
| Raise _ =>
    ret (JDict [("nodes", JList []); ("edges", JList []);
                ("summary", JStr "Could not parse narrative.");
                ("themes", JList [])]%string)
end.

Definition build_graph (text : string) : M world json :=
let raw_entities := extract_entities text in
let heuristic_themes := extract_themes_heuristic E text in
match raw_entities with
| [] => _full_llm_graph text
| _ =>
    let user_prompt :=
      relationship_user_prompt E (entity_list_str raw_entities)
        heuristic_themes (Py.take 4000 text) in
    llm_output <- run_llm (RELATIONSHIP_SYSTEM_PROMPT E) user_prompt true ;;
    let llm_data :=
      match json_loads E llm_output with
      | Ok data => data
      | Raise _ =>
          JDict [("edges", JList []); ("entity_attributes", JDict []);
                 ("summary", JStr EmptyString);
                 ("themes", JList (map JStr heuristic_themes))]%string
      end in
    enriched_attrs <- lift (get llm_data "entity_attributes" (JDict [])) ;;
    nodes <- lift (build_nodes enriched_attrs raw_entities) ;;
    edges <- lift (get llm_data "edges" (JList [])) ;;
    let node_ids := node_ids_of nodes in
    valid_edges <- lift (valid_edges_of node_ids edges) ;;
    llm_themes <- lift (get llm_data "themes" JNull) ;;
    let themes :=
      if truthy llm_themes then llm_themes
      else JList (map JStr heuristic_themes) in
    summary <- lift (get llm_data "summary" (JStr EmptyString)) ;;
    themes6 <- lift (first_six themes) ;;
    ret (JDict [("nodes", JList nodes); ("edges", JList valid_edges);
                ("summary", summary); ("themes", themes6)]%string)
end.

(** ** The routers *)

(** [compute_diff] comes back on every input ([compute_diff_total]);
    the exception stands for the branch that is never taken. *)
Definition returned {A : Type} (o : option A) : M world A :=
match o with
| Some x => ret x
| None => raise "RecursionError"%string
end.

Definition diff_type_name (t : diff_type) : string :=
match t with
| added => "added"
| removed => "removed"
| unchanged => "unchanged"
end.

Definition diff_json (diff : list DiffSegment) : json :=
JList (map (fun s => JDict [("type", JStr (diff_type_name (type s)));
                            ("content", JStr (content s))]%string) diff).

(** The [detail] of the 402 answer. *)
Definition insufficient_credits (cost current : Z) : response :=
Http 402
  (JDict [("detail",
           JDict [("error", JStr "insufficient_credits");
                  ("credits_needed", JInt cost);
                  ("current_credits", JInt current)])]%string).

Definition http_exception (status : nat) (detail : string) : response :=
Http status (JDict [("detail", JStr detail)]%string).

(** [return answer] in a route declared with [response_model=name]:
    the framework checks the answer against the model before it sends
    it, and an answer that does not fit leaves the route as an
    exception.  The answer that fits is kept as the route built it; the
    serialisation of the framework (its coercions and defaults, the
    keys the model does not declare) is not followed. *)
Definition validated (name : string) (answer : json) : M world response :=
lift (model_validate E name answer) ;;;
ret (Http 200 answer).

(** *** [app/routers/enhance.py] *)

Definition enhance_COST : Z := credit_cost "enhance".

(** [event_generator], read by the client to its end: the payloads of
    the [data:] events, in order, and the exception that leaves the
    generator, if one does. *)
Definition event_generator (body : EnhanceRequest) (user_id : string)
  : M world (list json * option string) :=
stream <- stream_enhance_text (enhance_body_text body)
            (PersonaEnum_value (enhance_body_persona body)) ;;
let full_enhanced := fst stream in
let token_events :=
  map (fun token => JDict [("token", JStr token); ("done", JBool false)]%string)
      full_enhanced in
outcome <- attempt
  (match snd stream with
   | Some e => raise e
   | None =>
       let enhanced_text := String.concat EmptyString full_enhanced in
       diff <- returned (compute_diff (enhance_body_text body) enhanced_text) ;;
       credits_remaining <- get_user_credits user_id ;;
       log_analysis user_id "enhance" (enhance_body_text body)
         (JDict [("enhanced_text", JStr enhanced_text);
                 ("diff", diff_json diff)]%string)
         enhance_COST
         (Some (PersonaEnum_value (enhance_body_persona body))) ;;;
       ret [JDict [("done", JBool true); ("diff", diff_json diff);
                   ("credits_remaining", JInt credits_remaining)]%string]
   end) ;;
match outcome with
| Ok final => ret (token_events ++ final, None)
| Raise e =>
    refund <- attempt (add_credits user_id enhance_COST) ;;
    match refund with
    | Ok _ =>
        ret (token_events ++ [JDict [("error", JStr e); ("done", JBool true)]%string],
             None)
    | Raise e' => ret (token_events, Some e')
    end
end.

Definition enhance (body : EnhanceRequest) (user_id : string) : M world response :=
success <- deduct_credits user_id enhance_COST ;;
if negb success then
  current <- get_user_credits user_id ;;
  ret (insufficient_credits enhance_COST current)
else
  stream <- event_generator body user_id ;;
  ret (match snd stream with
       | None => EventStream (fst stream)
       | Some e => BrokenStream (fst stream) e
       end).

(** *** [app/routers/consistency.py] *)

Definition consistency_COST : Z := credit_cost "consistency".

Definition consistency (body_text : string) (user_id : string) : M world response :=
success <- deduct_credits user_id consistency_COST ;;
if negb success then
  current <- get_user_credits user_id ;;
  ret (insufficient_credits consistency_COST current)
else
  outcome <- attempt
    (result_str <- run_llm (CONSISTENCY_SYSTEM_PROMPT E)
                     ("Analyze this text for consistency issues:"
                      ++ Py.nl ++ Py.nl ++ body_text)%string true ;;
     lift (json_loads E result_str)) ;;
  match outcome with
  | Raise e =>
      add_credits user_id consistency_COST ;;;
      ret (http_exception 500 ("Consistency scan failed: " ++ e)%string)
  | Ok result =>
      credits_remaining <- get_user_credits user_id ;;
      log_analysis user_id "consistency" body_text result consistency_COST None ;;;
      issues <- lift (get result "issues" (JList [])) ;;
      score <- lift (get result "score" (JInt 50)) ;;
      summary <- lift (get result "summary" (JStr EmptyString)) ;;
      validated "ConsistencyResponse"
        (JDict [("issues", issues); ("score", score); ("summary", summary);
                ("credits_remaining", JInt credits_remaining)]%string)
  end.

(** *** [app/routers/evolution.py] *)

Definition evolution_COST : Z := credit_cost "evolution".

Definition evolution (body : EvolutionRequest) (user_id : string) : M world response :=
success <- deduct_credits user_id evolution_COST ;;
if negb success then
  current <- get_user_credits user_id ;;
  ret (insufficient_credits evolution_COST current)
else
  outcome <- attempt
    (result_str <- run_llm (EVOLUTION_SYSTEM_PROMPT E)
                     ("Track the character evolution of '"
                      ++ evolution_body_character_name body
                      ++ "' in the following text:"
                      ++ Py.nl ++ Py.nl ++ evolution_body_text body)%string true ;;
     lift (json_loads E result_str)) ;;
  match outcome with
  | Raise e =>
      add_credits user_id evolution_COST ;;;
      ret (http_exception 500 ("Evolution tracking failed: " ++ e)%string)
  | Ok result =>
      credits_remaining <- get_user_credits user_id ;;
      log_analysis user_id "evolution" (evolution_body_text body) result
        evolution_COST None ;;;
      character <- lift (get result "character"
                           (JStr (evolution_body_character_name body))) ;;
      arc <- lift (get result "arc" (JList [])) ;;
      evolution_type <- lift (get result "evolution_type" (JStr "complex")) ;;
      validated "EvolutionResponse"
        (JDict [("character", character); ("arc", arc);
                ("evolution_type", evolution_type);
                ("credits_remaining", JInt credits_remaining)]%string)
  end.

(** *** [app/routers/mindmap.py] *)

Definition mindmap_COST : Z := credit_cost "mindmap".

(** [d[key] = v] *)
Fixpoint dict_set (d : list (string * json)) (key : string) (v : json)
  : list (string * json) :=
match d with
| [] => [(key, v)]
| (k, v0) :: d' =>
    if String.eqb k key then (k, v) :: d' else (k, v0) :: dict_set d' key v
end.

(** [{**graph_data, "credits_remaining": credits_remaining}] *)
Definition with_credits_remaining (graph_data : json) (credits_remaining : Z)
  : result json :=
match graph_data with
| JDict d => Ok (JDict (dict_set d "credits_remaining" (JInt credits_remaining)))
| _ => Raise "TypeError"%string
end.

Definition mindmap (body_text : string) (user_id : string) : M world response :=
success <- deduct_credits user_id mindmap_COST ;;
if negb success then
  current <- get_user_credits user_id ;;
  ret (insufficient_credits mindmap_COST current)
else
  outcome <- attempt (build_graph body_text) ;;
  match outcome with
  | Raise e =>
      add_credits user_id mindmap_COST ;;;
      ret (http_exception 500 ("Mindmap generation failed: " ++ e)%string)
  | Ok graph_data =>
      credits_remaining <- get_user_credits user_id ;;
      log_analysis user_id "mindmap" body_text graph_data mindmap_COST None ;;;
      answer <- lift (with_credits_remaining graph_data credits_remaining) ;;
      validated "MindmapResponse" answer
  end.

(** The metered routers [app/main.py] includes. *)
Inductive route : Type :=
| Enhance (body : EnhanceRequest)
| Consistency (body_text : string)
| Evolution (body : EvolutionRequest)
| Mindmap (body_text : string).

Definition handle (user_id : string) (r : route) : M world response :=
match r with
| Enhance body => enhance body user_id
| Consistency body_text => consistency body_text user_id
| Evolution body => evolution body user_id
| Mindmap body_text => mindmap body_text user_id
end.

End Collaborators.

Definition cost (r : route) : Z :=
match r with
| Enhance _ => enhance_COST
| Consistency _ => consistency_COST
| Evolution _ => evolution_COST
| Mindmap _ => mindmap_COST
end.

(** What [get_user_credits] reads. *)
Definition balance (w : world) (user_id : string) : Z :=
match profiles w user_id with
| Some c => c
| None => 0%Z
end.

(** The user cannot pay [amount]. *)
Definition short_of (w : world) (user_id : string) (amount : Z) : Prop :=
match profiles w user_id with
| Some c => (c < amount)%Z
| None => True
end.

End Layered.

(* ================================================================= *)
(** * The legacy application ([app/app.py]) *)

Module Legacy.

Local Open Scope monad_scope.

(** ** DIFF UTILS *)

Inductive diff_type : Type := equal | insert | delete.

Record DiffSegment : Type := segment { type : diff_type; text : string }.

Definition diff_step (orig_words enh_words : list string)
    (result : list DiffSegment) (opc : opcode) : list DiffSegment :=
let '(op, i1, i2, j1, j2) := opc in
match op with
| Equal => result ++ [segment equal (Py.join " " (Py.slice orig_words i1 i2))]
| Insert => result ++ [segment insert (Py.join " " (Py.slice enh_words j1 j2))]
| Delete => result ++ [segment delete (Py.join " " (Py.slice orig_words i1 i2))]
| Replace =>
    (result ++ [segment delete (Py.join " " (Py.slice orig_words i1 i2))])
      ++ [segment insert (Py.join " " (Py.slice enh_words j1 j2))]
end.

(** [difflib.SequenceMatcher(None, orig_words, enh_words)]: [autojunk]
    keeps its default, [True]. *)
Definition compute_diff (original enhanced : string) : option (list DiffSegment) :=
let orig_words := Py.split original in
let enh_words := Py.split enhanced in
match sequence_matcher_opcodes String.eqb true orig_words enh_words with
| None => None
| Some ops => Some (fold_left (diff_step orig_words enh_words) ops [])
end.

(** ** PERSONAS *)

Record Persona : Type :=
  { label : string; description : string; system : string }.

Definition PERSONAS : list (string * Persona) :=
[("technical",
  {| label := "Technical";
     description := "Precise, structured, jargon-aware writing";
     system := "You are a technical writing expert. Rewrite the content to be precise, well-structured, and technically accurate. Use clear terminology, logical flow, and avoid ambiguity." |});
 ("business",
  {| label := "Business";
     description := "Professional & persuasive";
     system := "You are a senior business communication expert. Rewrite the content to be professional, persuasive, and results-oriented. Use active voice and business-appropriate vocabulary." |});
 ("finance",
  {| label := "Finance";
     description := "Analytical & data-oriented tone";
     system := "You are a financial analyst and writer. Rewrite the content with an analytical, data-driven tone. Use precise quantitative language and structured arguments." |});
 ("simplified",
  {| label := "Simplified";
     description := "Easy-to-read, beginner-friendly";
     system := "You are a plain-language expert. Rewrite the content so it is crystal-clear for a beginner. Use simple words, short sentences, and avoid jargon." |});
 ("comedian",
  {| label := "Comedian";
     description := "Light, witty style";
     system := "You are a witty comedy writer. Rewrite the content with a light, humorous tone. Add clever wordplay and amusing observations while keeping the core message intact." |});
 ("poet",
  {| label := "Poet";
     description := "Creative & expressive tone";
     system := "You are a creative literary writer. Rewrite the content with vivid, expressive, and poetic language. Use metaphors and imagery while preserving the original meaning." |})
]%string.

Fixpoint personas_lookup (d : list (string * Persona)) (key : string) : option Persona :=
match d with
| [] => None
| (k, v) :: d' => if String.eqb k key then Some v else personas_lookup d' key
end.

(** [persona_key in PERSONAS] *)
Definition in_PERSONAS (persona_key : string) : bool :=
match personas_lookup PERSONAS persona_key with
| Some _ => true
| None => false
end.

(** [PERSONAS.get(persona_key, PERSONAS["simplified"])] *)
Definition persona_for (persona_key : string) : Persona :=
match personas_lookup PERSONAS persona_key with
| Some p => p
| None =>
    match personas_lookup PERSONAS "simplified" with
    | Some p => p
    | None => {| label := EmptyString; description := EmptyString;
                 system := EmptyString |}
    end
end.

(** ** The store and the collaborators *)

Record Document : Type :=
  { doc_id : string; doc_user_id : string; doc_title : json;
    doc_content : json }.

(** A document of the [enhancements] collection. *)
Record Enhancement : Type :=
  { enh_user_id : string;
    enh_doc_id : string;
    enh_operation : string;
    enh_persona : option string;
    enh_input_text : string;
    enh_output_text : json;
    enh_changes : json;
    enh_credits_used : Z }.

Record world : Type :=
  { users : string -> option Z;
    documents : list Document;
    enhancements : list Enhancement;
    completions : nat;
    trace : list event }.

(** What the collaborators do during one request.  [chat_completion n]
    is the content of the [n]-th completion, or the exception the call
    raises; the two [insert] fields say whether the driver raises; the
    prompt layouts are the f-strings of the AI functions. *)
Record env : Type :=
  { chat_completion : nat -> result string;
    _parse_json : string -> result json;
    documents_insert : result string;
    enhancements_insert : result unit;
    similarity_score : string -> string -> json;
    react_flow_graph : json -> json -> result json;
    generate_mindmap_image : json -> json -> string -> result string;
    send_file : string -> result response;
    enhance_prompt : string -> string -> string;
    consistency_prompt : string -> string;
    structure_prompt : string -> string;
    character_prompt : string -> string -> string;
    entity_prompt : string -> string;
    relationship_prompt : list json -> string -> string;
    story_prompt : string -> string -> string -> string -> string }.

Section Collaborators.

Variable E : env.

(** ** DB HELPERS *)

Definition get_user_by_id (user_id : string) : M world (option Z) :=
fun w => (Ok (users w user_id), w).

(** [users.update_one({"_id": ...}, {"$inc": {"credits": delta}})] *)
Definition inc_credits (user_id : string) (delta : Z) : M world unit :=
fun w =>
  match users w user_id with
  | None => (Ok tt, w)
  | Some c =>
      (Ok tt,
       {| users := fun u => if String.eqb u user_id then Some (c + delta)%Z
                            else users w u;
          documents := documents w;
          enhancements := enhancements w;
          completions := completions w;
          trace := trace w ++ [BalanceInc user_id delta] |})
  end.

Definition get_credits (user_id : string) : M world Z :=
user <- get_user_by_id user_id ;;
ret (match user with Some c => c | None => 0%Z end).

(** The statements of [deduct_credits] after the read: the test on the
    user document that was read, and the update. *)
Definition deduct_after_read (user_id : string) (amount : Z) (user : option Z)
  : M world bool :=
match user with
| None => ret false
| Some c =>
    if (c <? amount)%Z then ret false
    else inc_credits user_id (- amount) ;;; ret true
end.

Definition deduct_credits (user_id : string) (amount : Z) : M world bool :=
user <- get_user_by_id user_id ;;
deduct_after_read user_id amount user.

Definition add_credits (user_id : string) (amount : Z) : M world unit :=
inc_credits user_id amount.

Definition save_document (user_id : string) (title content : json) : M world string :=
fun w =>
  match documents_insert E with
  | Raise e => (Raise e, w)
  | Ok inserted_id =>
      (Ok inserted_id,
       {| users := users w;
          documents := documents w ++
            [{| doc_id := inserted_id; doc_user_id := user_id;
                doc_title := title; doc_content := content |}];
          enhancements := enhancements w;
          completions := completions w;
          trace := trace w ++ [DocumentInsert user_id] |})
  end.

Definition save_enhancement (user_id doc_id operation input_text : string)
    (output_text : json) (persona : option string) (changes : json)
    (credits_used : Z) : M world unit :=
fun w =>
  match enhancements_insert E with
  | Raise e => (Raise e, w)
  | Ok _ =>
      (Ok tt,
       {| users := users w;
          documents := documents w;
          enhancements := enhancements w ++
            [{| enh_user_id := user_id; enh_doc_id := doc_id;
                enh_operation := operation; enh_persona := persona;
                enh_input_text := input_text; enh_output_text := output_text;
                enh_changes := changes; enh_credits_used := credits_used |}];
          completions := completions w;
          trace := trace w ++ [AuditInsert user_id operation] |})
  end.

(** ** The AI functions *)

Definition _call_gemini (prompt : string) : M world string :=
fun w =>
  (match chat_completion E (completions w) with
   | Ok content => Ok (Py.strip content)
   | Raise e => Raise e
   end,
   {| users := users w;
      documents := documents w;
      enhancements := enhancements w;
      completions := S (completions w);
      trace := trace w ++ [Generate [("user", prompt)]%string] |}).

(** [_parse_json(_call_gemini(prompt))] *)
Definition ask (prompt : string) : M world json :=
raw <- _call_gemini prompt ;;
lift (_parse_json E raw).

Definition enhance_with_persona (text persona_key : string) : M world json :=
let persona := persona_for persona_key in
ask (enhance_prompt E (system persona) text).

Definition analyze_consistency (text : string) : M world json :=
ask (consistency_prompt E text).

Definition suggest_structure (text : string) : M world json :=
ask (structure_prompt E text).

Definition track_character_evolution (text character_name : string) : M world json :=
ask (character_prompt E text character_name).

(** [[c["name"] for c in ...]] *)
Fixpoint names_of (characters : list json) : result (list json) :=
match characters with
| [] => Ok []
| c :: rest =>
    match getitem c "name" with
    | Raise x => Raise x
    | Ok name =>
        match names_of rest with
        | Raise x => Raise x
        | Ok names => Ok (name :: names)
        end
    end
end.

(** Steps 1 and 2 ask the collaborator twice; step 3, which builds the
    nodes and edges from the two answers, is [react_flow_graph]. *)
Definition generate_mindmap (text : string) : M world json :=
entities <- ask (entity_prompt E text) ;;
characters <- lift (get entities "characters" (JList [])) ;;
items <- lift (iterate characters) ;;
char_names <- lift (names_of items) ;;
relationships <- ask (relationship_prompt E char_names (Py.take 3000 text)) ;;
lift (react_flow_graph E entities relationships).

(** An operand of [+] and [//]: an [int] or a [bool]. *)
Definition as_number (v : json) : result Z :=
match v with
| JInt z => Ok z
| JBool true => Ok 1%Z
| JBool false => Ok 0%Z
| _ => Raise "TypeError"%string
end.

Definition deep_consistency_scan (text : string) : M world json :=
consistency <- analyze_consistency text ;;
structure <- suggest_structure text ;;
c <- lift (get consistency "overall_consistency_score" (JInt 50)) ;;
s1 <- lift (get structure "structure_score" (JInt 50)) ;;
s2 <- lift (get structure "clarity_score" (JInt 50)) ;;
x <- lift (as_number c) ;;
y <- lift (as_number s1) ;;
z <- lift (as_number s2) ;;
ret (JDict [("consistency", consistency); ("structure", structure);
            ("combined_score", JInt ((x + y + z) / 3))]%string).

(** [length_map.get(length, "1000-1500")] *)
Definition word_count_for (length : string) : string :=
if String.eqb length "short" then "500-800"
else if String.eqb length "medium" then "1000-1500"
else if String.eqb length "long" then "2000-3000"
else "1000-1500".

Definition complete_story (partial_text genre style length : string) : M world json :=
ask (story_prompt E genre style (word_count_for length) partial_text).

(** ** The routes *)

(** The JSON body of a request, as far as the routes read it; [None]
    is a key that is absent. *)
Record request : Type :=
  { data_text : option string;
    data_persona : option string;
    data_doc_id : option string;
    data_title : option string;
    data_character_name : option string;
    data_genre : option string;
    data_style : option string;
    data_length : option string }.

(** [data.get(key, default)] *)
Definition field (v : option string) (default : string) : string :=
match v with
| Some s => s
| None => default
end.

Definition is_empty (s : string) : bool := String.eqb s EmptyString.

Definition error (status : nat) (message : string) : response :=
Http status (JDict [("error", JStr message)]%string).

Definition insufficient_credits (credits_required : Z) : response :=
Http 402 (JDict [("error", JStr "Insufficient credits");
                 ("credits_required", JInt credits_required)]%string).

Definition returned {A : Type} (o : option A) : M world A :=
match o with
| Some x => ret x
| None => raise "RecursionError"%string
end.

Definition diff_type_name (t : diff_type) : string :=
match t with
| equal => "equal"
| insert => "insert"
| delete => "delete"
end.

Definition diff_json (diff : list DiffSegment) : json :=
JList (map (fun s => JDict [("type", JStr (diff_type_name (type s)));
                            ("text", JStr (text s))]%string) diff).

(** [enhanced_text.split()] needs a string. *)
Definition as_str (v : json) : result string :=
match v with
| JStr s => Ok s
| _ => Raise "AttributeError"%string
end.

Definition unknown_persona_message : string :=
"Unknown persona. Valid: ['technical', 'business', 'finance', 'simplified', 'comedian', 'poet']".

Definition persona_enhance (user_id : string) (data : request) : M world response :=
let text := Py.strip (field (data_text data) EmptyString) in
let persona_key := field (data_persona data) "simplified" in
let doc_id := field (data_doc_id data) EmptyString in
let title := field (data_title data) "Untitled" in
if is_empty text then ret (error 400 "text is required")
else if (50000 <? Z.of_nat (Py.len text))%Z
then ret (error 400 "Text too long (max 50,000 characters)")
else if negb (in_PERSONAS persona_key) then ret (error 400 unknown_persona_message)
else
  reserved <- deduct_credits user_id 1 ;;
  if negb reserved then ret (insufficient_credits 1)
  else
    outcome <- attempt (enhance_with_persona text persona_key) ;;
    match outcome with
    | Raise e =>
        add_credits user_id 1 ;;;
        ret (error 500 ("AI error: " ++ e)%string)
    | Ok result =>
        enhanced_text <- lift (get result "enhanced_text" (JStr EmptyString)) ;;
        changes <- lift (get result "changes" (JList [])) ;;
        doc_id <- (if is_empty doc_id
                   then save_document user_id (JStr title) (JStr text)
                   else ret doc_id) ;;
        save_enhancement user_id doc_id "persona_enhance" text enhanced_text
          (Some persona_key) changes 1 ;;;
        enhanced <- lift (as_str enhanced_text) ;;
        diff <- returned (compute_diff text enhanced) ;;
        ret (Http 200
               (JDict [("enhanced_text", enhanced_text);
                       ("changes", changes);
                       ("diff", diff_json diff);
                       ("similarity_score", similarity_score E text enhanced);
                       ("persona", JStr (label (persona_for persona_key)));
                       ("doc_id", JStr doc_id);
                       ("credits_used", JInt 1)]%string))
    end.

Definition consistency_check (user_id : string) (data : request) : M world response :=
let text := Py.strip (field (data_text data) EmptyString) in
let doc_id := field (data_doc_id data) EmptyString in
if is_empty text then ret (error 400 "text is required")
else
  reserved <- deduct_credits user_id 1 ;;
  if negb reserved then ret (insufficient_credits 1)
  else
    outcome <- attempt (analyze_consistency text) ;;
    match outcome with
    | Raise e =>
        add_credits user_id 1 ;;;
        ret (error 500 ("AI error: " ++ e)%string)
    | Ok result =>
        save_enhancement user_id doc_id "consistency_check" text (JStr EmptyString)
          None (JList []) 1 ;;;
        ret (Http 200 (JDict [("consistency_analysis", result);
                              ("credits_used", JInt 1)]%string))
    end.

Definition structure_check (user_id : string) (data : request) : M world response :=
let text := Py.strip (field (data_text data) EmptyString) in
let doc_id := field (data_doc_id data) EmptyString in
if is_empty text then ret (error 400 "text is required")
else
  reserved <- deduct_credits user_id 1 ;;
  if negb reserved then ret (insufficient_credits 1)
  else
    outcome <- attempt (suggest_structure text) ;;
    match outcome with
    | Raise e =>
        add_credits user_id 1 ;;;
        ret (error 500 ("AI error: " ++ e)%string)
    | Ok result =>
        save_enhancement user_id doc_id "structure_check" text (JStr EmptyString)
          None (JList []) 1 ;;;
        ret (Http 200 (JDict [("structure_analysis", result);
                              ("credits_used", JInt 1)]%string))
    end.

Definition character_evolution (user_id : string) (data : request) : M world response :=
let text := Py.strip (field (data_text data) EmptyString) in
let character_name := Py.strip (field (data_character_name data) EmptyString) in
let doc_id := field (data_doc_id data) EmptyString in
if is_empty text || is_empty character_name
then ret (error 400 "text and character_name are required")
else
  reserved <- deduct_credits user_id 1 ;;
  if negb reserved then ret (insufficient_credits 1)
  else
    outcome <- attempt (track_character_evolution text character_name) ;;
    match outcome with
    | Raise e =>
        add_credits user_id 1 ;;;
        ret (error 500 ("AI error: " ++ e)%string)
    | Ok result =>
        save_enhancement user_id doc_id "character_evolution" text (JStr EmptyString)
          None (JList []) 1 ;;;
        ret (Http 200 (JDict [("character_evolution", result);
                              ("credits_used", JInt 1)]%string))
    end.

Definition deep_scan (user_id : string) (data : request) : M world response :=
let text := Py.strip (field (data_text data) EmptyString) in
let doc_id := field (data_doc_id data) EmptyString in
if is_empty text then ret (error 400 "text is required")
else
  reserved <- deduct_credits user_id 2 ;;
  if negb reserved then ret (insufficient_credits 2)
  else
    outcome <- attempt (deep_consistency_scan text) ;;
    match outcome with
    | Raise e =>
        add_credits user_id 2 ;;;
        ret (error 500 ("AI error: " ++ e)%string)
    | Ok result =>
        save_enhancement user_id doc_id "deep_scan" text (JStr EmptyString)
          None (JList []) 2 ;;;
        ret (Http 200 (JDict [("deep_scan", result);
                              ("credits_used", JInt 2)]%string))
    end.

Definition generate_mindmap_route (user_id : string) (data : request) : M world response :=
let text := Py.strip (field (data_text data) EmptyString) in
let doc_id := field (data_doc_id data) EmptyString in
if is_empty text then ret (error 400 "text is required")
else if (Z.of_nat (Py.len text) <? 100)%Z
then ret (error 400 "Text too short (min 100 characters)")
else if (30000 <? Z.of_nat (Py.len text))%Z
then ret (error 400 "Text too long (max 30,000 characters)")
else
  reserved <- deduct_credits user_id 2 ;;
  if negb reserved then ret (insufficient_credits 2)
  else
    outcome <- attempt (generate_mindmap text) ;;
    match outcome with
    | Raise e =>
        add_credits user_id 2 ;;;
        ret (error 500 ("AI error: " ++ e)%string)
    | Ok result =>
        save_enhancement user_id doc_id "mindmap_generate" text (JStr EmptyString)
          None (JList []) 2 ;;;
        ret (Http 200 (JDict [("mindmap", result);
                              ("credits_used", JInt 2)]%string))
    end.

(** Here the audit record and the answer are written inside the [try]. *)
Definition mindmap_image_route (user_id : string) (data : request) : M world response :=
let text := Py.strip (field (data_text data) EmptyString) in
let doc_id := field (data_doc_id data) EmptyString in
let title := field (data_title data) "Narrative Mindmap" in
if is_empty text then ret (error 400 "text is required")
else if (Z.of_nat (Py.len text) <? 100)%Z
then ret (error 400 "Text too short (min 100 characters)")
else if (30000 <? Z.of_nat (Py.len text))%Z
then ret (error 400 "Text too long (max 30,000 characters)")
else
  reserved <- deduct_credits user_id 2 ;;
  if negb reserved then ret (insufficient_credits 2)
  else
    outcome <- attempt
      (graph_data <- generate_mindmap text ;;
       nodes <- lift (getitem graph_data "nodes") ;;
       edges <- lift (getitem graph_data "edges") ;;
       img_buf <- lift (generate_mindmap_image E nodes edges title) ;;
       save_enhancement user_id doc_id "mindmap_image" text (JStr EmptyString)
         None (JList []) 2 ;;;
       lift (send_file E img_buf)) ;;
    match outcome with
    | Raise e =>
        add_credits user_id 2 ;;;
        ret (error 500 ("Error: " ++ e)%string)
    | Ok answer => ret answer
    end.

Definition story_complete (user_id : string) (data : request) : M world response :=
let COST := 2%Z in
let partial_text := Py.strip (field (data_text data) EmptyString) in
let genre := field (data_genre data) "general" in
let style := field (data_style data) "narrative" in
let length := field (data_length data) "medium" in
let doc_id := field (data_doc_id data) EmptyString in
let title := field (data_title data) "My Story" in
if is_empty partial_text then ret (error 400 "text is required")
else if (Z.of_nat (Py.len partial_text) <? 20)%Z
then ret (error 400 "Please provide at least a sentence or idea to complete")
else
  reserved <- deduct_credits user_id COST ;;
  if negb reserved then ret (insufficient_credits COST)
  else
    outcome <- attempt (complete_story partial_text genre style length) ;;
    match outcome with
    | Raise e =>
        add_credits user_id COST ;;;
        ret (error 500 ("AI error: " ++ e)%string)
    | Ok result =>
        completed_text <- lift (get result "completed_story" (JStr EmptyString)) ;;
        saved_title <- lift (get result "title" (JStr title)) ;;
        doc_id <- (if is_empty doc_id
                   then save_document user_id saved_title completed_text
                   else ret doc_id) ;;
        save_enhancement user_id doc_id "story_complete" partial_text
          completed_text None (JList []) COST ;;;
        summary <- lift (get result "summary" (JStr EmptyString)) ;;
        characters <- lift (get result "characters" (JList [])) ;;
        genre_detected <- lift (get result "genre_detected" (JStr genre)) ;;
        word_count <- lift (get result "word_count" (JInt 0)) ;;
        story_structure <- lift (get result "story_structure" (JDict [])) ;;
        ret (Http 200
               (JDict [("completed_story", completed_text);
                       ("title", saved_title);
                       ("summary", summary);
                       ("characters", characters);
                       ("genre_detected", genre_detected);
                       ("word_count", word_count);
                       ("story_structure", story_structure);
                       ("doc_id", JStr doc_id);
                       ("credits_used", JInt COST)]%string))
    end.

(** [filename.rsplit(".", 1)[1]], when there is a dot. *)
Fixpoint after_last_dot (filename : string) (found : option string) : option string :=
match filename with
| EmptyString => found
| String c rest =>
    if Ascii.eqb c "."%char then after_last_dot rest (Some rest)
    else after_last_dot rest found
end.

Definition ALLOWED_EXTENSIONS : list string := ["pdf"; "txt"; "md"]%string.

Definition allowed_file (filename : string) : bool :=
match after_last_dot filename None with
| None => false
| Some ext => existsb (String.eqb (Py.lower ext)) ALLOWED_EXTENSIONS
end.

(** The multipart form of [story_complete_from_file]: the name of the
    uploaded file, if there is one, what [extract_text_from_file] makes
    of it, and the form fields. *)
Record upload : Type :=
  { files_file : option string;
    extracted_text : result string;
    form_genre : option string;
    form_style : option string;
    form_length : option string;
    form_title : option string }.

Definition story_complete_from_file (user_id : string) (form : upload) : M world response :=
let COST := 2%Z in
match files_file form with
| None => ret (error 400 "No file uploaded. Use key: file")
| Some filename =>
    if negb (allowed_file filename)
    then ret (error 400 "Invalid file type. Allowed: pdf, txt, md")
    else
      let genre := field (form_genre form) "general" in
      let style := field (form_style form) "narrative" in
      let length := field (form_length form) "medium" in
      let title := field (form_title form) "My Story" in
      match extracted_text form with
      | Raise e => ret (error 500 ("File error: " ++ e)%string)
      | Ok partial_text =>
          if is_empty partial_text
          then ret (error 400 "Could not extract text from file")
          else
            reserved <- deduct_credits user_id COST ;;
            if negb reserved then ret (insufficient_credits COST)
            else
              outcome <- attempt (complete_story partial_text genre style length) ;;
              match outcome with
              | Raise e =>
                  add_credits user_id COST ;;;
                  ret (error 500 ("AI error: " ++ e)%string)
              | Ok result =>
                  completed_text <- lift (get result "completed_story" (JStr EmptyString)) ;;
                  saved_title <- lift (get result "title" (JStr title)) ;;
                  doc_id <- save_document user_id saved_title completed_text ;;
                  save_enhancement user_id doc_id "story_complete_file" partial_text
                    completed_text None (JList []) COST ;;;
                  summary <- lift (get result "summary" (JStr EmptyString)) ;;
                  characters <- lift (get result "characters" (JList [])) ;;
                  genre_detected <- lift (get result "genre_detected" (JStr genre)) ;;
                  word_count <- lift (get result "word_count" (JInt 0)) ;;
                  story_structure <- lift (get result "story_structure" (JDict [])) ;;
                  ret (Http 200
                         (JDict [("completed_story", completed_text);
                                 ("title", saved_title);
                                 ("summary", summary);
                                 ("characters", characters);
                                 ("genre_detected", genre_detected);
                                 ("word_count", word_count);
                                 ("story_structure", story_structure);
                                 ("original_text", JStr partial_text);
                                 ("doc_id", JStr doc_id);
                                 ("credits_used", JInt COST)]%string))
              end
      end
end.

(** The metered routes of the [app.route] table. *)
Inductive route : Type :=
| PersonaEnhance (data : request)
| ConsistencyCheck (data : request)
| StructureCheck (data : request)
| CharacterEvolution (data : request)
| DeepScan (data : request)
| GenerateMindmap (data : request)
| MindmapImage (data : request)
| StoryComplete (data : request)
| StoryCompleteFromFile (form : upload).

Definition handle (user_id : string) (r : route) : M world response :=
match r with
| PersonaEnhance data => persona_enhance user_id data
| ConsistencyCheck data => consistency_check user_id data
| StructureCheck data => structure_check user_id data
| CharacterEvolution data => character_evolution user_id data
| DeepScan data => deep_scan user_id data
| GenerateMindmap data => generate_mindmap_route user_id data
| MindmapImage data => mindmap_image_route user_id data
| StoryComplete data => story_complete user_id data
| StoryCompleteFromFile form => story_complete_from_file user_id form
end.

End Collaborators.

(** The amount each route passes to [deduct_credits]. *)
Definition cost (r : route) : Z :=
match r with
| PersonaEnhance _ | ConsistencyCheck _ | StructureCheck _
| CharacterEvolution _ => 1
| DeepScan _ | GenerateMindmap _ | MindmapImage _ | StoryComplete _
| StoryCompleteFromFile _ => 2
end.

Definition text_of (data : request) : string :=
Py.strip (field (data_text data) EmptyString).

(** The request passes the checks that come before the reservation. *)
Definition accepts (r : route) : bool :=
match r with
| PersonaEnhance data =>
    negb (is_empty (text_of data))
    && negb (50000 <? Z.of_nat (Py.len (text_of data)))%Z
    && in_PERSONAS (field (data_persona data) "simplified")
| ConsistencyCheck data | StructureCheck data | DeepScan data =>
    negb (is_empty (text_of data))
| CharacterEvolution data =>
    negb (is_empty (text_of data))
    && negb (is_empty (Py.strip (field (data_character_name data) EmptyString)))
| GenerateMindmap data | MindmapImage data =>
    negb (is_empty (text_of data))
    && negb (Z.of_nat (Py.len (text_of data)) <? 100)%Z
    && negb (30000 <? Z.of_nat (Py.len (text_of data)))%Z
| StoryComplete data =>
    negb (is_empty (text_of data))
    && negb (Z.of_nat (Py.len (text_of data)) <? 20)%Z
| StoryCompleteFromFile form =>
    match files_file form, extracted_text form with
    | Some filename, Ok partial_text =>
        allowed_file filename && negb (is_empty partial_text)
    | _, _ => false
    end
end.

(** The user cannot pay [amount]. *)
Definition short_of (w : world) (user_id : string) (amount : Z) : Prop :=
match users w user_id with
| Some c => (c < amount)%Z
| None => True
end.

End Legacy.

(* ================================================================= *)
(** * Concurrent reservations

    Requests run in parallel; each is sequential inside.  The calls of
    [deduct_credits] that several requests of one user make at the same
    time interleave at the operations on the store: the legacy function
    reads the user and then updates it, two operations; the layered one
    is one remote procedure call. *)

Module Interleaving.

(** Where one call of [deduct_credits] stands. *)
Inductive call : Type :=
| Start
| Fetched (user : option Z)
| Returned (success : bool).

Fixpoint replace_nth {A : Type} (n : nat) (x : A) (l : list A) : list A :=
match l, n with
| [], _ => []
| _ :: l', 0 => x :: l'
| y :: l', S n' => y :: replace_nth n' x l'
end.

(** Call [n] of a legacy request does its next store operation. *)
Definition legacy_step (user_id : string) (amount : Z) (n : nat)
    (s : Legacy.world * list call) : option (Legacy.world * list call) :=
let '(w, calls) := s in
match nth_error calls n with
| Some Start =>
    match Legacy.get_user_by_id user_id w with
    | (Ok user, w') => Some (w', replace_nth n (Fetched user) calls)
    | (Raise _, _) => None
    end
| Some (Fetched user) =>
    match Legacy.deduct_after_read user_id amount user w with
    | (Ok success, w') => Some (w', replace_nth n (Returned success) calls)
    | (Raise _, _) => None
    end
| _ => None
end.

(** Call [n] of a layered request does its one operation. *)
Definition layered_step (user_id : string) (amount : Z) (n : nat)
    (s : Layered.world * list call) : option (Layered.world * list call) :=
let '(w, calls) := s in
match nth_error calls n with
| Some Start =>
    match Layered.deduct_credits user_id amount w with
    | (Ok success, w') => Some (w', replace_nth n (Returned success) calls)
    | (Raise _, _) => None
    end
| _ => None
end.

(** A schedule names the call that moves next. *)
Fixpoint run {S : Type} (step : nat -> S -> option S) (schedule : list nat)
    (s : S) : option S :=
match schedule with
| [] => Some s
| n :: schedule' =>
    match step n s with
    | Some s' => run step schedule' s'
    | None => None
    end
end.

Definition is_returned (c : call) : bool :=
match c with
| Returned _ => true
| _ => false
end.

Definition succeeded (c : call) : bool :=
match c with
| Returned true => true
| _ => false
end.

Definition failed (c : call) : bool :=
match c with
| Returned false => true
| _ => false
end.

Definition all_returned (calls : list call) : bool := forallb is_returned calls.

Definition successes (calls : list call) : nat := List.length (filter succeeded calls).

Definition failures (calls : list call) : nat := List.length (filter failed calls).

End Interleaving.

(* ================================================================= *)
(** * More of the legacy application ([app/app.py]) *)

(** [s.startswith(prefix)] *)
Fixpoint starts_with (prefix s : string) : bool :=
match prefix, s with
| EmptyString, _ => true
| String p prefix', String c s' => Ascii.eqb p c && starts_with prefix' s'
| String _ _, EmptyString => false
end.

Module LegacyGraph.

(** [str(n)] for a length or an index. *)
Definition str_of_nat (n : nat) : string := NilEmpty.string_of_uint (Nat.to_uint n).

(** What can be a key of a [dict]: a list or a dict cannot be hashed. *)
Definition hashable (v : json) : bool :=
match v with
| JList _ | JDict _ => false
| _ => true
end.

(** [x == y] for two keys: [True] is [1] and [False] is [0]. *)
Definition key_eqb (x y : json) : bool :=
match x, y with
| JNull, JNull => true
| JStr s, JStr t => String.eqb s t
| JInt a, JInt b => (a =? b)%Z
| JInt a, JBool b => (a =? (if b then 1 else 0))%Z
| JBool a, JInt b => ((if a then 1 else 0) =? b)%Z
| JBool a, JBool b => Bool.eqb a b
| _, _ => false
end.

(** [node_id_map]: names to node ids, in insertion order. *)
Definition node_id_map_t : Type := list (json * string).

Fixpoint map_lookup (node_id_map : node_id_map_t) (name : json) : option string :=
match node_id_map with
| [] => None
| (k, v) :: rest => if key_eqb k name then Some v else map_lookup rest name
end.

(** [node_id_map.get(name)], and [name in node_id_map]: the key is
    hashed first. *)
Definition map_get (node_id_map : node_id_map_t) (name : json) : result (option string) :=
if hashable name then Ok (map_lookup node_id_map name)
else Raise "TypeError"%string.

(** The closure [add_node] and the two lists it updates. *)
Definition add_node (nodes : list json) (node_id_map : node_id_map_t)
    (name : json) (node_type : string) (extra : list (string * json))
  : result (list json * node_id_map_t) :=
match map_get node_id_map name with
| Raise e => Raise e
| Ok (Some _) => Ok (nodes, node_id_map)
| Ok None =>
    let nid := ("node_" ++ str_of_nat (List.length nodes))%string in
    Ok (nodes ++
        [JDict [("id", JStr nid);
                ("data", JDict ([("label", name); ("type", JStr node_type)] ++ extra));
                ("type", JStr node_type);
                ("position", JDict [("x", JInt 0); ("y", JInt 0)])]%string],
        node_id_map ++ [(name, nid)])
end.

(** [for c in entities.get("characters", [])] *)
Fixpoint add_characters (nodes : list json) (node_id_map : node_id_map_t)
    (items : list json) : result (list json * node_id_map_t) :=
match items with
| [] => Ok (nodes, node_id_map)
| c :: rest =>
    match getitem c "name" with
    | Raise e => Raise e
    | Ok name =>
        match get c "role" (JStr EmptyString), get c "traits" (JList []),
              get c "mentions" (JInt 1) with
        | Ok role, Ok traits, Ok mentions =>
            match add_node nodes node_id_map name "character"
                    [("role", role); ("traits", traits); ("mentions", mentions)]%string with
            | Raise e => Raise e
            | Ok (nodes', node_id_map') => add_characters nodes' node_id_map' rest
            end
        | Raise e, _, _ | _, Raise e, _ | _, _, Raise e => Raise e
        end
    end
end.

(** [for l in entities.get("locations", [])] and the loop over the
    organizations. *)
Fixpoint add_described (node_type : string) (nodes : list json)
    (node_id_map : node_id_map_t) (items : list json)
  : result (list json * node_id_map_t) :=
match items with
| [] => Ok (nodes, node_id_map)
| l :: rest =>
    match getitem l "name" with
    | Raise e => Raise e
    | Ok name =>
        match get l "description" (JStr EmptyString) with
        | Raise e => Raise e
        | Ok description =>
            match add_node nodes node_id_map name node_type
                    [("description", description)]%string with
            | Raise e => Raise e
            | Ok (nodes', node_id_map') => add_described node_type nodes' node_id_map' rest
            end
        end
    end
end.

(** [for t in entities.get("themes", [])] *)
Fixpoint add_themes (nodes : list json) (node_id_map : node_id_map_t)
    (items : list json) : result (list json * node_id_map_t) :=
match items with
| [] => Ok (nodes, node_id_map)
| t :: rest =>
    match add_node nodes node_id_map t "theme" [] with
    | Raise e => Raise e
    | Ok (nodes', node_id_map') => add_themes nodes' node_id_map' rest
    end
end.

(** [if src and tgt]: an id that was found and is not the empty string. *)
Definition found_id (v : option string) : option string :=
match v with
| Some s => if String.eqb s EmptyString then None else Some s
| None => None
end.

(** [for i, rel in enumerate(relationships.get("relationships", []))] *)
Fixpoint add_edges (node_id_map : node_id_map_t) (i : nat) (rels : list json)
    (edges : list json) : result (list json) :=
match rels with
| [] => Ok edges
| rel :: rest =>
    match getitem rel "from" with
    | Raise e => Raise e
    | Ok from =>
        match map_get node_id_map from with
        | Raise e => Raise e
        | Ok src =>
            match getitem rel "to" with
            | Raise e => Raise e
            | Ok to =>
                match map_get node_id_map to with
                | Raise e => Raise e
                | Ok tgt =>
                    match found_id src, found_id tgt with
                    | Some s, Some t =>
                        match getitem rel "type" with
                        | Raise e => Raise e
                        | Ok label =>
                            match get rel "description" (JStr EmptyString) with
                            | Raise e => Raise e
                            | Ok description =>
                                add_edges node_id_map (S i) rest
                                  (edges ++
                                   [JDict [("id", JStr ("edge_" ++ str_of_nat i));
                                           ("source", JStr s);
                                           ("target", JStr t);
                                           ("label", label);
                                           ("data",
                                            JDict [("description", description)])]%string])
                            end
                        end
                    | _, _ => add_edges node_id_map (S i) rest edges
                    end
                end
            end
        end
    end
end.

(** [len(v)] *)
Definition len (v : json) : result Z :=
match v with
| JList l => Ok (Z.of_nat (List.length l))
| JStr s => Ok (Z.of_nat (String.length s))
| JDict d => Ok (Z.of_nat (List.length d))
| _ => Raise "TypeError"%string
end.

(** The items of [obj.get(key, [])], as a [for] loop sees them. *)
Definition items_of (obj : json) (key : string) : result (list json) :=
match get obj key (JList []) with
| Raise e => Raise e
| Ok v => iterate v
end.

Definition count_of (obj : json) (key : string) : result json :=
match get obj key (JList []) with
| Raise e => Raise e
| Ok v => match len v with Raise e => Raise e | Ok n => Ok (JInt n) end
end.

(** Step 3 of [generate_mindmap]: the React Flow graph built from the
    two answers of the collaborator. *)
Definition react_flow_graph (entities relationships : json) : result json :=
match items_of entities "characters" with
| Raise e => Raise e
| Ok characters =>
match add_characters [] [] characters with
| Raise e => Raise e
| Ok (nodes1, map1) =>
match items_of entities "locations" with
| Raise e => Raise e
| Ok locations =>
match add_described "location" nodes1 map1 locations with
| Raise e => Raise e
| Ok (nodes2, map2) =>
match items_of entities "organizations" with
| Raise e => Raise e
| Ok organizations =>
match add_described "organization" nodes2 map2 organizations with
| Raise e => Raise e
| Ok (nodes3, map3) =>
match items_of entities "themes" with
| Raise e => Raise e
| Ok themes =>
match add_themes nodes3 map3 themes with
| Raise e => Raise e
| Ok (nodes, node_id_map) =>
match items_of relationships "relationships" with
| Raise e => Raise e
| Ok rels =>
match add_edges node_id_map 0 rels [] with
| Raise e => Raise e
| Ok edges =>
match get relationships "relationships" (JList []),
      count_of entities "characters", count_of entities "locations",
      count_of entities "themes", count_of relationships "relationships" with
| Ok relationships_list, Ok character_count, Ok location_count, Ok theme_count,
  Ok relationship_count =>
    Ok (JDict [("nodes", JList nodes); ("edges", JList edges);
               ("entities", entities);
               ("relationships", relationships_list);
               ("summary",
                JDict [("character_count", character_count);
                       ("location_count", location_count);
                       ("theme_count", theme_count);
                       ("relationship_count", relationship_count)])]%string)
| Raise e, _, _, _, _ | _, Raise e, _, _, _ | _, _, Raise e, _, _
| _, _, _, Raise e, _ | _, _, _, _, Raise e => Raise e
end end end end end end end end end end end.

End LegacyGraph.

Module LegacyAI.

(** [re.sub] of the pattern [```(?:json)?] by the empty string: from
    the left, every fence is deleted, with the word [json] when it
    follows; [skip] characters of the match being deleted are still to
    pass. *)
Fixpoint sub_fences (text : string) (skip : nat) : string :=
match text with
| EmptyString => EmptyString
| String c text' =>
    match skip with
    | S skip' => sub_fences text' skip'
    | 0 =>
        if starts_with "```json" text then sub_fences text' 6
        else if starts_with "```" text then sub_fences text' 2
        else String c (sub_fences text' 0)
    end
end.

(** [text.replace] of the fence by the empty string. *)
Fixpoint replace_fences (text : string) (skip : nat) : string :=
match text with
| EmptyString => EmptyString
| String c text' =>
    match skip with
    | S skip' => replace_fences text' skip'
    | 0 =>
        if starts_with "```" text then replace_fences text' 2
        else String c (replace_fences text' 0)
    end
end.

(** The first line of [_parse_json]. *)
Definition clean (text : string) : string :=
Py.strip (replace_fences (sub_fences text 0) 0).

Section Parse.

(** [json.loads] *)
Variable json_loads : string -> result json.

Definition _parse_json (text : string) : result json := json_loads (clean text).

End Parse.

End LegacyAI.

Module LegacyCredits.

Local Open Scope monad_scope.

(** [str(n)] for an integer. *)
Definition str_of_Z (z : Z) : string := NilEmpty.string_of_int (Z.to_int z).

Section Routes.

(** [int(s)] for a string: the parser of the language. *)
Variable int_of_str : string -> result Z.

(** [int(v)] *)
Definition int (v : json) : result Z :=
match v with
| JInt z => Ok z
| JBool b => Ok (if b then 1 else 0)%Z
| JStr s => int_of_str s
| JNull | JList _ | JDict _ => Raise "TypeError"%string
end.

(** [GET /api/credits/balance] *)
Definition balance (user_id : string) : M Legacy.world response :=
credits <- Legacy.get_credits user_id ;;
ret (Http 200 (JDict [("credits", JInt credits); ("user_id", JStr user_id)]%string)).

(** [POST /api/credits/add]; [data_amount] is [None] when the body has
    no key [amount]. *)
Definition add_credits_route (user_id : string) (data_amount : option json)
  : M Legacy.world response :=
match int (match data_amount with Some v => v | None => JInt 5 end) with
| Raise e => raise e
| Ok amount =>
    if ((amount <? 1) || (100 <? amount))%Z
    then ret (Legacy.error 400 "amount must be between 1 and 100")
    else
      Legacy.add_credits user_id amount ;;;
      new_balance <- Legacy.get_credits user_id ;;
      ret (Http 200
             (JDict [("message", JStr ("Added " ++ str_of_Z amount ++ " credits"));
                     ("new_balance", JInt new_balance)]%string))
end.

End Routes.

End LegacyCredits.

(* ================================================================= *)
(** * More of the layered application: [app/services/nlp.py] *)

Module Nlp.

Local Open Scope string_scope.

Definition theme_keywords : list (string * list string) :=
[("Friendship", ["friend"; "friendship"; "together"; "bond"; "companion"]);
 ("Conflict", ["fight"; "conflict"; "battle"; "argue"; "enemy"; "war"]);
 ("Love", ["love"; "romance"; "heart"; "affection"; "kiss"; "beloved"]);
 ("Betrayal", ["betray"; "backstab"; "deceive"; "lie"; "cheat"; "trust"]);
 ("Growth", ["grow"; "learn"; "change"; "evolve"; "transform"; "journey"]);
 ("Loss", ["loss"; "grief"; "death"; "mourn"; "miss"; "gone"]);
 ("Power", ["power"; "control"; "authority"; "rule"; "dominate"; "influence"]);
 ("Redemption", ["redeem"; "forgive"; "second chance"; "atone"; "guilt"])].

(** The occurrences of [sub] in [s] that do not overlap, read from the
    left; [skip] characters of the last occurrence are still to pass. *)
Fixpoint count_from (sub s : string) (skip : nat) : nat :=
match s with
| EmptyString => 0
| String _ s' =>
    match skip with
    | S skip' => count_from sub s' skip'
    | 0 =>
        if starts_with sub s
        then S (count_from sub s' (String.length sub - 1))
        else count_from sub s' 0
    end
end.

(** [s.count(sub)] *)
Definition count (s sub : string) : nat :=
match sub with
| EmptyString => S (String.length s)
| _ => count_from sub s 0
end.

(** [sum(text_lower.count(kw) for kw in keywords)] *)
Definition score (text_lower : string) (keywords : list string) : nat :=
list_sum (map (count text_lower) keywords).

(** [found_themes.sort(key=lambda x: x[1], reverse=True)]: the sort is
    stable, so of two themes with the same score the one found first
    stays first. *)
Fixpoint insert_by_score (x : string * nat) (l : list (string * nat))
  : list (string * nat) :=
match l with
| [] => [x]
| y :: l' => if (snd y <=? snd x)%nat then x :: l else y :: insert_by_score x l'
end.

Fixpoint sort_by_score (l : list (string * nat)) : list (string * nat) :=
match l with
| [] => []
| x :: l' => insert_by_score x (sort_by_score l')
end.

Definition found_themes (text : string) : list (string * nat) :=
let text_lower := Py.lower text in
filter (fun ts => (2 <=? snd ts)%nat)
  (map (fun tk => (fst tk, score text_lower (snd tk))) theme_keywords).

Definition extract_themes_heuristic (text : string) : list string :=
map fst (firstn 5 (sort_by_score (found_themes text))).

End Nlp.

(* ================================================================= *)
(** * More of the layered application: [app/routers/credits.py] *)

Module Payments.

Local Open Scope monad_scope.

(** ** [app/models/schemas.py] and [app/config.py] *)

Inductive CreditPackEnum : Type := starter | pro | unlimited.

Definition CreditPackEnum_value (p : CreditPackEnum) : string :=
match p with
| starter => "starter"
| pro => "pro"
| unlimited => "unlimited"
end.

(** A pack: its credits and its price in paise. *)
Definition CREDIT_PACKS : list (string * (Z * Z)) :=
[("starter", (20, 9900)); ("pro", (60, 24900)); ("unlimited", (150, 49900))]%string%Z.

Fixpoint packs_get (packs : list (string * (Z * Z))) (key : string) : option (Z * Z) :=
match packs with
| [] => None
| (k, v) :: packs' => if String.eqb k key then Some v else packs_get packs' key
end.

(** ** The store and the payment provider *)

(** A row of the [transactions] table. *)
Record Transaction : Type :=
  { tx_user_id : string;
    tx_stripe_payment_intent_id : string;
    tx_credits_purchased : Z;
    tx_amount_paise : Z;
    tx_status : string }.

Record world : Type :=
  { ledger : Layered.world;
    transactions : list Transaction }.

(** A PaymentIntent as the provider returns it; the values of its
    [metadata] are strings. *)
Record PaymentIntent : Type :=
  { intent_id : string;
    intent_client_secret : string;
    intent_status : string;
    metadata_user_id : option string;
    metadata_credits : option string }.

Record Event : Type :=
  { event_type : string;
    event_object : PaymentIntent }.

(** What the provider and the database driver do during one request:
    [payment_intent_create amount user_id pack credits] and
    [payment_intent_retrieve id] answer or raise a [StripeError];
    [construct_event payload signature] checks the signature of a
    webhook against the configured secret, and raises a [ValueError] or
    a [SignatureVerificationError] when it does not fit;
    [transactions_insert] says whether the insert raises;
    [no_single_row] is what a query that ends in [single()] does when
    it does not select exactly one row: [None] when it answers without
    data, the message when it raises; [int_of_str] is [int] on a
    string; [model_validate name answer] is the check of the framework
    on the value a route declared with [response_model=name] returns. *)
Record env : Type :=
  { payment_intent_create : Z -> string -> string -> Z -> result PaymentIntent;
    payment_intent_retrieve : string -> result PaymentIntent;
    construct_event : string -> option string -> result Event;
    transactions_insert : result unit;
    no_single_row : option string;
    int_of_str : string -> result Z;
    model_validate : string -> json -> result unit }.

Section Routes.

Variable E : env.

(** A call of [app/db/supabase.py], on the ledger of the store. *)
Definition on_ledger {A : Type} (c : M Layered.world A) : M world A :=
fun w =>
  let '(r, l) := c (ledger w) in
  (r, {| ledger := l; transactions := transactions w |}).

(** [.single().execute().data] over the rows a query selects. *)
Definition single (rows : list Transaction) : M world (option Transaction) :=
match rows with
| [row] => ret (Some row)
| _ =>
    match no_single_row E with
    | None => ret None
    | Some e => raise e
    end
end.

(** [table("transactions").update({"status": "success"})
    .eq("stripe_payment_intent_id", id)] *)
Definition mark_success (id : string) : M world unit :=
fun w =>
  (Ok tt,
   {| ledger := ledger w;
      transactions :=
        map (fun tx =>
               if String.eqb (tx_stripe_payment_intent_id tx) id
               then {| tx_user_id := tx_user_id tx;
                       tx_stripe_payment_intent_id := tx_stripe_payment_intent_id tx;
                       tx_credits_purchased := tx_credits_purchased tx;
                       tx_amount_paise := tx_amount_paise tx;
                       tx_status := "success" |}
               else tx)
            (transactions w) |}).

Definition insert_pending (user_id id : string) (credits amount_paise : Z) : M world unit :=
fun w =>
  match transactions_insert E with
  | Raise e => (Raise e, w)
  | Ok _ =>
      (Ok tt,
       {| ledger := ledger w;
          transactions := transactions w ++
            [{| tx_user_id := user_id;
                tx_stripe_payment_intent_id := id;
                tx_credits_purchased := credits;
                tx_amount_paise := amount_paise;
                tx_status := "pending" |}] |})
  end.

(** [return answer] in a route declared with [response_model=name]; the
    answer that fits the model is kept as the route built it. *)
Definition validated (name : string) (answer : json) : M world response :=
lift (model_validate E name answer) ;;;
ret (Http 200 answer).

(** [GET /credits] *)
Definition get_credits (user_id : string) : M world response :=
credits <- on_ledger (Layered.get_user_credits user_id) ;;
validated "CreditsResponse" (JDict [("credits", JInt credits)]%string).

(** [POST /credits/create-order] *)
Definition create_order (body_pack : CreditPackEnum) (user_id : string)
  : M world response :=
match packs_get CREDIT_PACKS (CreditPackEnum_value body_pack) with
| None => ret (Layered.http_exception 400 "Invalid pack selected")
| Some (credits, amount_paise) =>
    match payment_intent_create E amount_paise user_id
            (CreditPackEnum_value body_pack) credits with
    | Raise e => ret (Layered.http_exception 500 ("Stripe error: " ++ e)%string)
    | Ok intent =>
        insert_pending user_id (intent_id intent) credits amount_paise ;;;
        validated "CreateOrderResponse"
          (JDict [("order_id", JStr (intent_id intent));
                  ("client_secret", JStr (intent_client_secret intent));
                  ("amount", JInt amount_paise);
                  ("currency", JStr "INR");
                  ("credits_to_receive", JInt credits)]%string)
    end
end.

(** [POST /credits/verify-payment] *)
Definition verify_payment (body_id : string) (user_id : string) : M world response :=
match payment_intent_retrieve E body_id with
| Raise e =>
    ret (Layered.http_exception 400 ("Could not retrieve payment: " ++ e)%string)
| Ok intent =>
    if negb (String.eqb (intent_status intent) "succeeded")
    then ret (Layered.http_exception 400
                ("Payment not completed. Status: " ++ intent_status intent)%string)
    else if negb (match metadata_user_id intent with
                  | Some u => String.eqb u user_id
                  | None => false
                  end)
    then ret (Layered.http_exception 403 "Payment does not belong to this user")
    else
      fun w =>
        (tx_data <- single
           (filter (fun tx =>
                      String.eqb (tx_stripe_payment_intent_id tx) body_id
                      && String.eqb (tx_user_id tx) user_id
                      && String.eqb (tx_status tx) "pending")
                   (transactions w)) ;;
         match tx_data with
         | None =>
             ret (Layered.http_exception 400
                    "Transaction not found or already processed")
         | Some tx =>
             let credits_to_add := tx_credits_purchased tx in
             new_balance <- on_ledger (Layered.add_credits user_id credits_to_add) ;;
             mark_success body_id ;;;
             validated "VerifyPaymentResponse"
               (JDict [("success", JBool true);
                       ("credits_added", JInt credits_to_add);
                       ("new_balance", JInt new_balance)]%string)
         end) w
end.

(** [POST /credits/webhook] *)
Definition stripe_webhook (payload : string) (sig_header : option string)
  : M world response :=
match construct_event E payload sig_header with
| Raise _ => ret (Layered.http_exception 400 "Invalid webhook signature")
| Ok event =>
    (if String.eqb (event_type event) "payment_intent.succeeded" then
       let intent := event_object event in
       let user_id := metadata_user_id intent in
       credits <- lift (match metadata_credits intent with
                        | Some s => int_of_str E s
                        | None => Ok 0%Z
                        end) ;;
       match user_id with
       | Some u =>
           if negb (String.eqb u EmptyString) && negb (credits =? 0)%Z then
             fun w =>
               (tx_data <- single
                  (filter (fun tx =>
                             String.eqb (tx_stripe_payment_intent_id tx) (intent_id intent))
                          (transactions w)) ;;
                match tx_data with
                | Some tx =>
                    if String.eqb (tx_status tx) "pending" then
                      on_ledger (Layered.add_credits u credits) ;;;
                      mark_success (intent_id intent)
                    else ret tt
                | None => ret tt
                end) w
           else ret tt
       | None => ret tt
       end
     else ret tt) ;;;
    ret (Http 200 (JDict [("received", JBool true)]%string))
end.

End Routes.

End Payments.

(** * Specification

    The vocabulary of the statements below: what a matching block, a
    list of opcodes, a trace of a request and a run of concurrent
    reservations have to satisfy, and the concrete stores and
    collaborators the scenarios are run against. *)

(** ** Matching blocks and opcodes *)

(** Every pair of elements of [l], taken in order, is related. *)
Fixpoint pairwise {X : Type} (R : X -> X -> Prop) (l : list X) : Prop :=
match l with
| [] => True
| x :: l' => Forall (R x) l' /\ pairwise R l'
end.

(** The region of [a] and [b] a block covers. *)
Definition region (m : Match) : rect :=
let '(i, j, k) := m in (i, i + k, j, j + k).

(** [r1] ends, in [a] and in [b], where [r2] starts or before. *)
Definition before (r1 r2 : rect) : Prop :=
let '(_, ahi1, _, bhi1) := r1 in
let '(alo2, _, blo2, _) := r2 in
ahi1 <= alo2 /\ bhi1 <= blo2.

Definition apart (r1 r2 : rect) : Prop := before r1 r2 \/ before r2 r1.

Definition inside (r0 r : rect) : Prop :=
let '(alo0, ahi0, blo0, bhi0) := r0 in
let '(alo, ahi, blo, bhi) := r in
alo0 <= alo /\ ahi <= ahi0 /\ blo0 <= blo /\ bhi <= bhi0.

Definition rect_ok (r : rect) : Prop :=
let '(alo, ahi, blo, bhi) := r in alo <= ahi /\ blo <= bhi.

(** What is left to do for a queue of regions: bounds the number of
    turns of the loop of [get_matching_blocks]. *)
Fixpoint measure (queue : list rect) : nat :=
match queue with
| [] => 0
| (alo, ahi, _, _) :: queue' => 2 * (ahi - alo) + 1 + measure queue'
end.

Definition starts_le (x y : Match) : Prop := fst (fst x) <= fst (fst y).

(** The blocks of [l] follow one another, in [a] and in [b], from
    [(i, j)] on. *)
Fixpoint chain (i j : nat) (l : list Match) : Prop :=
match l with
| [] => True
| (bi, bj, bk) :: l' => i <= bi /\ j <= bj /\ chain (bi + bk) (bj + bk) l'
end.

(** Where the last block of [l] ends. *)
Fixpoint end_of (i j : nat) (l : list Match) : nat * nat :=
match l with
| [] => (i, j)
| (bi, bj, bk) :: l' => end_of (bi + bk) (bj + bk) l'
end.

(** What is appended to [non_adjacent] after the loop of [collapse]. *)
Definition flush (non_adjacent : list Match) (cur : Match) : list Match :=
let '(_, _, k1) := cur in
if 0 <? k1 then non_adjacent ++ [cur] else non_adjacent.

Definition is_equal (op : opcode) : bool :=
match op with
| (Equal, _, _, _, _) => true
| _ => false
end.

(** No two opcodes that change something follow one another. *)
Fixpoint separated (ops : list opcode) : Prop :=
match ops with
| op1 :: rest =>
    match rest with
    | op2 :: _ => (is_equal op1 = true \/ is_equal op2 = true) /\ separated rest
    | [] => True
    end
| [] => True
end.

(** What [opcodes_loop] appends to [answer]. *)
Fixpoint opcodes_from (blocks : list Match) (i j : nat) : list opcode :=
match blocks with
| [] => []
| (ai, bj, size) :: rest =>
    (if (i <? ai) && (j <? bj) then [(Replace, i, ai, j, bj)]
     else if i <? ai then [(Delete, i, ai, j, bj)]
     else if j <? bj then [(Insert, i, ai, j, bj)]
     else [])
    ++ (if 0 <? size then [(Equal, ai, ai + size, bj, bj + size)] else [])
    ++ opcodes_from rest (ai + size) (bj + size)
end.

(** The runs recorded in [d] are no longer than [i] rows and do not
    start before the first column. *)
Definition bounded (i : nat) (d : j2len_t) : Prop :=
forall j, j2len_get d j <= i /\ j2len_get d j <= j + 1.

Section SequenceMatcherSpec.
Variable A : Type.
Variable eqb : A -> A -> bool.
Variable a b : list A.

(** The positions of [x] in [l], counted from [i]. *)
Fixpoint indices_from (l : list A) (i : nat) (x : A) : list nat :=
match l with
| [] => []
| y :: l' => if eqb y x then i :: indices_from l' (S i) x else indices_from l' (S i) x
end.

(** Every entry of [b2j] lists, without repetition, positions below
    [i] where [b] holds the key. *)
Definition entries_ok (i : nat) (d : b2j_t A) : Prop :=
forall y idxs, In (y, idxs) d ->
  NoDup idxs /\ forall j, In j idxs -> j < i /\ nth_error b j = Some y.

(** [m] lies in the region and its two sides are equal. *)
Definition match_ok (alo ahi blo bhi : nat) (m : Match) : Prop :=
let '(i, j, k) := m in
alo <= i /\ i + k <= ahi /\ blo <= j /\ j + k <= bhi /\
forall t, t < k -> same_at eqb a b (i + t) (j + t) = true.

(** The entries of [j2len] when row [i] starts: runs that end in row
    [i - 1]. *)
Definition prev_ok (alo blo bhi i : nat) (d : j2len_t) : Prop :=
forall j k, In (j, k) d ->
  1 <= k /\ k + alo <= i /\ k + blo <= j + 1 /\ j < bhi /\
  forall t, t < k -> same_at eqb a b (i - 1 - t) (j - t) = true.

(** A block that was found: not empty, and equal on both sides. *)
Definition block_ok (m : Match) : Prop :=
let '(i, j, k) := m in
1 <= k /\ forall t, t < k -> same_at eqb a b (i + t) (j + t) = true.

(** The two sides of [m] are equal; [m] may be empty. *)
Definition valid (m : Match) : Prop :=
let '(i, j, k) := m in forall t, t < k -> same_at eqb a b (i + t) (j + t) = true.

(** An opcode is not empty on the sides its tag names, and an [Equal]
    one stands for the same elements of [a] and of [b]. *)
Definition opcode_ok (op : opcode) : Prop :=
let '(tag, i1, i2, j1, j2) := op in
match tag with
| Replace => i1 < i2 /\ j1 < j2
| Delete => i1 < i2 /\ j1 = j2
| Insert => i1 = i2 /\ j1 < j2
| Equal => i1 < i2 /\ j1 < j2 /\ Py.slice a i1 i2 = Py.slice b j1 j2
end.

(** The opcodes of [ops] lead from [(i, j)] to [(i', j')] without a
    gap: each starts where the one before it ends. *)
Fixpoint tiles (i j : nat) (ops : list opcode) (i' j' : nat) : Prop :=
match ops with
| [] => i = i' /\ j = j'
| (tag, i1, i2, j1, j2) :: rest =>
    i1 = i /\ j1 = j /\ i2 <= List.length a /\ j2 <= List.length b /\
    opcode_ok (tag, i1, i2, j1, j2) /\ tiles i2 j2 rest i' j'
end.

End SequenceMatcherSpec.

(** ** Segments *)

Definition orig_side (s : Layered.DiffSegment) : bool :=
match Layered.type s with
| Layered.unchanged | Layered.removed => true
| Layered.added => false
end.

Definition new_side (s : Layered.DiffSegment) : bool :=
match Layered.type s with
| Layered.unchanged | Layered.added => true
| Layered.removed => false
end.

(** The segments one opcode contributes. *)
Definition segments_of (original_words enhanced_words : list string) (op : opcode)
  : list Layered.DiffSegment :=
let '(tag, i1, i2, j1, j2) := op in
match tag with
| Equal =>
    [Layered.segment Layered.unchanged (Py.join " " (Py.slice original_words i1 i2))]
| Replace =>
    [Layered.segment Layered.removed (Py.join " " (Py.slice original_words i1 i2));
     Layered.segment Layered.added (Py.join " " (Py.slice enhanced_words j1 j2))]
| Delete =>
    [Layered.segment Layered.removed (Py.join " " (Py.slice original_words i1 i2))]
| Insert =>
    [Layered.segment Layered.added (Py.join " " (Py.slice enhanced_words j1 j2))]
end.

(** The words of [a] an opcode stands for, and the words of [b]. *)
Definition a_group (a : list string) (op : opcode) : list (list string) :=
let '(tag, i1, i2, j1, j2) := op in
match tag with
| Insert => []
| _ => [Py.slice a i1 i2]
end.

Definition b_group (b : list string) (op : opcode) : list (list string) :=
let '(tag, i1, i2, j1, j2) := op in
match tag with
| Delete => []
| _ => [Py.slice b j1 j2]
end.

(** Layered to legacy: the tags and the name of the text field. *)
Definition rename (s : Layered.DiffSegment) : Legacy.DiffSegment :=
Legacy.segment
  (match Layered.type s with
   | Layered.unchanged => Legacy.equal
   | Layered.added => Legacy.insert
   | Layered.removed => Legacy.delete
   end)
  (Layered.content s).

(** ** Graphs *)

(** Both ends of the edge are ids of nodes. *)
Definition endpoints_known (node_ids : list string) (e : json) : bool :=
match getitem e "source", getitem e "target" with
| Ok (JStr s), Ok (JStr t) =>
    existsb (String.eqb s) node_ids && existsb (String.eqb t) node_ids
| _, _ => false
end.

(** Every edge of the graph joins two of its nodes. *)
Definition edge_integrity (graph : json) : bool :=
match getitem graph "nodes", getitem graph "edges" with
| Ok (JList nodes), Ok (JList edges) =>
    forallb (endpoints_known (Layered.node_ids_of nodes)) edges
| _, _ => false
end.

(** ** Requests and the ledger *)

Section LedgerSpec.
Local Open Scope Z_scope.

(** The events of a request start with the debit, or there is no
    call to the collaborator among them. *)
Definition reserve_first (user_id : string) (cost : Z) (events : list event) : Prop :=
forall before messages after,
  events = before ++ Generate messages :: after ->
  In (BalanceInc user_id (- cost)) before.

(** The work of a request after the debit came back with a result. *)
Definition downstream_succeeds (E : Layered.env) (user_id : string)
    (r : Layered.route) (w : Layered.world) : Prop :=
match r with
| Layered.Enhance _ =>
    snd (Layered.completion_stream E (Layered.completions w)) = None
| Layered.Consistency _ | Layered.Evolution _ =>
    exists content result,
      Layered.completion E (Layered.completions w) = Ok content /\
      Layered.json_loads E content = Ok result
| Layered.Mindmap body_text =>
    exists graph_data w2,
      Layered.build_graph E body_text
        (snd (Layered.deduct_credits user_id Layered.mindmap_COST w))
      = (Ok graph_data, w2)
end.

(** The routes that write the audit record after their [try] block. *)
Definition logs_after_try (r : Layered.route) : bool :=
match r with
| Layered.Enhance _ => false
| _ => true
end.

(** What holds of the store and the calls while layered reservations
    of [amount] run against a balance that started at [start]. *)
Definition reserved_so_far (user : string) (start amount : Z)
    (s : Layered.world * list Interleaving.call) : Prop :=
exists balance,
  Layered.profiles (fst s) user = Some balance /\
  balance = start - amount * Z.of_nat (Interleaving.successes (snd s)) /\
  0 <= balance /\
  ((1 <= Interleaving.failures (snd s))%nat -> balance < amount) /\
  Forall (fun c => forall u, c <> Interleaving.Fetched u) (snd s).

End LedgerSpec.

(** ** Stores and collaborators of the scenarios *)

(** A stand-in for the check of the framework in the scenarios: the
    fields that the model of [app/models/schemas.py] declares without a
    default are there, with values of the declared kind. *)
Definition is_str (v : json) : bool :=
match v with JStr _ => true | _ => false end.

Definition is_int (v : json) : bool :=
match v with JInt _ => true | _ => false end.

Definition is_bool (v : json) : bool :=
match v with JBool _ => true | _ => false end.

Definition one_of (values : list string) (v : json) : bool :=
match v with JStr s => existsb (String.eqb s) values | _ => false end.

Definition in_range (lo hi : Z) (v : json) : bool :=
match v with JInt z => ((lo <=? z) && (z <=? hi))%Z | _ => false end.

Definition list_of (p : json -> bool) (v : json) : bool :=
match v with JList l => forallb p l | _ => false end.

Definition object_of (fields : list (string * (json -> bool))) (v : json) : bool :=
match v with
| JDict d =>
    forallb (fun f => match dict_lookup d (fst f) with
                      | Some x => snd f x
                      | None => false
                      end) fields
| _ => false
end.

Section Schemas.
Local Open Scope string_scope.

Definition fits_model (name : string) : json -> bool :=
if String.eqb name "ConsistencyResponse" then
  object_of [("issues",
              list_of (object_of [("type", is_str); ("description", is_str);
                                  ("severity", one_of ["low"; "medium"; "high"])]));
             ("score", in_range 0 100); ("summary", is_str);
             ("credits_remaining", is_int)]
else if String.eqb name "EvolutionResponse" then
  object_of [("character", is_str);
             ("arc", list_of (object_of [("stage", is_int); ("trait", is_str);
                                         ("evidence", is_str)]));
             ("evolution_type", is_str); ("credits_remaining", is_int)]
else if String.eqb name "MindmapResponse" then
  object_of [("nodes",
              list_of (object_of [("id", is_str); ("label", is_str);
                                  ("type", one_of ["character"; "location"; "theme";
                                                   "event"; "object"])]));
             ("edges", list_of (object_of [("source", is_str); ("target", is_str);
                                           ("label", is_str)]));
             ("summary", is_str); ("themes", list_of is_str);
             ("credits_remaining", is_int)]
else if String.eqb name "CreditsResponse" then
  object_of [("credits", is_int)]
else if String.eqb name "CreateOrderResponse" then
  object_of [("order_id", is_str); ("client_secret", is_str); ("amount", is_int);
             ("credits_to_receive", is_int)]
else if String.eqb name "VerifyPaymentResponse" then
  object_of [("success", is_bool); ("credits_added", is_int); ("new_balance", is_int)]
else fun _ => false.

End Schemas.

Definition sample_validate (name : string) (answer : json) : result unit :=
if fits_model name answer then Ok tt else Raise "ResponseValidationError"%string.

(** A collaborator that streams a rewrite in two tokens and answers
    every other call with an empty object; [log] is what the insert
    into [analyses] does. *)
Definition sample_env (log : result unit) : Layered.env :=
{| Layered.completion := fun _ => Ok "{}"%string;
   Layered.completion_stream := fun _ => (["The feline"; " sat"]%string, None);
   Layered.json_loads := fun _ => Ok (JDict []);
   Layered.json_dumps := fun _ => EmptyString;
   Layered.analyses_insert := log;
   Layered.spacy_ents := fun _ => [];
   Layered.extract_themes_heuristic := fun _ => [];
   Layered.ENHANCE_USER_TEMPLATE := fun text => text;
   Layered.relationship_user_prompt := fun _ _ text => text;
   Layered.RELATIONSHIP_SYSTEM_PROMPT := EmptyString;
   Layered.FULL_GRAPH_SYSTEM_PROMPT := EmptyString;
   Layered.CONSISTENCY_SYSTEM_PROMPT := EmptyString;
   Layered.EVOLUTION_SYSTEM_PROMPT := EmptyString;
   Layered.model_validate := sample_validate |}.

(** One user, [u1], with [credits] credits. *)
Definition layered_store (credits : Z) : Layered.world :=
{| Layered.profiles := fun u => if String.eqb u "u1" then Some credits else None;
   Layered.analyses := [];
   Layered.completions := 0;
   Layered.trace := [] |}.

Definition legacy_store (credits : Z) : Legacy.world :=
{| Legacy.users := fun u => if String.eqb u "u1" then Some credits else None;
   Legacy.documents := [];
   Legacy.enhancements := [];
   Legacy.completions := 0;
   Legacy.trace := [] |}.

Definition sample_body : Layered.EnhanceRequest :=
{| Layered.enhance_body_text := "The cat sat";
   Layered.enhance_body_persona := Layered.simplified |}.

(** A graph whose only edge joins two nodes it does not list. *)
Definition dangling_graph : json :=
JDict [("nodes", JList []);
       ("edges", JList [JDict [("source", JStr "alice"); ("target", JStr "bob");
                               ("label", JStr "Friend")]]);
       ("summary", JStr "Alice meets Bob.");
       ("themes", JList [JStr "Friendship"])]%string.

(** The extractor finds no entity and the collaborator answers with
    [dangling_graph]. *)
Definition graph_env : Layered.env :=
{| Layered.completion := fun _ => Ok "{...}"%string;
   Layered.completion_stream := fun _ => ([], None);
   Layered.json_loads := fun _ => Ok dangling_graph;
   Layered.json_dumps := fun _ => EmptyString;
   Layered.analyses_insert := Ok tt;
   Layered.spacy_ents := fun _ => [];
   Layered.extract_themes_heuristic := fun _ => [];
   Layered.ENHANCE_USER_TEMPLATE := fun text => text;
   Layered.relationship_user_prompt := fun _ _ text => text;
   Layered.RELATIONSHIP_SYSTEM_PROMPT := EmptyString;
   Layered.FULL_GRAPH_SYSTEM_PROMPT := EmptyString;
   Layered.CONSISTENCY_SYSTEM_PROMPT := EmptyString;
   Layered.EVOLUTION_SYSTEM_PROMPT := EmptyString;
   Layered.model_validate := sample_validate |}.

Definition legacy_env : Legacy.env :=
{| Legacy.chat_completion := fun _ => Ok "{...}"%string;
   Legacy._parse_json := fun _ => Ok (JDict [("enhanced_text", JStr "The feline sat")]%string);
   Legacy.documents_insert := Ok "doc1"%string;
   Legacy.enhancements_insert := Ok tt;
   Legacy.similarity_score := fun _ _ => JNull;
   Legacy.react_flow_graph := fun _ _ => Ok (JDict []);
   Legacy.generate_mindmap_image := fun _ _ _ => Ok "png"%string;
   Legacy.send_file := fun _ => Ok (Http 200 JNull);
   Legacy.enhance_prompt := fun system text => (system ++ text)%string;
   Legacy.consistency_prompt := fun text => text;
   Legacy.structure_prompt := fun text => text;
   Legacy.character_prompt := fun text _ => text;
   Legacy.entity_prompt := fun text => text;
   Legacy.relationship_prompt := fun _ text => text;
   Legacy.story_prompt := fun _ _ _ text => text |}.

(** Legacy collaborators that build a graph and draw it; sending the
    drawing fails. *)
Definition image_env : Legacy.env :=
{| Legacy.chat_completion := fun _ => Ok "{...}"%string;
   Legacy._parse_json := fun _ => Ok (JDict []);
   Legacy.documents_insert := Ok "doc1"%string;
   Legacy.enhancements_insert := Ok tt;
   Legacy.similarity_score := fun _ _ => JNull;
   Legacy.react_flow_graph := fun _ _ =>
     Ok (JDict [("nodes", JList []); ("edges", JList [])]%string);
   Legacy.generate_mindmap_image := fun _ _ _ => Ok "png"%string;
   Legacy.send_file := fun _ => Raise "broken pipe"%string;
   Legacy.enhance_prompt := fun system text => (system ++ text)%string;
   Legacy.consistency_prompt := fun text => text;
   Legacy.structure_prompt := fun text => text;
   Legacy.character_prompt := fun text _ => text;
   Legacy.entity_prompt := fun text => text;
   Legacy.relationship_prompt := fun _ text => text;
   Legacy.story_prompt := fun _ _ _ text => text |}.

(** A request for a drawing, with a text of more than 100 characters. *)
Definition image_request : Legacy.request :=
{| Legacy.data_text := Some (Py.join " " (repeat "The cat sat on the mat."%string 5));
   Legacy.data_persona := None;
   Legacy.data_doc_id := Some "doc1"%string;
   Legacy.data_title := None;
   Legacy.data_character_name := None;
   Legacy.data_genre := None;
   Legacy.data_style := None;
   Legacy.data_length := None |}.

(** The body [data] with the key [persona] set to [key]. *)
Definition with_persona (data : Legacy.request) (key : string) : Legacy.request :=
{| Legacy.data_text := Legacy.data_text data;
   Legacy.data_persona := Some key;
   Legacy.data_doc_id := Legacy.data_doc_id data;
   Legacy.data_title := Legacy.data_title data;
   Legacy.data_character_name := Legacy.data_character_name data;
   Legacy.data_genre := Legacy.data_genre data;
   Legacy.data_style := Legacy.data_style data;
   Legacy.data_length := Legacy.data_length data |}.

(** The body of a request to the legacy persona route. *)
Definition persona_request (persona : option string) : Legacy.request :=
{| Legacy.data_text := Some "The cat sat"%string;
   Legacy.data_persona := persona;
   Legacy.data_doc_id := None;
   Legacy.data_title := None;
   Legacy.data_character_name := None;
   Legacy.data_genre := None;
   Legacy.data_style := None;
   Legacy.data_length := None |}.

(** ** More about the segments of a diff *)

(** The segments of the legacy engine that come from the original. *)
Definition legacy_orig_side (s : Legacy.DiffSegment) : bool :=
match Legacy.type s with
| Legacy.equal | Legacy.delete => true
| Legacy.insert => false
end.

(** The segments of the legacy engine that come from the enhanced text. *)
Definition legacy_new_side (s : Legacy.DiffSegment) : bool :=
match Legacy.type s with
| Legacy.equal | Legacy.insert => true
| Legacy.delete => false
end.

(** [m2] does not start where [m1] ends. *)
Definition not_adjacent (m1 m2 : Match) : Prop :=
let '(i1, j1, k1) := m1 in
let '(i2, j2, _) := m2 in
i1 + k1 <> i2 \/ j1 + k1 <> j2.

(** No block of [l] starts where the one before it ends. *)
Fixpoint gapped (l : list Match) : Prop :=
match l with
| m1 :: rest =>
    match rest with
    | m2 :: _ => not_adjacent m1 m2 /\ gapped rest
    | [] => True
    end
| [] => True
end.

(** Of two opcodes that follow one another, one is [Equal] and the
    other is not. *)
Fixpoint alternating (ops : list opcode) : Prop :=
match ops with
| op1 :: rest =>
    match rest with
    | op2 :: _ => is_equal op1 <> is_equal op2 /\ alternating rest
    | [] => True
    end
| [] => True
end.

(** No two segments that follow one another have the same type. *)
Fixpoint adjacent_differ (segments : list Layered.DiffSegment) : Prop :=
match segments with
| s1 :: rest =>
    match rest with
    | s2 :: _ => Layered.type s1 <> Layered.type s2 /\ adjacent_differ rest
    | [] => True
    end
| [] => True
end.

(** ** File names, themes and fenced answers *)

(** A dot occurs in [s]. *)
Definition has_dot (s : string) : bool :=
existsb (fun c => Ascii.eqb c ".") (list_ascii_of_string s).

(** The score of the theme [name] in [text]. *)
Definition theme_score (text : string) (name : string) : nat :=
match find (fun tk => String.eqb (fst tk) name) Nlp.theme_keywords with
| Some tk => Nlp.score (Py.lower text) (snd tk)
| None => 0
end.

(** A backtick occurs in [s]. *)
Definition is_backtick (c : ascii) : bool := Ascii.eqb c "`".

Definition has_backtick (s : string) : bool :=
existsb is_backtick (list_ascii_of_string s).

(** ** The legacy graph *)

(** [n["data"]["label"]] *)
Definition node_label (n : json) : option json :=
match getitem n "data" with
| Ok data => match getitem data "label" with Ok l => Some l | Raise _ => None end
| Raise _ => None
end.

(** The id of the [k]-th node. *)
Definition numbered (k : nat) : string := ("node_" ++ LegacyGraph.str_of_nat k)%string.

(** What [nodes] and [node_id_map] satisfy between two calls of
    [add_node]. *)
Definition nodes_ok (nodes : list json) (node_id_map : LegacyGraph.node_id_map_t) : Prop :=
Layered.node_ids_of nodes = map snd node_id_map /\
map snd node_id_map = map numbered (seq 0 (List.length nodes)) /\
map node_label nodes = map (fun kv => Some (fst kv)) node_id_map /\
pairwise (fun x y => LegacyGraph.key_eqb x y = false) (map fst node_id_map).

(** Alice is listed twice and Bob is also a theme; one relationship
    names Carol, who is no entity. *)
Definition sample_entities : json :=
JDict [("characters",
        JList [JDict [("name", JStr "Alice"); ("role", JStr "hero")];
               JDict [("name", JStr "Bob")];
               JDict [("name", JStr "Alice"); ("mentions", JInt 2)]]);
       ("locations", JList [JDict [("name", JStr "Paris")]]);
       ("themes", JList [JStr "Love"; JStr "Bob"])]%string.

Definition sample_relationships : json :=
JDict [("relationships",
        JList [JDict [("from", JStr "Alice"); ("to", JStr "Bob"); ("type", JStr "Friend")];
               JDict [("from", JStr "Alice"); ("to", JStr "Carol"); ("type", JStr "Enemy")];
               JDict [("from", JStr "Bob"); ("to", JStr "Paris"); ("type", JStr "Visits")]])
      ]%string.

(** ** Answers and the ledger *)

Section LedgerAnswers.
Local Open Scope Z_scope.

(** What an answer with the status [status] to a layered request of
    cost [cost] means for the store: 200 goes with one debit and one
    audit record, any other status with no change of either. *)
Definition layered_ledger_matches (user : string) (cost c : Z) (w w' : Layered.world)
    (status : nat) : Prop :=
if (status =? 200)%nat then
  Layered.profiles w' user = Some (c - cost) /\
  exists record,
    Layered.analyses w' = Layered.analyses w ++ [record] /\
    Layered.analysis_user_id record = user /\
    Layered.analysis_credits_used record = cost
else
  Layered.profiles w' user = Some c /\ Layered.analyses w' = Layered.analyses w.

(** What the outcome [res] of a layered request means for the store.
    An answer is read as above, and a stream that reaches its last
    event as the answer 200.  When the stream breaks, or an exception
    leaves the route (the caller then gets a 500 from the server), the
    cost stays debited; a stream that breaks has no audit record, an
    exception comes with one record or none. *)
Definition layered_outcome_matches (user : string) (cost c : Z) (w w' : Layered.world)
    (res : result response) : Prop :=
match res with
| Ok (Http status _) => layered_ledger_matches user cost c w w' status
| Ok (EventStream _) => layered_ledger_matches user cost c w w' 200
| Ok (BrokenStream _ _) =>
    Layered.profiles w' user = Some (c - cost) /\
    Layered.analyses w' = Layered.analyses w
| Raise _ =>
    Layered.profiles w' user = Some (c - cost) /\
    (Layered.analyses w' = Layered.analyses w \/
     exists record,
       Layered.analyses w' = Layered.analyses w ++ [record] /\
       Layered.analysis_user_id record = user /\
       Layered.analysis_credits_used record = cost)
end.

(** The events of the enhancement stream: one for a token, and the
    last one. *)
Definition token_event (token : string) : json :=
JDict [("token", JStr token); ("done", JBool false)]%string.

Definition final_event (diff : json) (credits_remaining : Z) : json :=
JDict [("done", JBool true); ("diff", diff);
       ("credits_remaining", JInt credits_remaining)]%string.




(** Requests of one user served one after the other, each with the
    collaborators as they are at that time. *)
Definition legacy_serve (user : string) (requests : list (Legacy.env * Legacy.route))
    (w : Legacy.world) : Legacy.world :=
fold_left (fun w er => snd (Legacy.handle (fst er) user (snd er) w)) requests w.

(** The same for the layered routes. *)
Definition layered_serve (user : string) (requests : list (Layered.env * Layered.route))
    (w : Layered.world) : Layered.world :=
fold_left (fun w er => snd (Layered.handle (fst er) user (snd er) w)) requests w.

(** Three legacy requests of one credit each. *)
Definition sample_requests : list (Legacy.env * Legacy.route) :=
[(legacy_env, Legacy.PersonaEnhance (persona_request None));
 (legacy_env, Legacy.ConsistencyCheck (persona_request None));
 (legacy_env, Legacy.PersonaEnhance (persona_request (Some "poet"%string)))].

(** Three layered requests; the stream of the second one breaks. *)
Definition sample_layered_requests : list (Layered.env * Layered.route) :=
[(sample_env (Ok tt), Layered.Consistency "The cat sat");
 (sample_env (Raise "connection reset"%string), Layered.Enhance sample_body);
 (sample_env (Ok tt), Layered.Mindmap "The cat sat")].

End LedgerAnswers.

(** ** Entities *)

Section EntitySpec.
Local Open Scope Z_scope.

(** The label of the mention is one the extractor maps to a node type. *)
Definition is_mapped (ent : string * string) : bool :=
match Layered.prompts_lookup Layered.ENTITY_TYPE_MAP (snd ent) with
| Some _ => true
| None => false
end.

(** The mentions the entities stand for. *)
Definition total_count (entities : list Layered.Entity) : Z :=
fold_right (fun e n => Layered.entity_count e + n) 0 entities.

(** What [seen] satisfies after every iteration of the loop of
    [extract_entities]. *)
Definition seen_ok (seen : list (string * Layered.Entity)) : Prop :=
NoDup (map fst seen) /\
Forall (fun ke => fst ke = Py.lower (Layered.entity_label (snd ke)) /\
                  Layered.entity_id (snd ke) = Py.replace_char " " "_" (fst ke) /\
                  1 <= Layered.entity_count (snd ke)) seen.

(** At most six themes are returned. *)
Definition themes_capped (themes : json) : Prop :=
match themes with
| JList l => (List.length l <= 6)%nat
| JStr s => (String.length s <= 6)%nat
| _ => False
end.

(** Two mentions of Alice, one of Bob; the collaborator proposes an
    edge between them, an edge to a node that does not exist, and seven
    themes. *)
Definition entity_env : Layered.env :=
{| Layered.completion := fun _ => Ok "{...}"%string;
   Layered.completion_stream := fun _ => ([], None);
   Layered.json_loads := fun _ =>
     Ok (JDict [("edges",
                 JList [JDict [("source", JStr "alice"); ("target", JStr "bob");
                               ("label", JStr "Friend")];
                        JDict [("source", JStr "alice"); ("target", JStr "carol");
                               ("label", JStr "Rival")]]);
                ("themes", JList (map JStr ["a"; "b"; "c"; "d"; "e"; "f"; "g"]))]%string);
   Layered.json_dumps := fun _ => EmptyString;
   Layered.analyses_insert := Ok tt;
   Layered.spacy_ents := fun _ =>
     [("Alice", "PERSON"); ("Bob", "PERSON"); ("alice ", "PERSON"); ("42", "CARDINAL")]%string;
   Layered.extract_themes_heuristic := fun _ => [];
   Layered.ENHANCE_USER_TEMPLATE := fun text => text;
   Layered.relationship_user_prompt := fun _ _ text => text;
   Layered.RELATIONSHIP_SYSTEM_PROMPT := EmptyString;
   Layered.FULL_GRAPH_SYSTEM_PROMPT := EmptyString;
   Layered.CONSISTENCY_SYSTEM_PROMPT := EmptyString;
   Layered.EVOLUTION_SYSTEM_PROMPT := EmptyString;
   Layered.model_validate := sample_validate |}.

End EntitySpec.

(** ** Payments *)

Section PaymentsSpec.
Import Payments.
Local Open Scope Z_scope.

(** The credits of a pack. *)
Definition pack_credits (pack : CreditPackEnum) : Z :=
match packs_get CREDIT_PACKS (CreditPackEnum_value pack) with
| Some (credits, _) => credits
| None => 0
end.

(** The price of a pack, in paise. *)
Definition pack_amount (pack : CreditPackEnum) : Z :=
match packs_get CREDIT_PACKS (CreditPackEnum_value pack) with
| Some (_, amount_paise) => amount_paise
| None => 0
end.

(** The answer to the order of [pack] that the provider registered as
    [intent]. *)
Definition order_answer (intent : PaymentIntent) (pack : CreditPackEnum) : json :=
JDict [("order_id", JStr (intent_id intent));
       ("client_secret", JStr (intent_client_secret intent));
       ("amount", JInt (pack_amount pack));
       ("currency", JStr "INR");
       ("credits_to_receive", JInt (pack_credits pack))]%string.

(** A provider that creates the intent [pi_1] and reports it with the
    status [status]; a query without a single row raises. *)
Definition stripe_env (status : string) : env :=
{| payment_intent_create := fun _ user _ _ =>
     Ok {| intent_id := "pi_1"; intent_client_secret := "pi_1_secret";
           intent_status := "requires_payment_method";
           metadata_user_id := Some user; metadata_credits := Some "20"%string |};
   payment_intent_retrieve := fun id =>
     Ok {| intent_id := id; intent_client_secret := "pi_1_secret";
           intent_status := status;
           metadata_user_id := Some "u1"%string; metadata_credits := Some "20"%string |};
   construct_event := fun _ _ =>
     Ok {| event_type := "payment_intent.succeeded";
           event_object :=
             {| intent_id := "pi_1"; intent_client_secret := "pi_1_secret";
                intent_status := status;
                metadata_user_id := Some "u1"%string;
                metadata_credits := Some "20"%string |} |};
   transactions_insert := Ok tt;
   no_single_row := Some "PGRST116"%string;
   int_of_str := fun _ => Ok 20;
   model_validate := sample_validate |}.

(** The user [u1] has [credits] credits and has ordered nothing. *)
Definition payments_store (credits : Z) : world :=
{| ledger := layered_store credits; transactions := [] |}.

(** The store after [u1] ordered the starter pack. *)
Definition ordered_store : world :=
snd (create_order (stripe_env "succeeded") starter "u1" (payments_store 5)).

End PaymentsSpec.

(** * Proofs *)

(** ** Longest matches *)

Section Matching.
Variable A : Type.
Variable eqb : A -> A -> bool.
Hypothesis eqb_eq : forall x y, eqb x y = true <-> x = y.
Local Abbreviation indices_from := (indices_from eqb).

Lemma eqb_refl x : eqb x x = true.
Proof. now apply eqb_eq. Qed.

Lemma b2j_get_setdefault_append d elt i x :
  b2j_get eqb (setdefault_append eqb d elt i) x =
  if eqb elt x then b2j_get eqb d x ++ [i] else b2j_get eqb d x.
Proof.
  induction d as [|[y idxs] d IH]; simpl.
  - destruct (eqb elt x); reflexivity.
  - destruct (eqb y elt) eqn:Eye; simpl.
    + apply eqb_eq in Eye; subst y.
      destruct (eqb elt x); reflexivity.
    + destruct (eqb y x) eqn:Eyx.
      * apply eqb_eq in Eyx; subst y.
        destruct (eqb elt x) eqn:Eex; [|reflexivity].
        apply eqb_eq in Eex; subst elt. rewrite eqb_refl in Eye. discriminate.
      * apply IH.
Qed.

Lemma b2j_get_index_b b : forall i d x,
  b2j_get eqb (index_b eqb b i d) x = b2j_get eqb d x ++ indices_from b i x.
Proof.
  induction b as [|y b IH]; intros i d x; simpl.
  - now rewrite app_nil_r.
  - rewrite IH, b2j_get_setdefault_append.
    destruct (eqb y x); [rewrite <- app_assoc|]; reflexivity.
Qed.

Lemma indices_from_spec b : forall i x j,
  In j (indices_from b i x) <-> i <= j /\ nth_error b (j - i) = Some x.
Proof.
  induction b as [|y b IH]; intros i x j; simpl.
  - split; [tauto|]. intros [_ H]. destruct (j - i); discriminate.
  - destruct (eqb y x) eqn:E.
    + apply eqb_eq in E; subst y. simpl. rewrite IH. split.
      * intros [->|[H1 H2]].
        -- rewrite Nat.sub_diag. simpl. auto.
        -- split; [lia|]. replace (j - i) with (S (j - S i)) by lia. exact H2.
      * intros [H1 H2]. destruct (Nat.eq_dec i j) as [->|Hne]; [now left|right].
        split; [lia|]. replace (j - i) with (S (j - S i)) in H2 by lia. exact H2.
    + rewrite IH. split.
      * intros [H1 H2]. split; [lia|]. replace (j - i) with (S (j - S i)) by lia. exact H2.
      * intros [H1 H2]. destruct (Nat.eq_dec i j) as [->|Hne].
        -- rewrite Nat.sub_diag in H2. simpl in H2. injection H2 as ->.
           rewrite eqb_refl in E. discriminate.
        -- split; [lia|]. replace (j - i) with (S (j - S i)) in H2 by lia. exact H2.
Qed.

Variable a b : list A.
Variable b2j : b2j_t A.
Hypothesis b2j_sound : forall x j, In j (b2j_get eqb b2j x) -> nth_error b j = Some x.

Local Abbreviation same := (same_at eqb a b) (only parsing).
Local Abbreviation match_ok := (match_ok eqb a b).
Local Abbreviation prev_ok := (prev_ok eqb a b).
Local Abbreviation block_ok := (block_ok eqb a b).
Local Abbreviation valid := (valid eqb a b).
Local Abbreviation opcode_ok := (opcode_ok a b).
Local Abbreviation tiles := (tiles a b).

Lemma j2len_get_In d j : j2len_get d j = 0 \/ In (j, j2len_get d j) d.
Proof.
  induction d as [|[j' k] d IH]; simpl; [now left|].
  destruct (Nat.eqb_spec j' j) as [->|Hne]; [right; now left|].
  destruct IH; [now left | right; now right].
Qed.

Lemma b2j_at_same i j : In j (b2j_at eqb a b2j i) -> same i j = true.
Proof.
  unfold b2j_at, same_at. destruct (nth_error a i) as [x|]; [|intros []].
  intros H. rewrite (b2j_sound _ _ H). apply eqb_refl.
Qed.

Lemma match_ok_weaken alo ahi ahi' blo bhi m :
  ahi <= ahi' -> match_ok alo ahi blo bhi m -> match_ok alo ahi' blo bhi m.
Proof.
  destruct m as [[i j] k]. unfold match_ok. intros H (H1 & H2 & H3 & H4 & H5).
  repeat split; auto; lia.
Qed.

Lemma scan_row_ok alo blo bhi i j2len : 
  alo <= i -> prev_ok alo blo bhi i j2len ->
  forall js newj2len best,
  (forall j, In j js -> same i j = true) ->
  prev_ok alo blo bhi (S i) newj2len ->
  match_ok alo (S i) blo bhi best ->
  prev_ok alo blo bhi (S i) (fst (scan_row j2len i blo bhi js newj2len best)) /\
  match_ok alo (S i) blo bhi (snd (scan_row j2len i blo bhi js newj2len best)).
Proof.
  intros Hi Hprev. induction js as [|j js IH]; intros nj best Hjs Hnj Hbest; simpl.
  - auto.
  - destruct (Nat.ltb_spec j blo) as [Hlt|Hge].
    + apply IH; auto. intros; apply Hjs; now right.
    + destruct (Nat.leb_spec bhi j) as [Hle|Hlt]; [simpl; auto|].
      assert (Hsame : same i j = true) by (apply Hjs; now left).
      set (k := j2len_get_pred j2len j + 1).
      assert (Hk : 1 <= k /\ k + alo <= S i /\ k + blo <= j + 1 /\
                   forall t, t < k -> same (i - t) (j - t) = true).
      { unfold k, j2len_get_pred. destruct j as [|j'].
        - simpl. repeat split; try lia. intros t Ht.
          replace t with 0 by lia. now rewrite Nat.sub_0_r.
        - destruct (j2len_get_In j2len j') as [E|Hin].
          + rewrite E. simpl. repeat split; try lia. intros t Ht.
            replace t with 0 by lia. now rewrite !Nat.sub_0_r.
          + destruct (Hprev _ _ Hin) as (K1 & K2 & K3 & K4 & K5).
            repeat split; try lia. intros t Ht. destruct t as [|t'].
            * now rewrite !Nat.sub_0_r.
            * specialize (K5 t' ltac:(lia)).
              replace (i - S t') with (i - 1 - t') by lia.
              replace (S j' - S t') with (j' - t') by lia. exact K5. }
      destruct Hk as (K1 & K2 & K3 & K5).
      destruct best as [[bi bj] bk].
      apply IH.
      * intros; apply Hjs; now right.
      * intros j0 k0 [E|Hin]; [|now apply Hnj].
        injection E as <- <-. repeat split; try lia.
        intros t Ht. replace (S i - 1 - t) with (i - t) by lia. now apply K5.
      * destruct (Nat.ltb_spec bk k); [|exact Hbest].
        unfold match_ok. repeat split; try lia.
        intros t Ht. specialize (K5 (k - 1 - t) ltac:(lia)).
        replace (i + 1 - k + t) with (i - (k - 1 - t)) by lia.
        replace (j + 1 - k + t) with (j - (k - 1 - t)) by lia. exact K5.
Qed.

Lemma scan_rows_ok alo blo bhi : forall n i j2len best,
  alo <= i -> prev_ok alo blo bhi i j2len -> match_ok alo i blo bhi best ->
  match_ok alo (i + n) blo bhi (scan_rows eqb a b2j blo bhi (seq i n) j2len best).
Proof.
  induction n as [|n IH]; intros i j2len best Hi Hprev Hbest; simpl.
  - now rewrite Nat.add_0_r.
  - destruct (scan_row j2len i blo bhi (b2j_at eqb a b2j i) [] best) as [nj best'] eqn:E.
    destruct (@scan_row_ok alo blo bhi i j2len Hi Hprev (b2j_at eqb a b2j i) [] best) as [H1 H2].
    + intros j Hj. now apply b2j_at_same.
    + intros j k [].
    + eapply match_ok_weaken; [|exact Hbest]. lia.
    + rewrite E in H1, H2. simpl in H1, H2.
      replace (i + S n) with (S i + n) by lia. apply IH; auto.
Qed.

Lemma extend_back_ok alo ahi blo bhi : forall besti bestj bestsize,
  match_ok alo ahi blo bhi (besti, bestj, bestsize) ->
  match_ok alo ahi blo bhi (extend_back eqb a b alo blo besti bestj bestsize).
Proof.
  induction besti as [|i' IH]; intros bestj bestsize H; simpl; [exact H|].
  destruct (Nat.ltb_spec alo (S i')) as [H1|H1]; simpl; [|exact H].
  destruct (Nat.ltb_spec blo bestj) as [H2|H2]; simpl; [|exact H].
  destruct (same i' (bestj - 1)) eqn:E; [|exact H].
  apply IH. destruct H as (K1 & K2 & K3 & K4 & K5).
  unfold match_ok. repeat split; try lia.
  intros t Ht. destruct t as [|t'].
  - now rewrite !Nat.add_0_r.
  - specialize (K5 t' ltac:(lia)).
    replace (i' + S t') with (S i' + t') by lia.
    replace (bestj - 1 + S t') with (bestj + t') by lia. exact K5.
Qed.

Lemma extend_fwd_ok alo ahi blo bhi besti bestj : forall room bestsize,
  match_ok alo ahi blo bhi (besti, bestj, bestsize) ->
  match_ok alo ahi blo bhi
    (besti, bestj, extend_fwd eqb a b ahi bhi besti bestj bestsize room).
Proof.
  induction room as [|room IH]; intros bestsize H; simpl; [exact H|].
  destruct (Nat.ltb_spec (besti + bestsize) ahi) as [H1|H1]; simpl; [|exact H].
  destruct (Nat.ltb_spec (bestj + bestsize) bhi) as [H2|H2]; simpl; [|exact H].
  destruct (same (besti + bestsize) (bestj + bestsize)) eqn:E; [|exact H].
  apply IH. destruct H as (K1 & K2 & K3 & K4 & K5).
  unfold match_ok. repeat split; try lia.
  intros t Ht. destruct (Nat.eq_dec t bestsize) as [->|Hne]; [exact E|].
  apply K5. lia.
Qed.

Lemma find_longest_match_ok alo ahi blo bhi :
  alo <= ahi -> blo <= bhi ->
  match_ok alo ahi blo bhi (find_longest_match eqb a b b2j alo ahi blo bhi).
Proof.
  intros Ha Hb. unfold find_longest_match.
  pose proof (@scan_rows_ok alo blo bhi (ahi - alo) alo [] (alo, blo, 0)
                (le_n _)) as H.
  replace (alo + (ahi - alo)) with ahi in H by lia.
  specialize (H ltac:(intros j k []) ltac:(unfold match_ok; repeat split; try lia)).
  destruct (scan_rows eqb a b2j blo bhi (seq alo (ahi - alo)) [] (alo, blo, 0))
    as [[bi bj] bk].
  apply extend_back_ok in H.
  destruct (extend_back eqb a b alo blo bi bj bk) as [[bi' bj'] bk'].
  now apply extend_fwd_ok.
Qed.


(** ** The matching blocks *)

Lemma pairwise_app {X : Type} (R : X -> X -> Prop) (l1 l2 : list X) :
  pairwise R (l1 ++ l2) <->
  pairwise R l1 /\ pairwise R l2 /\ Forall (fun x => Forall (R x) l2) l1.
Proof.
  induction l1 as [|x l1 IH]; simpl.
  - intuition.
  - rewrite Forall_app, IH. split.
    + intros ((H1 & H2) & H3 & H4 & H5). repeat split; auto.
    + intros ((H1 & H2) & H3 & H4). inversion H4; subst. repeat split; auto.
Qed.

Lemma pairwise_perm {X : Type} (R : X -> X -> Prop) (l l' : list X) :
  (forall x y, R x y -> R y x) ->
  Permutation l l' -> pairwise R l -> pairwise R l'.
Proof.
  intros Hsym Hp. induction Hp; simpl.
  - auto.
  - intros [H1 H2]. split; [|auto]. eapply Permutation_Forall; eauto.
  - intros [H1 [H2 H3]]. inversion H1; subst. repeat split; auto.
  - auto.
Qed.

Lemma apart_sym r1 r2 : apart r1 r2 -> apart r2 r1.
Proof. unfold apart; tauto. Qed.

Lemma apart_inside r0 r z :
  let '(alo, ahi, blo, bhi) := r in alo <= ahi /\ blo <= bhi ->
  inside r0 r -> apart r0 z -> apart r z.
Proof.
  destruct r0 as [[[alo0 ahi0] blo0] bhi0], r as [[[alo ahi] blo] bhi],
    z as [[[zalo zahi] zblo] zbhi].
  unfold inside, apart, before. lia.
Qed.

Lemma blocks_loop_ok : forall fuel queue blocks,
  measure queue <= fuel ->
  Forall rect_ok queue ->
  Forall block_ok blocks ->
  pairwise apart (queue ++ map region blocks) ->
  exists found,
    blocks_loop eqb a b b2j fuel queue blocks = Some found /\
    Forall block_ok found /\ pairwise apart (map region found).
Proof.
  induction fuel as [|fuel IH]; intros queue blocks Hm Hq Hb Hp.
  - destruct queue as [|[[[alo ahi] blo] bhi] queue]; simpl in *; [|lia].
    exists blocks. auto.
  - destruct queue as [|[[[alo ahi] blo] bhi] queue]; simpl in *.
    { exists blocks. auto. }
    inversion Hq as [|? ? Hr Hq']; subst. simpl in Hr. destruct Hr as [Ha Hbb].
    pose proof (find_longest_match_ok Ha Hbb) as Hflm.
    destruct (find_longest_match eqb a b b2j alo ahi blo bhi) as [[i j] k].
    destruct Hflm as (K1 & K2 & K3 & K4 & K5).
    destruct Hp as [Hp1 Hp2].
    destruct (Nat.eqb_spec k 0) as [->|Hk].
    { apply IH; auto. lia. }
    set (X := (if (i + k <? ahi) && (j + k <? bhi) then [(i + k, ahi, j + k, bhi)] else [])
              ++ (if (alo <? i) && (blo <? j) then [(alo, i, blo, j)] else [])).
    assert (HX : (if (i + k <? ahi) && (j + k <? bhi)
                  then (i + k, ahi, j + k, bhi) ::
                       (if (alo <? i) && (blo <? j) then (alo, i, blo, j) :: queue else queue)
                  else (if (alo <? i) && (blo <? j) then (alo, i, blo, j) :: queue else queue))
                 = X ++ queue).
    { unfold X. destruct ((i + k <? ahi) && (j + k <? bhi)), ((alo <? i) && (blo <? j)); reflexivity. }
    rewrite HX.
    assert (HXin : Forall (fun r => rect_ok r /\ inside (alo, ahi, blo, bhi) r) (X ++ [region (i, j, k)])).
    { unfold X. apply Forall_app; split; [apply Forall_app; split|].
      - destruct ((i + k <? ahi) && (j + k <? bhi)); constructor; [|constructor].
        simpl. lia.
      - destruct ((alo <? i) && (blo <? j)); constructor; [|constructor].
        simpl. lia.
      - constructor; [|constructor]. simpl. lia. }
    assert (HXp : pairwise apart (X ++ [region (i, j, k)])).
    { unfold X, apart, before.
      destruct ((i + k <? ahi) && (j + k <? bhi)), ((alo <? i) && (blo <? j)); simpl;
        repeat split; repeat constructor; simpl; lia. }
    apply IH.
    + assert (measure (X ++ queue) <= 2 * (ahi - alo) + measure queue); [|lia].
      unfold X. destruct (Nat.ltb_spec (i + k) ahi), (Nat.ltb_spec (j + k) bhi),
        (Nat.ltb_spec alo i), (Nat.ltb_spec blo j); simpl; lia.
    + apply Forall_app; split; [|exact Hq'].
      apply Forall_app in HXin. destruct HXin as [HXin _].
      eapply Forall_impl; [|exact HXin]. simpl. tauto.
    + apply Forall_app; split; [exact Hb|]. constructor; [|constructor].
      split; [lia|exact K5].
    + rewrite map_app. simpl map.
      apply pairwise_perm with (l := (X ++ [region (i, j, k)]) ++ (queue ++ map region blocks)).
      * apply apart_sym.
      * rewrite <- !app_assoc. apply Permutation_app_head.
        rewrite (app_assoc queue). apply (Permutation_app_comm [_]).
      * apply pairwise_app. repeat split; auto.
        eapply Forall_impl; [|exact HXin]. intros r [Hr1 Hr2].
        eapply Forall_impl; [|exact Hp1]. intros z Hz.
        pose proof (@apart_inside (alo, ahi, blo, bhi) r z) as Hai.
        destruct r as [[[ralo rahi] rblo] rbhi]. apply Hai; auto.
Qed.


(** ** Sorting and merging the blocks *)

Lemma insert_sorted_perm x l : Permutation (insert_sorted x l) (x :: l).
Proof.
  induction l as [|y l IH]; simpl; [auto|].
  destruct (match_leb x y); [auto|].
  rewrite IH. apply perm_swap.
Qed.

Lemma sort_perm l : Permutation (sort l) l.
Proof.
  induction l as [|x l IH]; simpl; [auto|].
  rewrite insert_sorted_perm. now constructor.
Qed.

Lemma match_leb_starts x y : match_leb x y = true -> starts_le x y.
Proof.
  destruct x as [[i1 j1] k1], y as [[i2 j2] k2]. unfold match_leb, starts_le. simpl.
  destruct (Nat.ltb_spec i1 i2), (Nat.eqb_spec i1 i2); simpl; try lia; discriminate.
Qed.

Lemma match_leb_false_starts x y : match_leb x y = false -> starts_le y x.
Proof.
  destruct x as [[i1 j1] k1], y as [[i2 j2] k2]. unfold match_leb, starts_le. simpl.
  destruct (Nat.ltb_spec i1 i2); simpl; [discriminate|lia].
Qed.

Lemma insert_sorted_sorted x l :
  StronglySorted starts_le l -> StronglySorted starts_le (insert_sorted x l).
Proof.
  induction 1 as [|y l Hs IH Hy]; simpl.
  - repeat constructor.
  - destruct (match_leb x y) eqn:E.
    + constructor; [constructor; auto|].
      apply match_leb_starts in E. constructor; [exact E|].
      eapply Forall_impl; [|exact Hy]. unfold starts_le in *. intros; lia.
    + constructor; [exact IH|].
      eapply Permutation_Forall; [symmetry; apply insert_sorted_perm|].
      constructor; [now apply match_leb_false_starts|exact Hy].
Qed.

Lemma sort_sorted l : StronglySorted starts_le (sort l).
Proof.
  induction l as [|x l IH]; simpl; [constructor|]. now apply insert_sorted_sorted.
Qed.

Lemma chain_app l1 : forall i j l2,
  chain i j (l1 ++ l2) <->
  chain i j l1 /\ chain (fst (end_of i j l1)) (snd (end_of i j l1)) l2.
Proof.
  induction l1 as [|[[bi bj] bk] l1 IH]; intros i j l2; simpl.
  - tauto.
  - rewrite IH. tauto.
Qed.

Lemma end_of_app l1 : forall i j l2,
  end_of i j (l1 ++ l2) = end_of (fst (end_of i j l1)) (snd (end_of i j l1)) l2.
Proof.
  induction l1 as [|[[bi bj] bk] l1 IH]; intros i j l2; simpl; [reflexivity|apply IH].
Qed.

Lemma chain_weaken l i j i' j' : i' <= i -> j' <= j -> chain i j l -> chain i' j' l.
Proof.
  destruct l as [|[[bi bj] bk] l]; simpl; [auto|]. intros ? ? (? & ? & ?).
  repeat split; auto; lia.
Qed.

Lemma sorted_chain l : forall i j,
  StronglySorted starts_le l ->
  pairwise apart (map region l) ->
  Forall block_ok l ->
  Forall (fun m => i <= fst (fst m) /\ j <= snd (fst m)) l ->
  chain i j l.
Proof.
  induction l as [|[[bi bj] bk] l IH]; intros i j Hs Hp Hb Hf; simpl; [exact I|].
  inversion Hs as [|? ? Hs' Hle]; subst.
  inversion Hb as [|? ? Hx Hb']; subst. destruct Hx as [Hk _].
  inversion Hf as [|? ? Hy _]; subst. simpl in Hy. destruct Hy as [Hi Hj].
  destruct Hp as [Hp1 Hp2].
  repeat split; auto. apply IH; auto.
  rewrite Forall_forall in *. intros [[ci cj] ck] Hin.
  specialize (Hle _ Hin). unfold starts_le in Hle. simpl in Hle.
  specialize (Hp1 (region (ci, cj, ck)) (in_map region _ _ Hin)).
  destruct (Hb' _ Hin) as [Hck _].
  unfold apart, before in Hp1. simpl in *. lia.
Qed.

Lemma collapse_ok : forall blocks cur na,
  Forall block_ok blocks ->
  Forall block_ok na ->
  valid cur ->
  chain 0 0 (na ++ [cur]) ->
  chain (fst (end_of 0 0 (na ++ [cur]))) (snd (end_of 0 0 (na ++ [cur]))) blocks ->
  Forall block_ok (flush (fst (collapse blocks cur na)) (snd (collapse blocks cur na))) /\
  chain 0 0 (flush (fst (collapse blocks cur na)) (snd (collapse blocks cur na))).
Proof.
  induction blocks as [|[[i2 j2] k2] blocks IH]; intros [[i1 j1] k1] na Hb Hna Hv Hc He.
  - simpl. destruct (Nat.ltb_spec 0 k1).
    + split; [|exact Hc]. apply Forall_app; split; auto.
      constructor; [|constructor]. split; [lia|exact Hv].
    + split; auto. apply chain_app in Hc. tauto.
  - inversion Hb as [|? ? Hx Hb']; subst. destruct Hx as [Hk2 Hv2].
    rewrite end_of_app in He. simpl in He. destruct He as (E1 & E2 & E3).
    simpl collapse.
    destruct (Nat.eqb_spec (i1 + k1) i2) as [Ei|Ei];
      [destruct (Nat.eqb_spec (j1 + k1) j2) as [Ej|Ej]|]; simpl andb; cbv iota.
    + subst i2 j2. apply IH; auto.
      * intros t Ht. destruct (Nat.ltb_spec t k1); [now apply Hv|].
        specialize (Hv2 (t - k1) ltac:(lia)).
        replace (i1 + k1 + (t - k1)) with (i1 + t) in Hv2 by lia.
        replace (j1 + k1 + (t - k1)) with (j1 + t) in Hv2 by lia. exact Hv2.
      * apply chain_app in Hc. apply chain_app. simpl in *. tauto.
      * rewrite end_of_app. simpl.
        replace (i1 + (k1 + k2)) with (i1 + k1 + k2) by lia.
        replace (j1 + (k1 + k2)) with (j1 + k1 + k2) by lia. exact E3.
    + apply IH; auto.
      * destruct (Nat.ltb_spec 0 k1); auto. apply Forall_app; split; auto.
        constructor; [|constructor]. split; [lia|exact Hv].
      * destruct (Nat.ltb_spec 0 k1).
        -- apply chain_app. split; [exact Hc|]. rewrite end_of_app. simpl. lia.
        -- apply chain_app in Hc. destruct Hc as [Hc1 Hc2]. simpl in Hc2.
           apply chain_app. split; [exact Hc1|]. simpl. lia.
      * destruct (Nat.ltb_spec 0 k1); rewrite end_of_app; simpl; exact E3.
    + apply IH; auto.
      * destruct (Nat.ltb_spec 0 k1); auto. apply Forall_app; split; auto.
        constructor; [|constructor]. split; [lia|exact Hv].
      * destruct (Nat.ltb_spec 0 k1).
        -- apply chain_app. split; [exact Hc|]. rewrite end_of_app. simpl. lia.
        -- apply chain_app in Hc. destruct Hc as [Hc1 Hc2]. simpl in Hc2.
           apply chain_app. split; [exact Hc1|]. simpl. lia.
      * destruct (Nat.ltb_spec 0 k1); rewrite end_of_app; simpl; exact E3.
Qed.


Lemma same_at_lt i j :
  same_at eqb a b i j = true -> i < List.length a /\ j < List.length b.
Proof.
  unfold same_at.
  destruct (nth_error a i) eqn:Ea; [|discriminate].
  destruct (nth_error b j) eqn:Eb; [|discriminate].
  intros _. split; apply nth_error_Some; congruence.
Qed.

Lemma same_at_eq i j :
  same_at eqb a b i j = true -> nth_error a i = nth_error b j.
Proof.
  unfold same_at.
  destruct (nth_error a i) eqn:Ea; [|discriminate].
  destruct (nth_error b j) eqn:Eb; [|discriminate].
  intros H. apply eqb_eq in H. now subst.
Qed.

Lemma block_ok_range m :
  block_ok m ->
  fst (fst m) + snd m <= List.length a /\ snd (fst m) + snd m <= List.length b.
Proof.
  destruct m as [[i j] k]. simpl. intros [Hk Hv].
  specialize (Hv (k - 1) ltac:(lia)). apply same_at_lt in Hv. lia.
Qed.

Lemma end_of_bound l : forall i j,
  Forall block_ok l -> i <= List.length a -> j <= List.length b ->
  fst (end_of i j l) <= List.length a /\ snd (end_of i j l) <= List.length b.
Proof.
  induction l as [|[[bi bj] bk] l IH]; intros i j Hb Hi Hj; simpl; [auto|].
  inversion Hb as [|? ? Hx Hb']; subst. apply block_ok_range in Hx. simpl in Hx.
  apply IH; auto; lia.
Qed.

Lemma block_ok_valid m : block_ok m -> valid m.
Proof. destruct m as [[i j] k]. simpl. tauto. Qed.

(** The blocks [get_matching_blocks] returns. *)
Lemma get_matching_blocks_ok :
  exists found,
    get_matching_blocks eqb a b b2j
      = Some (found ++ [(List.length a, List.length b, 0)]) /\
    Forall block_ok found /\
    chain 0 0 (found ++ [(List.length a, List.length b, 0)]) /\
    Forall valid (found ++ [(List.length a, List.length b, 0)]) /\
    end_of 0 0 (found ++ [(List.length a, List.length b, 0)])
      = (List.length a, List.length b).
Proof.
  unfold get_matching_blocks.
  destruct (@blocks_loop_ok (2 * List.length a + 2)
              [(0, List.length a, 0, List.length b)] [])
    as (found & -> & Hf & Hp).
  - simpl. lia.
  - repeat constructor; simpl; lia.
  - constructor.
  - simpl. auto.
  - pose proof (sort_perm found) as Hperm.
    assert (Hs : Forall block_ok (sort found))
      by (eapply Permutation_Forall; [symmetry; exact Hperm|exact Hf]).
    assert (Hc : chain 0 0 (sort found)).
    { apply sorted_chain; auto.
      - apply sort_sorted.
      - eapply pairwise_perm; [apply apart_sym| |exact Hp].
        apply Permutation_map. now symmetry.
      - rewrite Forall_forall. intros; lia. }
    destruct (@collapse_ok (sort found) (0, 0, 0) []) as [H1 H2]; auto.
    + simpl. intros t Ht; lia.
    + simpl. auto.
    + destruct (collapse (sort found) (0, 0, 0) []) as [na [[i1 j1] k1]].
      simpl in H1, H2.
      set (F := if 0 <? k1 then na ++ [(i1, j1, k1)] else na) in *.
      exists F. split; [reflexivity|].
      pose proof (@end_of_bound F 0 0 H1 ltac:(lia) ltac:(lia)) as [B1 B2].
      split; [exact H1|]. repeat split.
      * apply chain_app. split; [exact H2|]. simpl. auto.
      * apply Forall_app. split.
        -- eapply Forall_impl; [|exact H1]. apply block_ok_valid.
        -- constructor; [|constructor]. simpl. intros t Ht; lia.
      * rewrite end_of_app. simpl. now rewrite !Nat.add_0_r.
Qed.

(** ** The opcodes *)

Lemma tiles_app ops1 : forall i j ops2 m n i' j',
  tiles i j ops1 m n -> tiles m n ops2 i' j' -> tiles i j (ops1 ++ ops2) i' j'.
Proof.
  induction ops1 as [|[[[[tag i1] i2] j1] j2] ops1 IH]; intros i j ops2 m n i' j'; simpl.
  - intros [-> ->]. auto.
  - intros (-> & -> & H1 & H2 & H3 & H4) H5. repeat split; auto. eapply IH; eauto.
Qed.

Lemma slice_S {X : Type} (l : list X) i k x :
  nth_error l i = Some x -> Py.slice l i (i + S k) = x :: Py.slice l (S i) (S i + k).
Proof.
  unfold Py.slice. intros H.
  replace (i + S k - i) with (S k) by lia. replace (S i + k - S i) with k by lia.
  revert i H. induction l as [|y l IH]; intros i H.
  - destruct i; discriminate.
  - destruct i as [|i]; simpl in *.
    + now injection H as ->.
    + now apply IH.
Qed.

Lemma valid_slices k : forall i j,
  (forall t, t < k -> same_at eqb a b (i + t) (j + t) = true) ->
  Py.slice a i (i + k) = Py.slice b j (j + k).
Proof.
  induction k as [|k IH]; intros i j H.
  - unfold Py.slice. now rewrite !Nat.add_0_r, !Nat.sub_diag.
  - pose proof (H 0 ltac:(lia)) as H0. rewrite !Nat.add_0_r in H0.
    pose proof (same_at_eq _ _ H0) as E.
    destruct (nth_error a i) as [x|] eqn:Ea.
    + rewrite (@slice_S _ a i k x Ea), (@slice_S _ b j k x (eq_sym E)). f_equal.
      apply IH. intros t Ht. specialize (H (S t) ltac:(lia)).
      replace (S i + t) with (i + S t) by lia.
      replace (S j + t) with (j + S t) by lia. exact H.
    + apply same_at_lt in H0. apply nth_error_None in Ea. lia.
Qed.

Lemma opcodes_loop_tiles : forall blocks i j answer i0 j0,
  tiles i0 j0 answer i j ->
  i <= List.length a -> j <= List.length b ->
  chain i j blocks -> Forall valid blocks ->
  fst (end_of i j blocks) <= List.length a ->
  snd (end_of i j blocks) <= List.length b ->
  tiles i0 j0 (opcodes_loop blocks i j answer)
    (fst (end_of i j blocks)) (snd (end_of i j blocks)).
Proof.
  induction blocks as [|[[ai bj] size] blocks IH];
    intros i j answer i0 j0 Ht Hi Hj Hc Hv He1 He2.
  - exact Ht.
  - simpl in Hc, He1, He2. destruct Hc as (C1 & C2 & C3).
    inversion Hv as [|? ? Hv1 Hv']; subst. simpl in Hv1.
    assert (Hend : ai + size <= List.length a /\ bj + size <= List.length b).
    { destruct size as [|size].
      - assert (forall l x y, chain x y l -> x <= fst (end_of x y l) /\ y <= snd (end_of x y l)) as Hmono.
        { clear. induction l as [|[[ci cj] ck] l IH]; intros x y; simpl; [lia|].
          intros (? & ? & Hc). specialize (IH _ _ Hc). lia. }
        specialize (Hmono _ _ _ C3). lia.
      - specialize (Hv1 size ltac:(lia)). apply same_at_lt in Hv1. lia. }
    simpl opcodes_loop. simpl end_of.
    apply IH; auto; try lia.
    set (answer1 := if (i <? ai) && (j <? bj) then answer ++ [(Replace, i, ai, j, bj)]
                    else if i <? ai then answer ++ [(Delete, i, ai, j, bj)]
                    else if j <? bj then answer ++ [(Insert, i, ai, j, bj)]
                    else answer).
    assert (H1 : tiles i0 j0 answer1 ai bj).
    { unfold answer1.
      destruct (Nat.ltb_spec i ai), (Nat.ltb_spec j bj); simpl andb; cbv iota.
      - eapply tiles_app; [exact Ht|]. simpl. repeat split; auto; lia.
      - eapply tiles_app; [exact Ht|]. simpl. repeat split; auto; lia.
      - eapply tiles_app; [exact Ht|]. simpl. repeat split; auto; lia.
      - replace ai with i by lia. replace bj with j by lia. exact Ht. }
    destruct (Nat.ltb_spec 0 size).
    + eapply tiles_app; [exact H1|]. simpl. repeat split; auto; try lia.
      now apply valid_slices.
    + replace size with 0 by lia. now rewrite !Nat.add_0_r.
Qed.

Lemma opcodes_loop_from : forall blocks i j answer,
  opcodes_loop blocks i j answer = answer ++ opcodes_from blocks i j.
Proof.
  induction blocks as [|[[ai bj] size] blocks IH]; intros i j answer; simpl.
  - now rewrite app_nil_r.
  - rewrite IH.
    destruct ((i <? ai) && (j <? bj)), (i <? ai), (j <? bj), (0 <? size);
      simpl; rewrite <- ?app_assoc; reflexivity.
Qed.

Lemma opcodes_from_separated : forall found last i j,
  Forall (fun m => 1 <= snd m) found ->
  separated (opcodes_from (found ++ [last]) i j).
Proof.
  induction found as [|[[ai bj] size] found IH]; intros [[li lj] lk] i j Hf.
  - simpl. destruct ((i <? li) && (j <? lj)), (i <? li), (j <? lj), (0 <? lk);
      simpl; auto.
  - inversion Hf as [|? ? Hs Hf']; subst. simpl in Hs.
    specialize (IH (li, lj, lk) (ai + size) (bj + size) Hf').
    change (opcodes_from (((ai, bj, size) :: found) ++ [(li, lj, lk)]) i j)
      with ((if (i <? ai) && (j <? bj) then [(Replace, i, ai, j, bj)]
             else if i <? ai then [(Delete, i, ai, j, bj)]
             else if j <? bj then [(Insert, i, ai, j, bj)]
             else [])
            ++ (if 0 <? size then [(Equal, ai, ai + size, bj, bj + size)] else [])
            ++ opcodes_from (found ++ [(li, lj, lk)]) (ai + size) (bj + size)).
    destruct (Nat.ltb_spec 0 size) as [_|]; [|lia].
    assert (He : separated ((Equal, ai, ai + size, bj, bj + size)
                            :: opcodes_from (found ++ [(li, lj, lk)]) (ai + size) (bj + size))).
    { simpl. destruct (opcodes_from (found ++ [(li, lj, lk)]) (ai + size) (bj + size));
        auto. }
    destruct ((i <? ai) && (j <? bj)), (i <? ai), (j <? bj); simpl app;
      try exact He; (split; [right; reflexivity|exact He]).
Qed.

Lemma get_opcodes_ok :
  exists ops,
    get_opcodes eqb a b b2j = Some ops /\
    tiles 0 0 ops (List.length a) (List.length b) /\
    separated ops.
Proof.
  unfold get_opcodes.
  destruct get_matching_blocks_ok as (found & -> & Hf & Hc & Hv & He).
  eexists; split; [reflexivity|]. split.
  - pose proof (@opcodes_loop_tiles (found ++ [(List.length a, List.length b, 0)])
                  0 0 [] 0 0) as H.
    rewrite He in H. simpl in H. apply H; auto; lia.
  - rewrite opcodes_loop_from. simpl. apply opcodes_from_separated.
    eapply Forall_impl; [|exact Hf]. intros [[i j] k] [Hk _]. exact Hk.
Qed.

End Matching.

Section ChainB.
Variable A : Type.
Variable eqb : A -> A -> bool.
Hypothesis eqb_eq : forall x y, eqb x y = true <-> x = y.
Variable b : list A.
Local Abbreviation entries_ok := (entries_ok b).

Lemma setdefault_append_ok i d elt :
  nth_error b i = Some elt -> entries_ok i d ->
  entries_ok (S i) (setdefault_append eqb d elt i).
Proof.
  intros Hb. induction d as [|[y idxs] d IH]; intros Hd z zs Hin; simpl in Hin.
  - destruct Hin as [E|[]]. injection E as <- <-.
    split; [repeat constructor; simpl; tauto|].
    intros j [<-|[]]. split; [lia|exact Hb].
  - assert (Hd' : entries_ok i d) by (intros ? ? ?; apply Hd; now right).
    destruct (Hd y idxs (or_introl eq_refl)) as [N1 N2].
    destruct (eqb y elt) eqn:E.
    + apply eqb_eq in E; subst y. destruct Hin as [E|Hin].
      * injection E as <- <-. split.
        -- apply NoDup_app; repeat split; auto.
           ++ repeat constructor; simpl; tauto.
           ++ intros j Hj [<-|[]]. destruct (N2 _ Hj). lia.
        -- intros j Hj. apply in_app_or in Hj. destruct Hj as [Hj|[<-|[]]].
           ++ destruct (N2 _ Hj). split; [lia|auto].
           ++ split; [lia|exact Hb].
      * destruct (Hd z zs (or_intror Hin)) as [M1 M2]. split; auto.
        intros j Hj. destruct (M2 _ Hj). split; [lia|auto].
    + destruct Hin as [E'|Hin].
      * injection E' as <- <-. split; auto.
        intros j Hj. destruct (N2 _ Hj). split; [lia|auto].
      * now apply IH.
Qed.

Lemma index_b_ok : forall suffix i d,
  (forall t, nth_error suffix t = nth_error b (i + t)) ->
  entries_ok i d ->
  entries_ok (i + List.length suffix) (index_b eqb suffix i d).
Proof.
  induction suffix as [|elt suffix IH]; intros i d Hs Hd; simpl.
  - now rewrite Nat.add_0_r.
  - replace (i + S (List.length suffix)) with (S i + List.length suffix) by lia.
    apply IH.
    + intros t. specialize (Hs (S t)). simpl in Hs.
      now replace (S i + t) with (i + S t) by lia.
    + apply setdefault_append_ok; auto.
      specialize (Hs 0). simpl in Hs. now rewrite Nat.add_0_r in Hs.
Qed.

Lemma purge_popular_ok ntest i d :
  entries_ok i d -> entries_ok i (purge_popular ntest d).
Proof.
  intros Hd y idxs Hin. apply filter_In in Hin. apply Hd. tauto.
Qed.

Lemma chain_b_ok autojunk : entries_ok (List.length b) (chain_b eqb autojunk b).
Proof.
  assert (H : entries_ok (List.length b) (index_b eqb b 0 [])).
  { apply (@index_b_ok b 0 []); [reflexivity|]. intros ? ? []. }
  unfold chain_b. destruct (autojunk && (200 <=? List.length b)); auto.
  now apply purge_popular_ok.
Qed.

Lemma b2j_get_entry d x :
  b2j_get eqb d x = [] \/ In (x, b2j_get eqb d x) d.
Proof.
  induction d as [|[y idxs] d IH]; simpl; [now left|].
  destruct (eqb y x) eqn:E.
  - apply eqb_eq in E; subst y. right; now left.
  - destruct IH; [now left|right; now right].
Qed.

Lemma chain_b_sound autojunk x j :
  In j (b2j_get eqb (chain_b eqb autojunk b) x) -> nth_error b j = Some x.
Proof.
  intros Hin. destruct (b2j_get_entry (chain_b eqb autojunk b) x) as [E|He].
  - rewrite E in Hin. destruct Hin.
  - destruct (chain_b_ok autojunk _ _ He) as [_ H]. now apply H.
Qed.

(** With no popular element the purge deletes nothing. *)
Lemma purge_popular_none ntest :
  (forall x, List.length (filter (eqb x) b) <= ntest) ->
  purge_popular ntest (index_b eqb b 0 []) = index_b eqb b 0 [].
Proof.
  intros Hcount.
  assert (H : entries_ok (List.length b) (index_b eqb b 0 [])).
  { apply (@index_b_ok b 0 []); [reflexivity|]. intros ? ? []. }
  unfold purge_popular. apply forallb_filter_id. apply forallb_forall.
  intros [y idxs] Hin. simpl. destruct (H _ _ Hin) as [Hnd Hidx].
  destruct (Nat.ltb_spec ntest (List.length idxs)) as [Hlt|]; [|reflexivity].
  exfalso.
  assert (Hle : List.length idxs <= List.length (filter (eqb y) b)); [|specialize (Hcount y); lia].
  clear Hlt Hcount Hin H.
  assert (G : forall (l : list A) (i : nat) (js : list nat),
             NoDup js ->
             (forall j, In j js -> i <= j /\ nth_error l (j - i) = Some y) ->
             List.length js <= List.length (filter (eqb y) l)).
  { clear - eqb_eq. induction l as [|z l IH]; intros i js Hnd Hjs.
    - destruct js as [|j js]; [simpl; lia|].
      destruct (Hjs j (or_introl eq_refl)) as [_ H]. destruct (j - i); discriminate.
    - simpl. 
      assert (Hrest : forall js', NoDup js' ->
                (forall j, In j js' -> S i <= j /\ nth_error (z :: l) (j - i) = Some y) ->
                List.length js' <= List.length (filter (eqb y) l)).
      { intros js' Hnd' Hjs'. apply (IH (S i)); auto.
        intros j Hj. destruct (Hjs' j Hj) as [H1 H2]. split; auto.
        replace (j - i) with (S (j - S i)) in H2 by lia. exact H2. }
      destruct (in_dec Nat.eq_dec i js) as [Hi|Hi].
      + destruct (Hjs i Hi) as [_ Hz]. rewrite Nat.sub_diag in Hz. simpl in Hz.
        injection Hz as ->. rewrite (proj2 (eqb_eq y y) eq_refl). simpl.
        destruct (in_split _ _ Hi) as (l1 & l2 & ->).
        apply NoDup_remove in Hnd. destruct Hnd as [Hnd Hni].
        rewrite length_app. simpl. rewrite <- plus_n_Sm. apply le_n_S.
        rewrite <- length_app. apply Hrest; auto.
        intros j Hj. destruct (Hjs j) as [H1 H2].
        { apply in_app_or in Hj. apply in_or_app. simpl. tauto. }
        split; auto. destruct (Nat.eq_dec i j) as [->|]; [contradiction|lia].
      + assert (List.length js <= List.length (filter (eqb y) l)).
        { apply Hrest; auto. intros j Hj. destruct (Hjs j Hj) as [H1 H2].
          split; auto. destruct (Nat.eq_dec i j) as [->|]; [contradiction|lia]. }
        destruct (eqb y z); simpl; lia. }
  apply (G b 0 idxs Hnd). intros j Hj. destruct (Hidx j Hj) as [_ H2].
  split; [lia|]. now rewrite Nat.sub_0_r.
Qed.

End ChainB.

Section Identity.
Variable A : Type.
Variable eqb : A -> A -> bool.
Hypothesis eqb_eq : forall x y, eqb x y = true <-> x = y.
Variable a : list A.

Lemma indices_from_sorted (l : list A) x : forall i,
  StronglySorted lt (indices_from eqb l i x) /\
  Forall (fun j => i <= j < i + List.length l) (indices_from eqb l i x).
Proof.
  induction l as [|y l IH]; intros i; simpl.
  - split; constructor.
  - destruct (IH (S i)) as [H1 H2].
    assert (H3 : Forall (fun j => i <= j < i + S (List.length l)) (indices_from eqb l (S i) x))
      by (eapply Forall_impl; [|exact H2]; simpl; intros; lia).
    destruct (eqb y x); [|auto]. split.
    + constructor; auto. eapply Forall_impl; [|exact H2]. simpl; intros; lia.
    + constructor; auto. lia.
Qed.

Lemma b2j_at_self i x :
  nth_error a i = Some x ->
  b2j_at eqb a (index_b eqb a 0 []) i = indices_from eqb a 0 x.
Proof.
  intros H. unfold b2j_at. rewrite H. now rewrite (@b2j_get_index_b _ eqb eqb_eq).
Qed.

Lemma scan_row_diag n i j2len :
  i < n -> j2len_get_pred j2len i = i ->
  (forall j, j2len_get_pred j2len j <= i /\ j2len_get_pred j2len j <= j) ->
  forall js nj best,
  StronglySorted lt js -> Forall (fun j => j < n) js ->
  (In i js /\ best = (0, 0, i)) \/
  (Forall (fun j => i < j) js /\ best = (0, 0, S i) /\ j2len_get nj i = S i) ->
  bounded (S i) nj ->
  snd (scan_row j2len i 0 n js nj best) = (0, 0, S i) /\
  j2len_get (fst (scan_row j2len i 0 n js nj best)) i = S i /\
  bounded (S i) (fst (scan_row j2len i 0 n js nj best)).
Proof.
  intros Hi Hdiag Hprev. induction js as [|j js IH]; intros nj best Hs Hn Hcase Hb.
  - simpl. destruct Hcase as [[[] _]|(_ & -> & E)]. auto.
  - inversion Hs as [|? ? Hs' Hlt]; subst. inversion Hn as [|? ? Hjn Hn']; subst.
    simpl scan_row. destruct (Nat.leb_spec n j) as [|_]; [lia|].
    destruct (Hprev j) as [P1 P2].
    set (k := j2len_get_pred j2len j + 1) in *.
    assert (Hb' : bounded (S i) ((j, k) :: nj)).
    { intros j'. simpl. destruct (Nat.eqb_spec j j') as [<-|]; [unfold k; lia|apply Hb]. }
    destruct best as [[bi bj] bk].
    destruct Hcase as [[Hin E]|(Hall & E & Hget)]; injection E as -> -> ->.
    + destruct (Nat.eq_dec j i) as [->|Hne].
      * assert (Hk : k = S i) by (unfold k; lia). rewrite Hk.
        destruct (Nat.ltb_spec i (S i)) as [_|]; [|lia].
        apply IH; auto. right. repeat split.
        -- exact Hlt.
        -- replace (i + 1 - S i) with 0 by lia. reflexivity.
        -- simpl. now rewrite Nat.eqb_refl.
        -- rewrite Hk in Hb'. exact Hb'.
      * destruct Hin as [|Hin]; [contradiction|].
        rewrite Forall_forall in Hlt. specialize (Hlt _ Hin).
        destruct (Nat.ltb_spec i k) as [|_]; [unfold k in *; lia|].
        apply IH; auto.
    + inversion Hall as [|? ? Hij Hall']; subst.
      destruct (Nat.ltb_spec (S i) k) as [|_]; [unfold k in *; lia|].
      apply IH; auto. right. repeat split; auto.
      simpl. destruct (Nat.eqb_spec j i); [lia|exact Hget].
Qed.

Lemma scan_rows_diag : forall m i j2len,
  i + m <= List.length a -> j2len_get_pred j2len i = i ->
  (forall j, j2len_get_pred j2len j <= i /\ j2len_get_pred j2len j <= j) ->
  scan_rows eqb a (index_b eqb a 0 []) 0 (List.length a) (seq i m) j2len (0, 0, i)
  = (0, 0, i + m).
Proof.
  induction m as [|m IH]; intros i j2len Him Hdiag Hprev; simpl.
  - now rewrite Nat.add_0_r.
  - destruct (nth_error a i) as [x|] eqn:Ex;
      [|apply nth_error_None in Ex; lia].
    rewrite (b2j_at_self _ Ex).
    destruct (indices_from_sorted a x 0) as [S1 S2].
    destruct (@scan_row_diag (List.length a) i j2len ltac:(lia) Hdiag Hprev
                (indices_from eqb a 0 x) [] (0, 0, i)) as (R1 & R2 & R3); auto.
    + eapply Forall_impl; [|exact S2]. simpl; intros; lia.
    + left. split; [|reflexivity]. apply (@indices_from_spec _ eqb eqb_eq).
      split; [lia|]. now rewrite Nat.sub_0_r.
    + intros j. simpl. lia.
    + destruct (scan_row j2len i 0 (List.length a) (indices_from eqb a 0 x) [] (0, 0, i))
        as [nj best']. simpl in *. subst best'.
      replace (i + S m) with (S i + m) by lia. apply IH; auto; [lia|].
      intros [|j']; simpl; [lia|]. destruct (R3 j'). lia.
Qed.

Lemma find_longest_match_self :
  find_longest_match eqb a a (index_b eqb a 0 []) 0 (List.length a) 0 (List.length a)
  = (0, 0, List.length a).
Proof.
  unfold find_longest_match. rewrite Nat.sub_0_r.
  rewrite (@scan_rows_diag (List.length a) 0 []); simpl; auto.
  - now rewrite Nat.sub_diag.
  - intros [|j]; simpl; lia.
Qed.

Lemma blocks_loop_self fuel n :
  1 <= n ->
  find_longest_match eqb a a (index_b eqb a 0 []) 0 n 0 n = (0, 0, n) ->
  blocks_loop eqb a a (index_b eqb a 0 []) (S fuel) [(0, n, 0, n)] []
  = Some [(0, 0, n)].
Proof.
  intros Hn Hflm.
  change (blocks_loop eqb a a (index_b eqb a 0 []) (S fuel) [(0, n, 0, n)] [])
    with (let '(i, j, k) := find_longest_match eqb a a (index_b eqb a 0 []) 0 n 0 n in
          if k =? 0 then blocks_loop eqb a a (index_b eqb a 0 []) fuel [] []
          else
            let queue1 := if (0 <? i) && (0 <? j) then [(0, i, 0, j)] else [] in
            let queue2 := if (i + k <? n) && (j + k <? n)
                          then (i + k, n, j + k, n) :: queue1 else queue1 in
            blocks_loop eqb a a (index_b eqb a 0 []) fuel queue2 ([] ++ [(i, j, k)])).
  rewrite Hflm.
  destruct (Nat.eqb_spec n 0) as [|_]; [lia|].
  rewrite Nat.ltb_irrefl. simpl andb. cbv iota zeta.
  rewrite Nat.ltb_irrefl. simpl andb. cbv iota.
  destruct fuel; reflexivity.
Qed.

Lemma get_opcodes_self :
  1 <= List.length a ->
  get_opcodes eqb a a (index_b eqb a 0 [])
  = Some [(Equal, 0, List.length a, 0, List.length a)].
Proof.
  intros Hn. unfold get_opcodes, get_matching_blocks.
  replace (2 * List.length a + 2) with (S (2 * List.length a + 1)) by lia.
  rewrite (blocks_loop_self _ Hn find_longest_match_self).
  destruct (List.length a) as [|n]; [lia|].
  cbn [sort insert_sorted collapse Nat.add Nat.eqb andb Nat.ltb Nat.leb app opcodes_loop].
  assert (E : match n with 0 => false | S m' => n <=? m' end = false)
    by (destruct n; [reflexivity|apply Nat.leb_gt; lia]).
  now rewrite E.
Qed.

End Identity.


(** ** Words, joins and slices *)

Lemma append_assoc (s1 s2 s3 : string) :
  ((s1 ++ s2) ++ s3)%string = (s1 ++ (s2 ++ s3))%string.
Proof. induction s1 as [|c s1 IH]; simpl; [reflexivity|now rewrite IH]. Qed.

Lemma join_cons sep w ws :
  ws <> [] -> Py.join sep (w :: ws) = (w ++ sep ++ Py.join sep ws)%string.
Proof. destruct ws; [congruence|reflexivity]. Qed.

Lemma join_app sep l1 l2 :
  l1 <> [] -> l2 <> [] ->
  Py.join sep (l1 ++ l2) = (Py.join sep l1 ++ sep ++ Py.join sep l2)%string.
Proof.
  intros H1 H2. induction l1 as [|w l1 IH]; [congruence|].
  destruct l1 as [|w' l1].
  - simpl app. now rewrite join_cons.
  - change ((w :: w' :: l1) ++ l2) with (w :: ((w' :: l1) ++ l2)).
    rewrite join_cons by discriminate. rewrite IH by discriminate.
    rewrite (join_cons sep w (ws := w' :: l1)) by discriminate.
    now rewrite !append_assoc.
Qed.

Lemma join_concat sep (groups : list (list string)) :
  Forall (fun g => g <> []) groups ->
  Py.join sep (map (Py.join sep) groups) = Py.join sep (List.concat groups).
Proof.
  induction 1 as [|g groups Hg Hgs IH]; [reflexivity|].
  destruct groups as [|g' groups].
  - simpl. now rewrite app_nil_r.
  - change (map (Py.join sep) (g :: g' :: groups))
      with (Py.join sep g :: map (Py.join sep) (g' :: groups)).
    rewrite join_cons by discriminate. rewrite IH.
    change (List.concat (g :: g' :: groups)) with (g ++ List.concat (g' :: groups)).
    rewrite join_app; auto.
    inversion Hgs; subst. simpl. destruct g'; [congruence|discriminate].
Qed.

Lemma firstn_plus {X : Type} (n m : nat) : forall l : list X,
  firstn (n + m) l = firstn n l ++ firstn m (skipn n l).
Proof.
  induction n as [|n IH]; intros l; [reflexivity|].
  destruct l as [|x l]; simpl; [now rewrite firstn_nil|now rewrite IH].
Qed.

Lemma slice_app {X : Type} (l : list X) i m i' :
  i <= m -> m <= i' -> Py.slice l i m ++ Py.slice l m i' = Py.slice l i i'.
Proof.
  unfold Py.slice. intros H1 H2.
  replace (i' - i) with ((m - i) + (i' - m)) by lia.
  rewrite firstn_plus. f_equal. rewrite skipn_skipn.
  now replace (m - i + i) with m by lia.
Qed.

Lemma slice_nonempty {X : Type} (l : list X) i1 i2 :
  i1 < i2 -> i2 <= List.length l -> Py.slice l i1 i2 <> [].
Proof.
  unfold Py.slice. intros H1 H2 E.
  apply (f_equal (@List.length X)) in E. rewrite length_firstn, length_skipn in E.
  simpl in E. lia.
Qed.

Lemma slice_all {X : Type} (l : list X) : Py.slice l 0 (List.length l) = l.
Proof. unfold Py.slice. rewrite Nat.sub_0_r. simpl. apply firstn_all. Qed.

Lemma slice_empty {X : Type} (l : list X) i : Py.slice l i i = [].
Proof. unfold Py.slice. now rewrite Nat.sub_diag. Qed.

(** ** The diff of two texts *)

(** For all sequences the matcher returns opcodes, and they tile both
    sequences in order with no two changes side by side. *)
Lemma sequence_matcher_opcodes_ok (A : Type) (eqb : A -> A -> bool)
    (eqb_eq : forall x y, eqb x y = true <-> x = y) autojunk (a b : list A) :
  exists ops,
    sequence_matcher_opcodes eqb autojunk a b = Some ops /\
    tiles a b 0 0 ops (List.length a) (List.length b) /\
    separated ops.
Proof.
  unfold sequence_matcher_opcodes.
  apply (@get_opcodes_ok A eqb eqb_eq a b (chain_b eqb autojunk b)).
  intros x j. apply (@chain_b_sound A eqb eqb_eq b autojunk x j).
Qed.

Lemma diff_step_app a b result op :
  Layered.diff_step a b result op = result ++ segments_of a b op.
Proof.
  destruct op as [[[[tag i1] i2] j1] j2]. unfold segments_of.
  destruct tag; simpl; rewrite <- ?app_assoc; reflexivity.
Qed.

Lemma fold_diff_step a b ops : forall acc,
  fold_left (Layered.diff_step a b) ops acc = acc ++ flat_map (segments_of a b) ops.
Proof.
  induction ops as [|op ops IH]; intros acc; simpl.
  - now rewrite app_nil_r.
  - rewrite IH, diff_step_app. now rewrite <- app_assoc.
Qed.

Lemma orig_contents a b ops :
  map Layered.content (filter orig_side (flat_map (segments_of a b) ops))
  = map (Py.join " ") (flat_map (a_group a) ops).
Proof.
  induction ops as [|[[[[tag i1] i2] j1] j2] ops IH]; [reflexivity|].
  simpl flat_map. rewrite filter_app, !map_app, IH. f_equal.
  destruct tag; reflexivity.
Qed.

Lemma new_contents a b ops : forall i j i' j',
  tiles a b i j ops i' j' ->
  map Layered.content (filter new_side (flat_map (segments_of a b) ops))
  = map (Py.join " ") (flat_map (b_group b) ops).
Proof.
  induction ops as [|[[[[tag i1] i2] j1] j2] ops IH]; intros i j i' j' Ht; [reflexivity|].
  simpl in Ht. destruct Ht as (-> & -> & H1 & H2 & Hok & Ht).
  simpl flat_map. rewrite filter_app, !map_app, (IH _ _ _ _ Ht). f_equal.
  destruct tag; try reflexivity.
  simpl in Hok. destruct Hok as (_ & _ & E). simpl. now rewrite E.
Qed.

Lemma groups_concat (a b : list string) ops : forall i j i' j',
  tiles a b i j ops i' j' ->
  i <= i' /\ j <= j' /\
  List.concat (flat_map (a_group a) ops) = Py.slice a i i' /\
  List.concat (flat_map (b_group b) ops) = Py.slice b j j' /\
  Forall (fun g => g <> []) (flat_map (a_group a) ops) /\
  Forall (fun g => g <> []) (flat_map (b_group b) ops).
Proof.
  induction ops as [|[[[[tag i1] i2] j1] j2] ops IH]; intros i j i' j' Ht.
  - destruct Ht as [-> ->]. simpl. rewrite !slice_empty. repeat split; auto.
  - simpl in Ht. destruct Ht as (-> & -> & H1 & H2 & Hok & Ht).
    destruct (IH _ _ _ _ Ht) as (L1 & L2 & C1 & C2 & F1 & F2).
    simpl flat_map. rewrite !concat_app, C1, C2.
    assert (Hi : i <= i2 /\ j <= j2) by (destruct tag; simpl in Hok; lia).
    repeat split; try lia.
    + destruct tag; simpl; rewrite ?app_nil_r; try (apply slice_app; lia).
      destruct Hok as [-> _]. reflexivity.
    + destruct tag; simpl; rewrite ?app_nil_r; try (apply slice_app; lia).
      destruct Hok as [_ ->]. reflexivity.
    + apply Forall_app; split; auto.
      destruct tag; simpl; repeat constructor; apply slice_nonempty; simpl in Hok; lia.
    + apply Forall_app; split; auto.
      destruct tag; simpl; repeat constructor; apply slice_nonempty; simpl in Hok; lia.
Qed.

Lemma compute_diff_flat original enhanced :
  exists ops,
    sequence_matcher_opcodes String.eqb false (Py.split original) (Py.split enhanced)
      = Some ops /\
    tiles (Py.split original) (Py.split enhanced) 0 0 ops
      (List.length (Py.split original)) (List.length (Py.split enhanced)) /\
    separated ops /\
    Layered.compute_diff original enhanced
      = Some (flat_map (segments_of (Py.split original) (Py.split enhanced)) ops).
Proof.
  destruct (@sequence_matcher_opcodes_ok string String.eqb String.eqb_eq false
              (Py.split original) (Py.split enhanced)) as (ops & E & Ht & Hs).
  exists ops. repeat split; auto.
  unfold Layered.compute_diff. rewrite E. now rewrite fold_diff_step.
Qed.

(** Both [compute_diff] functions return for all texts. *)
Lemma compute_diff_total original enhanced :
  (exists segments, Layered.compute_diff original enhanced = Some segments) /\
  (exists segments, Legacy.compute_diff original enhanced = Some segments).
Proof.
  split.
  - destruct (compute_diff_flat original enhanced) as (ops & _ & _ & _ & ->). eauto.
  - unfold Legacy.compute_diff.
    destruct (@sequence_matcher_opcodes_ok string String.eqb String.eqb_eq true
                (Py.split original) (Py.split enhanced)) as (ops & -> & _). eauto.
Qed.

(** C5, amended: for all texts, [compute_diff] returns segments; the
    contents of the unchanged and removed ones, in order and joined by
    single spaces, are the words of the original joined by single
    spaces, and those of the unchanged and added ones are the words of
    the enhanced text joined by single spaces. *)
Theorem diff_round_trip_words (original enhanced : string) :
  exists segments,
    Layered.compute_diff original enhanced = Some segments /\
    Py.join " " (map Layered.content (filter orig_side segments))
      = Py.join " " (Py.split original) /\
    Py.join " " (map Layered.content (filter new_side segments))
      = Py.join " " (Py.split enhanced).
Proof.
  destruct (compute_diff_flat original enhanced) as (ops & _ & Ht & _ & ->).
  eexists; split; [reflexivity|].
  destruct (@groups_concat _ _ _ _ _ _ _ Ht) as (_ & _ & C1 & C2 & F1 & F2).
  rewrite orig_contents, (@new_contents _ _ _ _ _ _ _ Ht), !join_concat, C1, C2,
    !slice_all; auto.
Qed.

Lemma chain_b_autojunk (b : list string) :
  List.length b < 200 \/
  (forall w, List.length (filter (String.eqb w) b) <= List.length b / 100 + 1) ->
  chain_b String.eqb true b = chain_b String.eqb false b.
Proof.
  intros H. unfold chain_b. rewrite andb_true_l, andb_false_l.
  destruct (Nat.leb_spec 200 (List.length b)) as [Hn|Hn]; [|reflexivity].
  destruct H as [H|H]; [lia|].
  now apply (@purge_popular_none string String.eqb String.eqb_eq).
Qed.

Lemma fold_diff_step_rename a b ops : forall acc,
  fold_left (Legacy.diff_step a b) ops (map rename acc)
  = map rename (fold_left (Layered.diff_step a b) ops acc).
Proof.
  induction ops as [|[[[[tag i1] i2] j1] j2] ops IH]; intros acc; [reflexivity|].
  simpl fold_left. rewrite <- IH. f_equal.
  destruct tag; simpl; rewrite !map_app; reflexivity.
Qed.

(** C10, amended: the legacy [compute_diff] returns the segments of the
    layered one with the tags and the text field renamed, when the
    enhanced text has fewer than 200 words or none of its words occurs
    more than a hundredth of their number plus one times. *)
Theorem diff_engines_agree (original enhanced : string) :
  List.length (Py.split enhanced) < 200 \/
  (forall w, List.length (filter (String.eqb w) (Py.split enhanced))
             <= List.length (Py.split enhanced) / 100 + 1) ->
  Legacy.compute_diff original enhanced
  = option_map (map rename) (Layered.compute_diff original enhanced).
Proof.
  intros H. unfold Legacy.compute_diff, Layered.compute_diff, sequence_matcher_opcodes.
  rewrite (@chain_b_autojunk _ H).
  destruct (get_opcodes String.eqb (Py.split original) (Py.split enhanced)
              (chain_b String.eqb false (Py.split enhanced))) as [ops|]; [|reflexivity].
  simpl. f_equal. apply (fold_diff_step_rename _ _ ops []).
Qed.

(** C10, amended, on the six words of the scenario. *)
Lemma diff_engines_agree_witness :
  List.length (Py.split "The feline sat on the rug") < 200 /\
  Legacy.compute_diff "The cat sat on the mat" "The feline sat on the rug"
  = option_map (map rename)
      (Layered.compute_diff "The cat sat on the mat" "The feline sat on the rug").
Proof.
  split; [vm_compute; lia|].
  apply (diff_engines_agree "The cat sat on the mat" "The feline sat on the rug").
  left. vm_compute. lia.
Defined.

(** C10 as stated fails: against 200 times the word [a], the legacy
    diff, which runs the matcher with its default [autojunk], drops
    [a] from its index and finds no match; the layered diff finds
    one. *)
Lemma diff_engines_differ :
  let original := "x a"%string in
  let enhanced := Py.join " " (repeat "a"%string 200) in
  Legacy.compute_diff original enhanced
  <> option_map (map rename) (Layered.compute_diff original enhanced).
Proof.
  intros original enhanced H.
  apply (f_equal (fun r => match r with Some l => List.length l | None => 0 end)) in H.
  vm_compute in H. discriminate.
Qed.

(** C7, amended: the diff of a text with itself is empty when the text
    has no word, and otherwise one unchanged segment that holds the
    words of the text joined by single spaces. *)
Theorem diff_identity_words (text : string) :
  Layered.compute_diff text text
  = Some match Py.split text with
         | [] => []
         | _ :: _ => [Layered.segment Layered.unchanged (Py.join " " (Py.split text))]
         end.
Proof.
  unfold Layered.compute_diff, sequence_matcher_opcodes, chain_b. rewrite andb_false_l.
  destruct (Py.split text) as [|w ws] eqn:E; [reflexivity|]. rewrite <- E.
  rewrite (@get_opcodes_self string String.eqb String.eqb_eq (Py.split text))
    by (rewrite E; simpl; lia).
  simpl. now rewrite slice_all.
Qed.

(** C7 as stated fails: a text of one space is not empty and its diff
    with itself has no segment; a text with two spaces between its
    words comes back with one. *)
Lemma diff_identity_fails_on_blank :
  Layered.compute_diff " " " " = Some [] /\
  Layered.compute_diff "a  b" "a  b"
  = Some [Layered.segment Layered.unchanged "a b"] /\
  "a b"%string <> "a  b"%string.
Proof. repeat split; try reflexivity. discriminate. Qed.

(** C5 as stated fails: concatenated, the segments of the original
    side of the diff of [a b] and [a c] give [ab], and those of the
    new side [ac]; and the segments of a text with two spaces between
    its words, joined by single spaces, do not give the text back. *)
Lemma diff_round_trip_fails :
  (exists segments,
     Layered.compute_diff "a b" "a c" = Some segments /\
     String.concat EmptyString (map Layered.content (filter orig_side segments))
       <> "a b"%string /\
     String.concat EmptyString (map Layered.content (filter new_side segments))
       <> "a c"%string) /\
  (exists segments,
     Layered.compute_diff "a  b" "a  b" = Some segments /\
     Py.join " " (map Layered.content (filter orig_side segments)) <> "a  b"%string).
Proof.
  split; eexists; (split; [reflexivity|]); [split|]; vm_compute; discriminate.
Qed.

(** C6: for every pair of texts the segments are those of the opcodes
    taken in order, the opcodes tile the words of both texts from
    first to last, no two opcodes that change something are
    neighbours, and a replacement contributes one removed segment
    followed by one added segment; the diff of [The cat sat on the mat]
    and [The feline sat on the rug] is unchanged [The], removed [cat],
    added [feline], unchanged [sat on the], removed [mat], added
    [rug]. *)
Theorem replacement_is_removed_then_added :
  (forall original enhanced : string,
     exists ops,
       sequence_matcher_opcodes String.eqb false (Py.split original) (Py.split enhanced)
         = Some ops /\
       tiles (Py.split original) (Py.split enhanced) 0 0 ops
         (List.length (Py.split original)) (List.length (Py.split enhanced)) /\
       separated ops /\
       Layered.compute_diff original enhanced
         = Some (flat_map (segments_of (Py.split original) (Py.split enhanced)) ops)) /\
  Layered.compute_diff "The cat sat on the mat" "The feline sat on the rug"
  = Some [Layered.segment Layered.unchanged "The";
          Layered.segment Layered.removed "cat";
          Layered.segment Layered.added "feline";
          Layered.segment Layered.unchanged "sat on the";
          Layered.segment Layered.removed "mat";
          Layered.segment Layered.added "rug"].
Proof. split; [apply compute_diff_flat|reflexivity]. Qed.


(** ** Words are not empty *)

Lemma append_nonempty (s : string) (c : ascii) :
  (s ++ String c EmptyString)%string <> EmptyString.
Proof. destruct s; discriminate. Qed.

Lemma split_go_nonempty s : forall cur,
  Forall (fun w => w <> EmptyString) (Py.split_go cur s).
Proof.
  induction s as [|c s IH]; intros cur; simpl.
  - destruct cur; constructor; [discriminate|constructor].
  - destruct (Py.isspace c).
    + destruct cur; [apply IH|]. constructor; [discriminate|apply IH].
    + apply IH.
Qed.

Lemma split_nonempty s : Forall (fun w => w <> EmptyString) (Py.split s).
Proof. apply split_go_nonempty. Qed.

Lemma join_nonempty sep ws :
  ws <> [] -> Forall (fun w => w <> EmptyString) ws -> Py.join sep ws <> EmptyString.
Proof.
  destruct ws as [|w ws]; [congruence|]. intros _ H. inversion H; subst.
  destruct ws; simpl; [assumption|]. destruct w; [congruence|discriminate].
Qed.

Lemma slice_Forall {X : Type} (P : X -> Prop) (l : list X) i1 i2 :
  Forall P l -> Forall P (Py.slice l i1 i2).
Proof.
  intros H. unfold Py.slice.
  rewrite <- (firstn_skipn i1 l) in H. apply Forall_app in H. destruct H as [_ H].
  rewrite <- (firstn_skipn (i2 - i1) (skipn i1 l)) in H. apply Forall_app in H. tauto.
Qed.

Lemma segments_of_nonempty (a b : list string) ops : forall i j i' j',
  Forall (fun w => w <> EmptyString) a ->
  Forall (fun w => w <> EmptyString) b ->
  tiles a b i j ops i' j' ->
  Forall (fun s => Layered.content s <> EmptyString) (flat_map (segments_of a b) ops).
Proof.
  induction ops as [|[[[[tag i1] i2] j1] j2] ops IH]; intros i j i' j' Ha Hb Ht;
    [constructor|].
  simpl in Ht. destruct Ht as (-> & -> & H1 & H2 & Hok & Ht).
  simpl flat_map. apply Forall_app. split; [|eapply IH; eauto].
  destruct tag; simpl in Hok; simpl; repeat constructor; simpl;
    apply join_nonempty; try (apply slice_nonempty; lia); now apply slice_Forall.
Qed.

(** X9: both diff engines return a list of segments for every pair of texts,
    and no segment of either list has an empty text. *)
Theorem diff_segments_are_not_empty (original enhanced : string) :
  (exists segments,
     Layered.compute_diff original enhanced = Some segments /\
     Forall (fun s => Layered.content s <> EmptyString) segments) /\
  (exists segments,
     Legacy.compute_diff original enhanced = Some segments /\
     Forall (fun s => Legacy.text s <> EmptyString) segments).
Proof.
  split.
  - destruct (compute_diff_flat original enhanced) as (ops & _ & Ht & _ & ->).
    eexists; split; [reflexivity|].
    eapply segments_of_nonempty; eauto using split_nonempty.
  - unfold Legacy.compute_diff.
    destruct (@sequence_matcher_opcodes_ok string String.eqb String.eqb_eq true
                (Py.split original) (Py.split enhanced)) as (ops & -> & Ht & _).
    eexists; split; [reflexivity|].
    rewrite (fold_diff_step_rename _ _ ops []). rewrite fold_diff_step. simpl app.
    apply Forall_map. simpl.
    eapply segments_of_nonempty; eauto using split_nonempty.
Qed.

(** ** The legacy diff *)

Lemma filter_rename_orig l :
  filter legacy_orig_side (map rename l) = map rename (filter orig_side l).
Proof.
  induction l as [|[t c] l IH]; [reflexivity|].
  destruct t; cbn; now rewrite IH.
Qed.

Lemma filter_rename_new l :
  filter legacy_new_side (map rename l) = map rename (filter new_side l).
Proof.
  induction l as [|[t c] l IH]; [reflexivity|].
  destruct t; cbn; now rewrite IH.
Qed.

Lemma text_rename l : map Legacy.text (map rename l) = map Layered.content l.
Proof. rewrite map_map. reflexivity. Qed.

Lemma legacy_compute_diff_flat original enhanced :
  exists ops,
    tiles (Py.split original) (Py.split enhanced) 0 0 ops
      (List.length (Py.split original)) (List.length (Py.split enhanced)) /\
    separated ops /\
    Legacy.compute_diff original enhanced
      = Some (map rename (flat_map (segments_of (Py.split original) (Py.split enhanced)) ops)).
Proof.
  unfold Legacy.compute_diff.
  destruct (@sequence_matcher_opcodes_ok string String.eqb String.eqb_eq true
              (Py.split original) (Py.split enhanced)) as (ops & -> & Ht & Hs).
  exists ops. repeat split; auto.
  rewrite (fold_diff_step_rename _ _ ops []). now rewrite fold_diff_step.
Qed.

(** X10: the legacy diff can be read back: the texts of its [equal] and
    [delete] segments, joined by one space, are the words of the original
    joined by one space, and those of its [equal] and [insert] segments are
    the words of the enhanced text. *)
Theorem legacy_diff_round_trip_words (original enhanced : string) :
  exists segments,
    Legacy.compute_diff original enhanced = Some segments /\
    Py.join " " (map Legacy.text (filter legacy_orig_side segments))
      = Py.join " " (Py.split original) /\
    Py.join " " (map Legacy.text (filter legacy_new_side segments))
      = Py.join " " (Py.split enhanced).
Proof.
  destruct (legacy_compute_diff_flat original enhanced) as (ops & Ht & _ & ->).
  eexists; split; [reflexivity|].
  destruct (@groups_concat _ _ _ _ _ _ _ Ht) as (_ & _ & C1 & C2 & F1 & F2).
  rewrite filter_rename_orig, filter_rename_new, !text_rename.
  rewrite orig_contents, (@new_contents _ _ _ _ _ _ _ Ht), !join_concat, C1, C2,
    !slice_all; auto.
Qed.

(** ** Texts without a common word *)

Section Unrelated.
Variable A : Type.
Variable eqb : A -> A -> bool.
Hypothesis eqb_eq : forall x y, eqb x y = true <-> x = y.
Variable a b : list A.
Variable b2j : b2j_t A.
Hypothesis b2j_sound : forall x j, In j (b2j_get eqb b2j x) -> nth_error b j = Some x.
Hypothesis unrelated : forall x, In x a -> In x b -> False.

Lemma find_longest_match_unrelated alo ahi blo bhi :
  alo <= ahi -> blo <= bhi ->
  snd (find_longest_match eqb a b b2j alo ahi blo bhi) = 0.
Proof.
  intros Ha Hb.
  pose proof (@find_longest_match_ok A eqb eqb_eq a b b2j b2j_sound alo ahi blo bhi Ha Hb) as H.
  destruct (find_longest_match eqb a b b2j alo ahi blo bhi) as [[i j] k]. simpl.
  destruct k as [|k]; [reflexivity|exfalso].
  destruct H as (_ & _ & _ & _ & H). specialize (H 0 ltac:(lia)).
  rewrite !Nat.add_0_r in H. unfold same_at in H.
  destruct (nth_error a i) as [x|] eqn:Ea; [|discriminate].
  destruct (nth_error b j) as [y|] eqn:Eb; [|discriminate].
  apply eqb_eq in H. subst y.
  apply (unrelated x); eapply nth_error_In; eauto.
Qed.

Lemma blocks_loop_nil fuel blocks :
  blocks_loop eqb a b b2j fuel [] blocks = Some blocks.
Proof. destruct fuel; reflexivity. Qed.

Lemma get_opcodes_unrelated :
  get_opcodes eqb a b b2j
  = Some (opcodes_from [(List.length a, List.length b, 0)] 0 0).
Proof.
  unfold get_opcodes, get_matching_blocks.
  replace (2 * List.length a + 2) with (S (2 * List.length a + 1)) by lia.
  cbn [blocks_loop].
  pose proof (@find_longest_match_unrelated 0 (List.length a) 0 (List.length b)
                ltac:(lia) ltac:(lia)) as H.
  destruct (find_longest_match eqb a b b2j 0 (List.length a) 0 (List.length b))
    as [[i j] k]. simpl in H. subst k. cbn [Nat.eqb].
  rewrite blocks_loop_nil.
  cbn [sort collapse Nat.ltb Nat.leb app].
  now rewrite opcodes_loop_from.
Qed.

End Unrelated.

Lemma unrelated_segments (a b : list string) :
  fold_left (Layered.diff_step a b)
    (opcodes_from [(List.length a, List.length b, 0)] 0 0) []
  = (match a with
     | [] => []
     | _ :: _ => [Layered.segment Layered.removed (Py.join " " a)]
     end)
    ++ (match b with
        | [] => []
        | _ :: _ => [Layered.segment Layered.added (Py.join " " b)]
        end).
Proof.
  rewrite fold_diff_step. pose proof (slice_all a) as Ha. pose proof (slice_all b) as Hb.
  destruct a as [|x a'], b as [|y b'];
    cbn [opcodes_from List.length Nat.ltb Nat.leb andb app flat_map segments_of] in *;
    rewrite ?Ha, ?Hb; reflexivity.
Qed.

(** X11: when the two texts have no word in common, the layered diff is the
    whole original as one [removed] segment followed by the whole enhanced
    text as one [added] segment, each left out when its text has no word. *)
Theorem diff_of_texts_without_common_word (original enhanced : string) :
  (forall w, In w (Py.split original) -> In w (Py.split enhanced) -> False) ->
  Layered.compute_diff original enhanced
  = Some ((match Py.split original with
           | [] => []
           | _ :: _ => [Layered.segment Layered.removed (Py.join " " (Py.split original))]
           end)
          ++ (match Py.split enhanced with
              | [] => []
              | _ :: _ => [Layered.segment Layered.added (Py.join " " (Py.split enhanced))]
              end)).
Proof.
  intros H. unfold Layered.compute_diff, sequence_matcher_opcodes.
  rewrite (@get_opcodes_unrelated string String.eqb String.eqb_eq
             (Py.split original) (Py.split enhanced)
             (chain_b String.eqb false (Py.split enhanced))).
  - now rewrite unrelated_segments.
  - intros x j. apply (@chain_b_sound string String.eqb String.eqb_eq _ false x j).
  - exact H.
Qed.

Lemma diff_of_texts_without_common_word_witness :
  Layered.compute_diff "The cat sat" "A dog ran off"
  = Some [Layered.segment Layered.removed "The cat sat";
          Layered.segment Layered.added "A dog ran off"].
Proof.
  apply (diff_of_texts_without_common_word "The cat sat" "A dog ran off").
  vm_compute. intros w [<-|[<-|[<-|[]]]] H; repeat destruct H as [H|H]; try discriminate H; exact H.
Defined.

(** ** Neighbouring segments *)

Lemma gapped_snoc l : forall x y,
  gapped (l ++ [x]) -> not_adjacent x y -> gapped (l ++ [x; y]).
Proof.
  induction l as [|z l IH]; intros x y H1 H2.
  - simpl. auto.
  - destruct l as [|z' l].
    + simpl in *. tauto.
    + change ((z :: z' :: l) ++ [x; y]) with (z :: ((z' :: l) ++ [x; y])).
      change ((z :: z' :: l) ++ [x]) with (z :: ((z' :: l) ++ [x])) in H1.
      simpl in H1. destruct H1 as [H1 H3]. specialize (IH x y H3 H2).
      simpl. simpl in IH. tauto.
Qed.

Lemma gapped_resize l : forall i j k k',
  gapped (l ++ [(i, j, k)]) -> gapped (l ++ [(i, j, k')]).
Proof.
  induction l as [|z l IH]; intros i j k k' H.
  - simpl. auto.
  - destruct l as [|z' l].
    + simpl in *. destruct z as [[zi zj] zk]. simpl in *. tauto.
    + change ((z :: z' :: l) ++ [(i, j, k)]) with (z :: ((z' :: l) ++ [(i, j, k)])) in H.
      change ((z :: z' :: l) ++ [(i, j, k')]) with (z :: ((z' :: l) ++ [(i, j, k')])).
      simpl in H. destruct H as [H1 H3]. specialize (IH i j k k' H3).
      simpl. simpl in IH. tauto.
Qed.

Lemma gapped_app_l l1 : forall l2, gapped (l1 ++ l2) -> gapped l1.
Proof.
  induction l1 as [|z l1 IH]; intros l2 H; [exact I|].
  destruct l1 as [|z' l1]; [exact I|].
  simpl in H. destruct H as [H1 H2]. split; [exact H1|]. apply (IH l2). exact H2.
Qed.

Lemma collapse_gapped : forall blocks cur na,
  Forall (fun m => 1 <= snd m) blocks ->
  1 <= snd cur \/ na = [] ->
  gapped (na ++ [cur]) ->
  gapped (flush (fst (collapse blocks cur na)) (snd (collapse blocks cur na))).
Proof.
  induction blocks as [|[[i2 j2] k2] blocks IH]; intros [[i1 j1] k1] na Hb Hk Hg.
  - simpl. destruct (Nat.ltb_spec 0 k1); [exact Hg|]. apply (gapped_app_l _ _ Hg).
  - inversion Hb as [|? ? Hk2 Hb']; subst. simpl in Hk2, Hk.
    simpl collapse.
    destruct (Nat.eqb_spec (i1 + k1) i2) as [Ei|Ei];
      [destruct (Nat.eqb_spec (j1 + k1) j2) as [Ej|Ej]|]; simpl andb; cbv iota.
    + apply IH; [exact Hb'|simpl; left; lia|].
      apply (gapped_resize _ _ _ _ _ Hg).
    + apply IH; [exact Hb'|simpl; left; lia|].
      destruct (Nat.ltb_spec 0 k1).
      * rewrite <- app_assoc. apply gapped_snoc; [exact Hg|]. simpl. right. exact Ej.
      * destruct Hk as [Hk| ->]; [lia|]. exact I.
    + apply IH; [exact Hb'|simpl; left; lia|].
      destruct (Nat.ltb_spec 0 k1).
      * rewrite <- app_assoc. apply gapped_snoc; [exact Hg|]. simpl. left. exact Ei.
      * destruct Hk as [Hk| ->]; [lia|]. exact I.
Qed.

Lemma opcodes_from_alternating : forall found last i j,
  Forall (fun m => 1 <= snd m) found ->
  snd last = 0 ->
  chain i j (found ++ [last]) ->
  gapped found ->
  alternating (opcodes_from (found ++ [last]) i j) /\
  (match found with
   | [] => True
   | (ai, bj, _) :: _ => i <> ai \/ j <> bj
   end ->
   match opcodes_from (found ++ [last]) i j with
   | op :: _ => is_equal op = false
   | [] => True
   end).
Proof.
  induction found as [|[[ai bj] size] found IH]; intros [[li lj] lk] i j Hf Hl Hc Hg.
  - simpl in Hl. subst lk. simpl.
    destruct ((i <? li) && (j <? lj)), (i <? li), (j <? lj); simpl; auto.
  - inversion Hf as [|? ? Hs Hf']; subst. simpl in Hs.
    simpl in Hc. destruct Hc as (C1 & C2 & C3).
    assert (Hg' : gapped found) by (destruct found; [exact I|simpl in Hg; tauto]).
    destruct (IH (li, lj, lk) (ai + size) (bj + size) Hf' Hl C3 Hg') as [A1 A2].
    assert (A3 : match opcodes_from (found ++ [(li, lj, lk)]) (ai + size) (bj + size) with
                 | op :: _ => is_equal op = false
                 | [] => True
                 end).
    { apply A2. destruct found as [|[[ci cj] ck] found]; [exact I|].
      simpl in Hg. tauto. }
    clear A2.
    change (opcodes_from (((ai, bj, size) :: found) ++ [(li, lj, lk)]) i j)
      with ((if (i <? ai) && (j <? bj) then [(Replace, i, ai, j, bj)]
             else if i <? ai then [(Delete, i, ai, j, bj)]
             else if j <? bj then [(Insert, i, ai, j, bj)]
             else [])
            ++ (if 0 <? size then [(Equal, ai, ai + size, bj, bj + size)] else [])
            ++ opcodes_from (found ++ [(li, lj, lk)]) (ai + size) (bj + size)).
    destruct (Nat.ltb_spec 0 size) as [_|]; [|lia].
    assert (He : alternating ((Equal, ai, ai + size, bj, bj + size)
                              :: opcodes_from (found ++ [(li, lj, lk)]) (ai + size) (bj + size))).
    { simpl. destruct (opcodes_from (found ++ [(li, lj, lk)]) (ai + size) (bj + size));
        [exact I|]. split; [|exact A1]. rewrite A3. discriminate. }
    destruct (Nat.ltb_spec i ai), (Nat.ltb_spec j bj); simpl andb; cbv iota; simpl app.
    + split; [|reflexivity]. split; [discriminate|exact He].
    + split; [|reflexivity]. split; [discriminate|exact He].
    + split; [|reflexivity]. split; [discriminate|exact He].
    + split; [exact He|]. intros [H'|H']; lia.
Qed.

Section Alternation.
Variable A : Type.
Variable eqb : A -> A -> bool.
Hypothesis eqb_eq : forall x y, eqb x y = true <-> x = y.
Variable a b : list A.
Variable b2j : b2j_t A.
Hypothesis b2j_sound : forall x j, In j (b2j_get eqb b2j x) -> nth_error b j = Some x.

Lemma get_matching_blocks_gapped :
  exists found,
    get_matching_blocks eqb a b b2j
      = Some (found ++ [(List.length a, List.length b, 0)]) /\
    Forall (block_ok eqb a b) found /\
    chain 0 0 (found ++ [(List.length a, List.length b, 0)]) /\
    gapped found.
Proof.
  destruct (@get_matching_blocks_ok A eqb eqb_eq a b b2j b2j_sound)
    as (found & E & Hf & Hc & _ & _).
  exists found. repeat split; auto.
  unfold get_matching_blocks in E.
  destruct (@blocks_loop_ok A eqb eqb_eq a b b2j b2j_sound (2 * List.length a + 2)
              [(0, List.length a, 0, List.length b)] [])
    as (found0 & E0 & Hf0 & _).
  - simpl. lia.
  - repeat constructor; simpl; lia.
  - constructor.
  - simpl. auto.
  - rewrite E0 in E.
    assert (Hs : Forall (fun m : Match => 1 <= snd m) (sort found0)).
    { eapply Permutation_Forall; [symmetry; apply sort_perm|].
      eapply Forall_impl; [|exact Hf0]. intros [[i j] k] [Hk _]. exact Hk. }
    pose proof (@collapse_gapped (sort found0) (0, 0, 0) [] Hs (or_intror eq_refl) I) as Hg.
    destruct (collapse (sort found0) (0, 0, 0) []) as [na [[i1 j1] k1]] eqn:Ec.
    injection E as E. apply app_inv_tail in E. subst found.
    exact (eq_ind _ (fun X => gapped (flush (fst X) (snd X))) Hg _ Ec).
Qed.

Lemma get_opcodes_alternating :
  exists ops,
    get_opcodes eqb a b b2j = Some ops /\
    tiles a b 0 0 ops (List.length a) (List.length b) /\
    alternating ops.
Proof.
  destruct (@get_opcodes_ok A eqb eqb_eq a b b2j b2j_sound) as (ops & E & Ht & _).
  exists ops. repeat split; auto.
  destruct get_matching_blocks_gapped as (found & Eb & Hf & Hc & Hg).
  unfold get_opcodes in E. rewrite Eb in E. injection E as <-.
  rewrite opcodes_loop_from. simpl app.
  apply opcodes_from_alternating; auto.
  eapply Forall_impl; [|exact Hf]. intros [[i j] k] [Hk _]. exact Hk.
Qed.

End Alternation.

Lemma segments_adjacent_differ (a b : list string) ops :
  alternating ops ->
  adjacent_differ (flat_map (segments_of a b) ops).
Proof.
  induction ops as [|[[[[tag i1] i2] j1] j2] ops IH]; intros H; [exact I|].
  destruct ops as [|[[[[tag' i1'] i2'] j1'] j2'] ops].
  - destruct tag; simpl; auto. split; [discriminate|exact I].
  - simpl in H. destruct H as [H1 H2]. specialize (IH H2).
    change (flat_map (segments_of a b)
              ((tag, i1, i2, j1, j2) :: (tag', i1', i2', j1', j2') :: ops))
      with (segments_of a b (tag, i1, i2, j1, j2)
            ++ flat_map (segments_of a b) ((tag', i1', i2', j1', j2') :: ops)).
    change (flat_map (segments_of a b) ((tag', i1', i2', j1', j2') :: ops))
      with (segments_of a b (tag', i1', i2', j1', j2')
            ++ flat_map (segments_of a b) ops) in *.
    destruct tag, tag'; simpl in H1; try congruence; simpl in *;
      repeat split; try discriminate; tauto.
Qed.

(** X12: no two segments of the layered diff that follow one another have
    the same type: runs of equal words, of removed words and of added words
    are never split. *)
Theorem diff_neighbours_differ (original enhanced : string) :
  exists segments,
    Layered.compute_diff original enhanced = Some segments /\
    adjacent_differ segments.
Proof.
  destruct (@get_opcodes_alternating string String.eqb String.eqb_eq
              (Py.split original) (Py.split enhanced)
              (chain_b String.eqb false (Py.split enhanced)))
    as (ops & E & _ & Ha).
  - intros x j. apply (@chain_b_sound string String.eqb String.eqb_eq _ false x j).
  - unfold Layered.compute_diff, sequence_matcher_opcodes. rewrite E.
    eexists; split; [reflexivity|]. rewrite fold_diff_step. simpl app.
    now apply segments_adjacent_differ.
Qed.


(** ** Personas *)

(** X16: the two variants know the same personas: a key is a persona of the
    legacy table exactly when it is the value of a member of the layered
    enumeration, and exactly when the layered prompt table has an entry
    for it. *)
Theorem persona_sets_agree :
  (forall p, Layered.PersonaEnum_of (Layered.PersonaEnum_value p) = Some p) /\
  (forall key,
     option_map Layered.PersonaEnum_value (Layered.PersonaEnum_of key)
     = if Legacy.in_PERSONAS key then Some key else None) /\
  (forall key,
     Legacy.in_PERSONAS key
     = match Layered.prompts_lookup Layered.PERSONA_PROMPTS key with
       | Some _ => true
       | None => false
       end).
Proof.
  split; [intros []; reflexivity|]. split; intros key.
  - cbv beta iota zeta delta [Layered.PersonaEnum_of Layered.PersonaEnum_members
      Layered.PersonaEnum_value find Legacy.in_PERSONAS Legacy.personas_lookup
      Legacy.PERSONAS option_map].
    repeat match goal with
      | |- context [String.eqb ?s key] =>
          destruct (String.eqb_spec s key) as [<-|?]; [reflexivity|]
      end.
    reflexivity.
  - cbv beta iota zeta delta [Layered.prompts_lookup Layered.PERSONA_PROMPTS
      Legacy.in_PERSONAS Legacy.personas_lookup Legacy.PERSONAS].
    repeat match goal with
      | |- context [String.eqb ?s key] => destruct (String.eqb s key); [reflexivity|]
      end.
    reflexivity.
Qed.

(** ** File names *)

Lemma after_last_dot_no_dot s : forall found,
  has_dot s = false -> Legacy.after_last_dot s found = found.
Proof.
  induction s as [|c s IH]; intros found; [reflexivity|].
  unfold has_dot. simpl. intros H. apply orb_false_elim in H. destruct H as [H1 H2].
  rewrite H1. apply IH. exact H2.
Qed.

Lemma after_last_dot_app name ext : forall found,
  has_dot ext = false ->
  Legacy.after_last_dot (name ++ String "." ext) found = Some ext.
Proof.
  induction name as [|c name IH]; intros found H; simpl.
  - apply after_last_dot_no_dot. exact H.
  - destruct (Ascii.eqb c "."); apply IH; exact H.
Qed.

(** X17: an upload is judged by what follows its last dot, whatever the case
    of the letters: [name.ext] is allowed exactly when the lowered [ext] is
    one of the allowed extensions, and a name without a dot is refused. *)
Theorem allowed_file_reads_last_extension (name ext : string) :
  has_dot ext = false ->
  Legacy.allowed_file (name ++ String "." ext)
  = existsb (String.eqb (Py.lower ext)) Legacy.ALLOWED_EXTENSIONS /\
  Legacy.allowed_file ext = false.
Proof.
  intros H. unfold Legacy.allowed_file.
  rewrite (@after_last_dot_app name ext None H), (@after_last_dot_no_dot ext None H). auto.
Qed.

Lemma allowed_file_reads_last_extension_witness :
  Legacy.allowed_file "story.final.PDF" = true /\
  Legacy.allowed_file "PDF" = false.
Proof.
  apply (@allowed_file_reads_last_extension "story.final" "PDF"). reflexivity.
Defined.


(** ** Themes *)

Lemma insert_by_score_perm x l : Permutation (Nlp.insert_by_score x l) (x :: l).
Proof.
  induction l as [|y l IH]; simpl; [auto|].
  destruct (snd y <=? snd x); [auto|]. rewrite IH. apply perm_swap.
Qed.

Lemma sort_by_score_perm l : Permutation (Nlp.sort_by_score l) l.
Proof.
  induction l as [|x l IH]; simpl; [auto|].
  rewrite insert_by_score_perm. now constructor.
Qed.

Lemma insert_by_score_sorted x l :
  StronglySorted (fun a b => snd b <= snd a) l ->
  StronglySorted (fun a b => snd b <= snd a) (Nlp.insert_by_score x l).
Proof.
  induction 1 as [|y l Hs IH Hy]; simpl.
  - repeat constructor.
  - destruct (Nat.leb_spec (snd y) (snd x)) as [Hle|Hgt].
    + constructor; [constructor; auto|]. constructor; [exact Hle|].
      eapply Forall_impl; [|exact Hy]. simpl. intros; lia.
    + constructor; [exact IH|].
      eapply Permutation_Forall; [symmetry; apply insert_by_score_perm|].
      constructor; [lia|exact Hy].
Qed.

Lemma sort_by_score_sorted l :
  StronglySorted (fun a b => snd b <= snd a) (Nlp.sort_by_score l).
Proof.
  induction l as [|x l IH]; simpl; [constructor|]. now apply insert_by_score_sorted.
Qed.

Lemma firstn_sorted {X : Type} (R : X -> X -> Prop) n : forall l,
  StronglySorted R l -> StronglySorted R (firstn n l).
Proof.
  induction n as [|n IH]; intros l H; [constructor|].
  destruct l as [|x l]; [constructor|]. inversion H; subst. simpl.
  constructor; [now apply IH|].
  rewrite <- (firstn_skipn n l) in H3. apply Forall_app in H3. tauto.
Qed.

Lemma firstn_NoDup {X : Type} n : forall l : list X, NoDup l -> NoDup (firstn n l).
Proof.
  intros l H. rewrite <- (firstn_skipn n l) in H. now apply NoDup_app_remove_r in H.
Qed.

Lemma firstn_Forall {X : Type} (P : X -> Prop) n (l : list X) :
  Forall P l -> Forall P (firstn n l).
Proof.
  intros H. rewrite <- (firstn_skipn n l) in H. apply Forall_app in H. tauto.
Qed.

Lemma filter_map_fst_NoDup {X Y : Type} (f : X * Y -> bool) (l : list (X * Y)) :
  NoDup (map fst l) -> NoDup (map fst (filter f l)).
Proof.
  induction l as [|x l IH]; simpl; [auto|]. intros H. inversion H; subst.
  destruct (f x); simpl; [|auto]. constructor; [|auto].
  intros Hin. apply H2. apply in_map_iff in Hin. destruct Hin as (y & Hy & Hin).
  apply filter_In in Hin. apply in_map_iff. exists y. tauto.
Qed.

Lemma found_themes_ok text :
  NoDup (map fst (Nlp.found_themes text)) /\
  Forall (fun ts => In (fst ts) (map fst Nlp.theme_keywords) /\
                    snd ts = theme_score text (fst ts) /\ 2 <= snd ts)
         (Nlp.found_themes text).
Proof.
  unfold Nlp.found_themes. split.
  - apply filter_map_fst_NoDup. rewrite map_map. simpl.
    repeat constructor; simpl; intuition discriminate.
  - apply Forall_forall. intros [name sc] Hin. apply filter_In in Hin.
    destruct Hin as [Hin Hsc]. cbn [snd] in Hsc. apply Nat.leb_le in Hsc.
    apply in_map_iff in Hin. destruct Hin as ([name' kws] & E & Hin).
    injection E as <- <-. simpl fst in *. simpl snd in *.
    split; [apply in_map_iff; exists (name', kws); auto|]. split; [|exact Hsc].
    unfold theme_score.
    simpl in Hin.
    repeat (destruct Hin as [Hin|Hin]; [injection Hin as <- <-; reflexivity|]).
    destruct Hin.
Qed.

(** X20: the keyword heuristic returns at most five themes, without
    repetition, each one of the eight known themes with a score of at
    least 2, the higher scores first. *)
Theorem themes_heuristic_is_bounded (text : string) :
  let themes := Nlp.extract_themes_heuristic text in
  List.length themes <= 5 /\
  NoDup themes /\
  incl themes (map fst Nlp.theme_keywords) /\
  Forall (fun t => 2 <= theme_score text t) themes /\
  StronglySorted (fun t1 t2 => theme_score text t2 <= theme_score text t1) themes.
Proof.
  intros themes. unfold themes, Nlp.extract_themes_heuristic.
  destruct (found_themes_ok text) as [Hnd HF].
  pose proof (sort_by_score_perm (Nlp.found_themes text)) as Hp.
  set (sorted := Nlp.sort_by_score (Nlp.found_themes text)) in *.
  assert (HF' : Forall (fun ts => In (fst ts) (map fst Nlp.theme_keywords) /\
                                  snd ts = theme_score text (fst ts) /\ 2 <= snd ts)
                       (firstn 5 sorted)).
  { apply firstn_Forall. eapply Permutation_Forall; [symmetry; exact Hp|exact HF]. }
  repeat split.
  - rewrite length_map, length_firstn. lia.
  - rewrite <- firstn_map. apply firstn_NoDup.
    eapply Permutation_NoDup; [|exact Hnd]. apply Permutation_map. now symmetry.
  - intros t Ht. apply in_map_iff in Ht. destruct Ht as (ts & <- & Hin).
    rewrite Forall_forall in HF'. now apply HF'.
  - apply Forall_map. eapply Forall_impl; [|exact HF']. simpl. intros ts (_ & <- & H). exact H.
  - assert (Hs : StronglySorted (fun a b => snd b <= snd a) (firstn 5 sorted))
      by (apply firstn_sorted, sort_by_score_sorted).
    revert Hs HF'. generalize (firstn 5 sorted). intros l.
    induction 1 as [|x l Hs IH Hx]; intros HF'; simpl; [constructor|].
    inversion HF' as [|? ? (_ & Ex & _) HF'']; subst. constructor; [now apply IH|].
    apply Forall_map. rewrite Forall_forall in *. intros y Hy.
    destruct (HF'' y Hy) as (_ & Ey & _). rewrite <- Ex, <- Ey. now apply Hx.
Qed.

Example themes_of_a_quarrel :
  Nlp.extract_themes_heuristic
    "They fight. A friend and a Friend fight the enemy: love and war, love."
  = ["Conflict"; "Friendship"; "Love"]%string.
Proof. vm_compute. reflexivity. Qed.


(** ** Fenced answers *)

Section FencedAnswers.
Import LegacyAI.

Lemma sub_fences_plain s :
  has_backtick s = false -> sub_fences s 0 = s.
Proof.
  unfold has_backtick. induction s as [|c s IH]; [reflexivity|].
  cbn [list_ascii_of_string existsb]. intros H. apply orb_false_elim in H.
  destruct H as [H1 H2]. unfold is_backtick in H1.
  cbn [sub_fences starts_with]. rewrite Ascii.eqb_sym, H1. cbn [andb].
  now rewrite (IH H2).
Qed.

Lemma replace_fences_plain s :
  has_backtick s = false -> replace_fences s 0 = s.
Proof.
  unfold has_backtick. induction s as [|c s IH]; [reflexivity|].
  cbn [list_ascii_of_string existsb]. intros H. apply orb_false_elim in H.
  destruct H as [H1 H2]. unfold is_backtick in H1.
  cbn [replace_fences starts_with]. rewrite Ascii.eqb_sym, H1. cbn [andb].
  now rewrite (IH H2).
Qed.

Lemma sub_fences_closing s :
  has_backtick s = false -> sub_fences (s ++ "```") 0 = s.
Proof.
  unfold has_backtick. induction s as [|c s IH]; [reflexivity|].
  cbn [list_ascii_of_string existsb]. intros H. apply orb_false_elim in H.
  destruct H as [H1 H2]. unfold is_backtick in H1.
  cbn [append sub_fences starts_with]. rewrite Ascii.eqb_sym, H1. cbn [andb].
  now rewrite (IH H2).
Qed.

Lemma starts_with_cons p prefix c s :
  starts_with (String p prefix) (String c s) = Ascii.eqb p c && starts_with prefix s.
Proof. reflexivity. Qed.

Lemma sub_fences_opening rest :
  starts_with "json" rest = false ->
  sub_fences ("```" ++ rest) 0 = sub_fences rest 0.
Proof.
  intros H.
  change (sub_fences ("```" ++ rest) 0)
    with (if starts_with "```json" ("```" ++ rest) then sub_fences ("``" ++ rest) 6
          else if starts_with "```" ("```" ++ rest) then sub_fences rest 0
          else String "`" (sub_fences ("``" ++ rest) 0)).
  change ("```" ++ rest)%string with (String "`" (String "`" (String "`" rest))).
  change "```json"%string with (String "`" (String "`" (String "`" "json"))).
  change "```"%string with (String "`" (String "`" (String "`" EmptyString))).
  rewrite !starts_with_cons, !Ascii.eqb_refl, H. reflexivity.
Qed.

Lemma sub_fences_opening_json rest :
  sub_fences ("```json" ++ rest) 0 = sub_fences rest 0.
Proof.
  change (sub_fences ("```json" ++ rest) 0)
    with (if starts_with "```json" ("```json" ++ rest) then sub_fences rest 0
          else if starts_with "```" ("```json" ++ rest) then sub_fences ("json" ++ rest) 0
          else String "`" (sub_fences ("``json" ++ rest) 0)).
  reflexivity.
Qed.

(** X22: cleaning an answer of the model that holds no backtick only strips
    it; the same answer wrapped in a [json] fence, or in a plain fence when
    it does not itself start with [json], cleans to the same text. *)
Theorem fenced_answer_is_unwrapped (body : string) :
  has_backtick body = false ->
  clean body = Py.strip body /\
  clean ("```json" ++ body ++ "```") = Py.strip body /\
  (starts_with "json" body = false -> clean ("```" ++ body ++ "```") = Py.strip body).
Proof.
  intros H. unfold clean. repeat split.
  - now rewrite (sub_fences_plain _ H), (replace_fences_plain _ H).
  - now rewrite sub_fences_opening_json, (sub_fences_closing _ H),
      (replace_fences_plain _ H).
  - intros Hj. rewrite sub_fences_opening.
    + now rewrite (sub_fences_closing _ H), (replace_fences_plain _ H).
    + revert Hj. clear H.
      destruct body as [|c1 [|c2 [|c3 [|c4 body]]]]; cbn [append starts_with];
        repeat match goal with
          | |- context [Ascii.eqb ?a ?b] =>
              first [ is_var b; destruct (Ascii.eqb a b)
                    | change (Ascii.eqb a b) with false ]
          end; cbn [andb]; auto.
Qed.

Lemma fenced_answer_is_unwrapped_witness :
  clean "{}" = "{}"%string /\
  clean "```json{}```" = "{}"%string /\
  clean "```{}```" = "{}"%string.
Proof.
  destruct (@fenced_answer_is_unwrapped "{}" eq_refl) as (H1 & H2 & H3).
  split; [exact H1|]. split; [exact H2|]. apply H3. reflexivity.
Defined.


End FencedAnswers.

(** ** The legacy graph *)

Section LegacyGraphProofs.
Import LegacyGraph.

Lemma node_ids_of_app nodes1 nodes2 :
  Layered.node_ids_of (nodes1 ++ nodes2)
  = Layered.node_ids_of nodes1 ++ Layered.node_ids_of nodes2.
Proof.
  induction nodes1 as [|n nodes1 IH]; [reflexivity|]. simpl.
  destruct (Layered.node_id n); simpl; now rewrite IH.
Qed.

Lemma map_lookup_none m name :
  map_lookup m name = None -> Forall (fun k => key_eqb k name = false) (map fst m).
Proof.
  induction m as [|[k v] m IH]; simpl; [constructor|].
  destruct (key_eqb k name) eqn:E; [discriminate|]. intros H. constructor; auto.
Qed.

Lemma map_lookup_some m name v : map_lookup m name = Some v -> In v (map snd m).
Proof.
  induction m as [|[k v'] m IH]; simpl; [discriminate|].
  destruct (key_eqb k name).
  - intros H. injection H as ->. now left.
  - intros H. right. now apply IH.
Qed.

Lemma add_node_ok nodes m name node_type extra nodes' m' :
  nodes_ok nodes m ->
  add_node nodes m name node_type extra = Ok (nodes', m') ->
  nodes_ok nodes' m'.
Proof.
  intros (H1 & H2 & H3 & H4). unfold add_node, map_get.
  destruct (hashable name); [|discriminate].
  destruct (map_lookup m name) eqn:El.
  - intros H. injection H as <- <-. repeat split; auto.
  - intros H. injection H as <- <-.
    assert (Hlen : List.length m = List.length nodes).
    { apply (f_equal (@List.length string)) in H2.
      now rewrite !length_map, length_seq in H2. }
    repeat split.
    + rewrite node_ids_of_app, map_app, H1. reflexivity.
    + rewrite length_app, map_app. simpl List.length.
      rewrite Nat.add_1_r, seq_S, map_app, H2. reflexivity.
    + rewrite !map_app, H3. reflexivity.
    + rewrite map_app. apply pairwise_app. split; [exact H4|]. split; [simpl; auto|].
      apply map_lookup_none in El. eapply Forall_impl; [|exact El].
      intros k Hk. constructor; [exact Hk|constructor].
Qed.

Lemma add_characters_ok items : forall nodes m nodes' m',
  nodes_ok nodes m ->
  add_characters nodes m items = Ok (nodes', m') ->
  nodes_ok nodes' m'.
Proof.
  induction items as [|c items IH]; intros nodes m nodes' m' Hok; simpl.
  - intros H. injection H as <- <-. exact Hok.
  - destruct c as [| | | | |d]; try discriminate. cbn [getitem get].
    destruct (dict_lookup d "name") as [name|]; [|discriminate].
    destruct (add_node nodes m name "character" _) as [[nodes1 m1]|] eqn:Ea; [|discriminate].
    apply IH. eapply add_node_ok; eauto.
Qed.

Lemma add_described_ok node_type items : forall nodes m nodes' m',
  nodes_ok nodes m ->
  add_described node_type nodes m items = Ok (nodes', m') ->
  nodes_ok nodes' m'.
Proof.
  induction items as [|l items IH]; intros nodes m nodes' m' Hok; simpl.
  - intros H. injection H as <- <-. exact Hok.
  - destruct l as [| | | | |d]; try discriminate. cbn [getitem get].
    destruct (dict_lookup d "name") as [name|]; [|discriminate].
    destruct (add_node nodes m name node_type _) as [[nodes1 m1]|] eqn:Ea; [|discriminate].
    apply IH. eapply add_node_ok; eauto.
Qed.

Lemma add_themes_ok items : forall nodes m nodes' m',
  nodes_ok nodes m ->
  add_themes nodes m items = Ok (nodes', m') ->
  nodes_ok nodes' m'.
Proof.
  induction items as [|t items IH]; intros nodes m nodes' m' Hok; simpl.
  - intros H. injection H as <- <-. exact Hok.
  - destruct (add_node nodes m t "theme" _) as [[nodes1 m1]|] eqn:Ea; [|discriminate].
    apply IH. eapply add_node_ok; eauto.
Qed.

Lemma map_get_some m name v : map_get m name = Ok (Some v) -> In v (map snd m).
Proof.
  unfold map_get. destruct (hashable name); [|discriminate].
  intros H. injection H as H. now apply map_lookup_some in H.
Qed.

Lemma found_id_some v s : found_id v = Some s -> v = Some s.
Proof.
  destruct v as [s'|]; simpl; [|discriminate].
  destruct (String.eqb s' EmptyString); [discriminate|auto].
Qed.

Lemma existsb_In s ids : In s ids -> existsb (String.eqb s) ids = true.
Proof.
  intros H. apply existsb_exists. exists s. split; [exact H|apply String.eqb_refl].
Qed.

Lemma add_edges_ok m ids rels : forall i edges edges',
  (forall v, In v (map snd m) -> In v ids) ->
  forallb (endpoints_known ids) edges = true ->
  add_edges m i rels edges = Ok edges' ->
  forallb (endpoints_known ids) edges' = true.
Proof.
  induction rels as [|rel rels IH]; intros i edges edges' Hm He; simpl.
  - intros H. injection H as <-. exact He.
  - destruct rel as [| | | | |d]; try discriminate. cbn [getitem get].
    destruct (dict_lookup d "from") as [from|]; [|discriminate].
    destruct (map_get m from) as [src|] eqn:Es; [|discriminate].
    destruct (dict_lookup d "to") as [to|]; [|discriminate].
    destruct (map_get m to) as [tgt|] eqn:Et; [|discriminate].
    destruct (found_id src) as [s|] eqn:Fs; [|now apply IH].
    destruct (found_id tgt) as [t|] eqn:Ft; [|now apply IH].
    destruct (dict_lookup d "type") as [label|]; [|discriminate].
    apply IH; [exact Hm|].
    rewrite forallb_app, He. simpl. rewrite andb_true_r.
    apply found_id_some in Fs, Ft. subst src tgt.
    apply map_get_some in Es, Et.
    unfold endpoints_known. simpl.
    now rewrite (existsb_In _ _ (Hm _ Es)), (existsb_In _ _ (Hm _ Et)).
Qed.

Lemma react_flow_graph_parts entities relationships graph :
  react_flow_graph entities relationships = Ok graph ->
  exists nodes m rels edges,
    nodes_ok nodes m /\
    add_edges m 0 rels [] = Ok edges /\
    getitem graph "nodes" = Ok (JList nodes) /\
    getitem graph "edges" = Ok (JList edges).
Proof.
  unfold react_flow_graph.
  destruct (items_of entities "characters") as [characters|]; [|discriminate].
  destruct (add_characters [] [] characters) as [[nodes1 m1]|] eqn:E1; [|discriminate].
  destruct (items_of entities "locations") as [locations|]; [|discriminate].
  destruct (add_described "location" nodes1 m1 locations) as [[nodes2 m2]|] eqn:E2;
    [|discriminate].
  destruct (items_of entities "organizations") as [organizations|]; [|discriminate].
  destruct (add_described "organization" nodes2 m2 organizations) as [[nodes3 m3]|] eqn:E3;
    [|discriminate].
  destruct (items_of entities "themes") as [themes|]; [|discriminate].
  destruct (add_themes nodes3 m3 themes) as [[nodes m]|] eqn:E4; [|discriminate].
  destruct (items_of relationships "relationships") as [rels|]; [|discriminate].
  destruct (add_edges m 0 rels []) as [edges|] eqn:E5; [|discriminate].
  destruct (get relationships "relationships" (JList [])) as [rl|];
    destruct (count_of entities "characters") as [c1|];
    destruct (count_of entities "locations") as [c2|];
    destruct (count_of entities "themes") as [c3|];
    destruct (count_of relationships "relationships") as [c4|]; try discriminate.
  intros H. injection H as <-.
  exists nodes, m, rels, edges. split; [|repeat split; auto].
  assert (H0 : nodes_ok [] []) by (repeat split; simpl; auto).
  pose proof (@add_characters_ok _ _ _ _ _ H0 E1) as K1.
  pose proof (@add_described_ok _ _ _ _ _ _ K1 E2) as K2.
  pose proof (@add_described_ok _ _ _ _ _ _ K2 E3) as K3.
  exact (@add_themes_ok _ _ _ _ _ K3 E4).
Qed.

(** X18: whenever the legacy graph builder returns, every edge of the graph
    joins two of its nodes: a relationship that names an unknown entity is
    left out. *)
Theorem legacy_graph_edges_join_nodes entities relationships graph :
  react_flow_graph entities relationships = Ok graph ->
  edge_integrity graph = true.
Proof.
  intros H. destruct (@react_flow_graph_parts _ _ _ H)
    as (nodes & m & rels & edges & (H1 & _) & He & Gn & Ge).
  unfold edge_integrity. rewrite Gn, Ge.
  apply (@add_edges_ok m (Layered.node_ids_of nodes) rels 0 [] edges); auto.
  intros v Hv. now rewrite H1.
Qed.

Lemma str_of_nat_inj a b : str_of_nat a = str_of_nat b -> a = b.
Proof.
  unfold str_of_nat. intros H.
  apply (f_equal NilEmpty.uint_of_string) in H. rewrite !NilEmpty.usu in H.
  injection H as H. apply (f_equal Nat.of_uint) in H.
  now rewrite !Unsigned.of_to in H.
Qed.

Lemma numbered_NoDup n : NoDup (map numbered (seq 0 n)).
Proof.
  apply Finite.Injective_map_NoDup; [|apply seq_NoDup].
  intros a b H. unfold numbered in H. simpl in H.
  injection H as H. now apply str_of_nat_inj.
Qed.

(** X19: the nodes of the legacy graph are numbered [node_0], [node_1], ... in
    the order they are listed, so no id occurs twice, and no two nodes
    carry the same label. *)
Theorem legacy_graph_nodes_are_numbered entities relationships graph :
  react_flow_graph entities relationships = Ok graph ->
  exists nodes labels,
    getitem graph "nodes" = Ok (JList nodes) /\
    Layered.node_ids_of nodes = map numbered (seq 0 (List.length nodes)) /\
    NoDup (Layered.node_ids_of nodes) /\
    map node_label nodes = map Some labels /\
    pairwise (fun x y => key_eqb x y = false) labels.
Proof.
  intros H. destruct (@react_flow_graph_parts _ _ _ H)
    as (nodes & m & rels & edges & (H1 & H2 & H3 & H4) & He & Gn & Ge).
  exists nodes, (map fst m). repeat split; auto.
  - congruence.
  - rewrite H1, H2. apply numbered_NoDup.
  - rewrite H3. now rewrite map_map.
Qed.

Lemma legacy_graph_edges_join_nodes_witness :
  exists graph,
    react_flow_graph sample_entities sample_relationships = Ok graph /\
    getitem graph "edges"
    = Ok (JList [JDict [("id", JStr "edge_0"); ("source", JStr "node_0");
                        ("target", JStr "node_1"); ("label", JStr "Friend");
                        ("data", JDict [("description", JStr EmptyString)])];
                 JDict [("id", JStr "edge_2"); ("source", JStr "node_1");
                        ("target", JStr "node_2"); ("label", JStr "Visits");
                        ("data", JDict [("description", JStr EmptyString)])]]%string) /\
    edge_integrity graph = true.
Proof.
  eexists. split; [vm_compute; reflexivity|]. split; [reflexivity|].
  apply (@legacy_graph_edges_join_nodes sample_entities sample_relationships).
  vm_compute. reflexivity.
Defined.

Lemma legacy_graph_nodes_are_numbered_witness :
  exists graph,
    react_flow_graph sample_entities sample_relationships = Ok graph /\
    exists nodes labels,
      getitem graph "nodes" = Ok (JList nodes) /\
      Layered.node_ids_of nodes = map numbered (seq 0 (List.length nodes)) /\
      NoDup (Layered.node_ids_of nodes) /\
      map node_label nodes = map Some labels /\
      pairwise (fun x y => key_eqb x y = false) labels.
Proof.
  eexists. split; [vm_compute; reflexivity|].
  apply (@legacy_graph_nodes_are_numbered sample_entities sample_relationships).
  vm_compute. reflexivity.
Defined.


End LegacyGraphProofs.

Local Open Scope Z_scope.

(** ** The debit comes first *)

Lemma reserve_first_nil user cost : reserve_first user cost [].
Proof. intros [|? ?] ? ? H; discriminate. Qed.

Lemma reserve_first_debit user cost rest :
  reserve_first user cost (BalanceInc user (- cost) :: rest).
Proof.
  intros [|e before] m after H; [discriminate|].
  injection H as <- _. now left.
Qed.

Ltac mcbn :=
  cbv beta iota zeta delta [bind ret raise attempt lift negb andb orb
       Legacy.handle Legacy.cost Legacy.accepts Legacy.short_of Legacy.text_of
       Legacy.persona_enhance Legacy.consistency_check Legacy.structure_check
       Legacy.character_evolution Legacy.deep_scan Legacy.generate_mindmap_route
       Legacy.mindmap_image_route Legacy.story_complete
       Legacy.story_complete_from_file
       Legacy.deduct_credits Legacy.get_user_by_id Legacy.deduct_after_read
       Legacy.inc_credits Legacy.add_credits Legacy.get_credits
       Legacy.save_document Legacy.save_enhancement Legacy._call_gemini Legacy.ask
       Legacy.enhance_with_persona Legacy.analyze_consistency
       Legacy.suggest_structure Legacy.track_character_evolution
       Legacy.generate_mindmap Legacy.deep_consistency_scan Legacy.complete_story
       Legacy.returned
       Layered.handle Layered.cost Layered.short_of Layered.balance
       Layered.enhance Layered.event_generator Layered.consistency
       Layered.evolution Layered.mindmap Layered.validated
       Layered.deduct_credits Layered.rpc_deduct_credits Layered.update_credits
       Layered.get_user_credits Layered.add_credits Layered.log_analysis
       Layered.acompletion Layered.acompletion_stream Layered.run_llm
       Layered.stream_enhance_text Layered.enhance_text Layered.build_graph
       Layered._full_llm_graph Layered.returned];
  cbn [fst snd Legacy.users Legacy.documents Legacy.enhancements
       Legacy.completions Legacy.trace
       Layered.profiles Layered.analyses Layered.completions Layered.trace].

Ltac mcore :=
  cbv beta iota zeta delta [bind ret raise attempt lift negb andb orb
       Layered.deduct_credits Layered.rpc_deduct_credits Layered.update_credits
       Layered.get_user_credits Layered.add_credits Layered.log_analysis];
  cbn [fst snd Layered.profiles Layered.analyses Layered.completions Layered.trace].

Ltac msplit :=
  match goal with
  | |- context [match ?x with _ => _ end] =>
      lazymatch x with
      | match _ with _ => _ end => fail
      | (match _ with _ => _ end) _ => fail
      | _ => idtac
      end;
      first [is_var x; destruct x | destruct x eqn:?]
  end; mcbn.

Ltac trace_done :=
  eexists; split;
  [ rewrite <- ?app_assoc; first [reflexivity | symmetry; apply app_nil_r]
  | first [apply reserve_first_nil | apply reserve_first_debit] ].

Lemma legacy_reserve_first E user r w :
  exists events,
    Legacy.trace (snd (Legacy.handle E user r w)) = Legacy.trace w ++ events /\
    reserve_first user (Legacy.cost r) events.
Proof.
  destruct r; mcbn; repeat msplit; try congruence; trace_done.
Qed.

Lemma layered_reserve_first E user r w :
  exists events,
    Layered.trace (snd (Layered.handle E user r w)) = Layered.trace w ++ events /\
    reserve_first user (Layered.cost r) events.
Proof.
  destruct r; mcbn; repeat msplit; try congruence; trace_done.
Qed.

Ltac costs :=
  change Layered.enhance_COST with 1 in *;
  change Layered.consistency_COST with 2 in *;
  change Layered.evolution_COST with 2 in *;
  change Layered.mindmap_COST with 2 in *.

Ltac arith :=
  costs;
  repeat match goal with
    | H : (_ <? _) = false |- _ => apply Z.ltb_ge in H
    | H : (_ <? _) = true |- _ => apply Z.ltb_lt in H
    | H : (_ <=? _) = false |- _ => apply Z.leb_gt in H
    | H : (_ <=? _) = true |- _ => apply Z.leb_le in H
    end;
  try lia.

Lemma legacy_deduct_fails user amount (w : Legacy.world) :
  Legacy.short_of w user amount ->
  Legacy.deduct_credits user amount w = (Ok false, w).
Proof.
  unfold Legacy.short_of. mcbn. destruct (Legacy.users w user) as [c|]; [|reflexivity].
  intros H. destruct (Z.ltb_spec c amount); [reflexivity|lia].
Qed.

Lemma layered_deduct_fails user amount (w : Layered.world) :
  Layered.short_of w user amount ->
  Layered.deduct_credits user amount w = (Ok false, w).
Proof.
  unfold Layered.short_of. mcbn. destruct (Layered.profiles w user) as [c|]; [|reflexivity].
  intros H. destruct (Z.leb_spec amount c); [lia|reflexivity].
Qed.

Ltac accepted :=
  repeat match goal with
    | H : _ && _ = true |- _ => apply andb_prop in H; destruct H
    | H : negb _ = true |- _ => apply negb_true_iff in H
    end.

Lemma legacy_insufficient E user r w :
  Legacy.accepts r = true ->
  Legacy.short_of w user (Legacy.cost r) ->
  Legacy.handle E user r w = (Ok (Legacy.insufficient_credits (Legacy.cost r)), w).
Proof.
  intros Ha Hs. pose proof (legacy_deduct_fails _ _ _ Hs) as Hd.
  destruct r; cbn [Legacy.accepts Legacy.cost Legacy.handle] in *;
    try (destruct (Legacy.files_file form) eqn:?; [|discriminate];
         destruct (Legacy.extracted_text form) eqn:?; [|discriminate]);
    unfold Legacy.text_of in *; accepted;
    unfold Legacy.persona_enhance, Legacy.consistency_check, Legacy.structure_check,
      Legacy.character_evolution, Legacy.deep_scan, Legacy.generate_mindmap_route,
      Legacy.mindmap_image_route, Legacy.story_complete,
      Legacy.story_complete_from_file;
    cbv zeta;
    repeat match goal with
      | H : ?b = _ |- context [?b] => rewrite H
      end;
    cbn [negb orb andb]; unfold bind at 1; rewrite Hd; reflexivity.
Qed.

Lemma layered_insufficient E user r w :
  Layered.short_of w user (Layered.cost r) ->
  Layered.handle E user r w
  = (Ok (Layered.insufficient_credits (Layered.cost r) (Layered.balance w user)), w).
Proof.
  intros Hs. pose proof (layered_deduct_fails _ _ _ Hs) as Hd.
  destruct r; cbn [Layered.cost Layered.handle] in *;
    unfold Layered.enhance, Layered.consistency, Layered.evolution, Layered.mindmap;
    unfold bind at 1; rewrite Hd; reflexivity.
Qed.

(** C2, amended: in every request to a metered route, legacy or
    layered, the debit of the cost comes before any call to the
    generation collaborator; when the balance is below the cost the
    request leaves the store as it was, collaborator not called and
    balance unchanged, and the answer is a 402 that reports the
    credits needed, and in the layered routes the current credits as
    well. *)
Theorem reservation_precedes_generation :
  (forall E user r w,
     exists events,
       Legacy.trace (snd (Legacy.handle E user r w)) = Legacy.trace w ++ events /\
       reserve_first user (Legacy.cost r) events) /\
  (forall E user r w,
     exists events,
       Layered.trace (snd (Layered.handle E user r w)) = Layered.trace w ++ events /\
       reserve_first user (Layered.cost r) events) /\
  (forall E user r w,
     Legacy.accepts r = true ->
     Legacy.short_of w user (Legacy.cost r) ->
     Legacy.handle E user r w
     = (Ok (Legacy.insufficient_credits (Legacy.cost r)), w)) /\
  (forall E user r w,
     Layered.short_of w user (Layered.cost r) ->
     Layered.handle E user r w
     = (Ok (Layered.insufficient_credits (Layered.cost r) (Layered.balance w user)), w)).
Proof.
  split; [exact legacy_reserve_first|].
  split; [exact layered_reserve_first|].
  split; [exact legacy_insufficient|exact layered_insufficient].
Qed.

(** C2, amended, in the second scenario: a balance of 1 against a
    cost of 2, and a legacy request of a user with no credit. *)
Lemma reservation_precedes_generation_witness :
  Legacy.handle legacy_env "u1" (Legacy.PersonaEnhance (persona_request None))
    (legacy_store 0)
  = (Ok (Legacy.insufficient_credits 1), legacy_store 0) /\
  Layered.handle (sample_env (Ok tt)) "u1" (Layered.Consistency "The cat sat")
    (layered_store 1)
  = (Ok (Layered.insufficient_credits 2 1), layered_store 1).
Proof.
  destruct reservation_precedes_generation as (_ & _ & H3 & H4). split.
  - apply (H3 legacy_env "u1"%string (Legacy.PersonaEnhance (persona_request None))
             (legacy_store 0)); [reflexivity|vm_compute; reflexivity].
  - apply (H4 (sample_env (Ok tt)) "u1"%string (Layered.Consistency "The cat sat")
             (layered_store 1)). vm_compute; reflexivity.
Defined.

(** C2 as stated fails: the 402 of the legacy routes names the credits
    required and not the current credits. *)
Lemma legacy_402_omits_current_credits :
  exists body,
    Legacy.handle legacy_env "u1" (Legacy.PersonaEnhance (persona_request None))
      (legacy_store 0)
    = (Ok (Http 402 (JDict body)), legacy_store 0) /\
    dict_lookup body "credits_required" = Some (JInt 1) /\
    dict_lookup body "current_credits" = None.
Proof. eexists. split; [vm_compute; reflexivity|]. split; reflexivity. Qed.

(** ** Refunds and the audit record *)

Ltac mstep H :=
  first [ rewrite String.eqb_refl; mcbn
        | rewrite H; mcbn
        | msplit ].

Ltac balance_done H :=
  rewrite ?String.eqb_refl, ?H; costs;
  first [ left; f_equal; lia | right; f_equal; lia
        | left; reflexivity | right; reflexivity ].

(** C1, at the failing input: a user with 5 credits asks the legacy
    application for a drawing of the graph.  The route has the audit
    record and the sending of the drawing inside its [try] block: the
    sending fails, the answer is a 500, the credits are back, and the
    audit record of the failed request is there. *)
Lemma mindmap_image_refunds_after_audit_record :
  exists w',
    Legacy.mindmap_image_route image_env "u1" image_request (legacy_store 5)
    = (Ok (Legacy.error 500 "Error: broken pipe"), w') /\
    Legacy.users w' "u1"%string = Some 5 /\
    List.length (Legacy.enhancements w') = 1%nat /\
    exists m1 m2,
      Legacy.trace w'
      = [BalanceInc "u1" (-2); Generate m1; Generate m2;
         AuditInsert "u1" "mindmap_image"; BalanceInc "u1" 2]%string.
Proof.
  eexists. split; [vm_compute; reflexivity|].
  repeat split. eexists. eexists. reflexivity.
Qed.

(** X1: never a partial debit, never a double refund: whatever a legacy
    request does, answer or raise, it leaves the balance of its user where
    it was or takes exactly the cost of its route. *)
Lemma legacy_net_change E user r w c :
  Legacy.users w user = Some c ->
  Legacy.users (snd (Legacy.handle E user r w)) user = Some c \/
  Legacy.users (snd (Legacy.handle E user r w)) user = Some (c - Legacy.cost r).
Proof.
  intros Hc. destruct r; mcbn; repeat mstep Hc; try congruence; balance_done Hc.
Qed.

(** X2: whatever a layered request does, answer or raise, it leaves the
    balance of its user where it was or takes exactly the cost of its
    route. *)
Lemma layered_net_change E user r w c :
  Layered.profiles w user = Some c ->
  Layered.profiles (snd (Layered.handle E user r w)) user = Some c \/
  Layered.profiles (snd (Layered.handle E user r w)) user = Some (c - Layered.cost r).
Proof.
  intros Hc. destruct r; mcbn; repeat mstep Hc; try congruence; balance_done Hc.
Qed.

Lemma build_graph_keeps_store E text w :
  Layered.profiles (snd (Layered.build_graph E text w)) = Layered.profiles w /\
  Layered.analyses (snd (Layered.build_graph E text w)) = Layered.analyses w.
Proof. mcbn. repeat msplit; split; reflexivity. Qed.

(** C3, amended: in the layered routes that write the audit record
    after their [try] block (consistency, evolution, mindmap), when
    the debit and the downstream work succeed and the insert into
    [analyses] raises, the exception reaches the caller, the debit
    stands with no refund, and no audit record is written. *)
Theorem audit_failure_propagates E user r w c e :
  logs_after_try r = true ->
  Layered.profiles w user = Some c ->
  Layered.cost r <= c ->
  downstream_succeeds E user r w ->
  Layered.analyses_insert E = Raise e ->
  exists w',
    Layered.handle E user r w = (Raise e, w') /\
    Layered.profiles w' user = Some (c - Layered.cost r) /\
    Layered.analyses w' = Layered.analyses w.
Proof.
  intros Hr Hc Hle Hd He. destruct r; try discriminate; simpl in Hd, Hle.
  - destruct Hd as (content & result & H1 & H2).
    mcbn. rewrite Hc. costs. destruct (Z.leb_spec 2 c) as [_|]; [|lia].
    mcbn. rewrite H1. mcbn. rewrite H2. mcbn. rewrite He. mcbn.
    eexists. split; [reflexivity|]. mcbn. rewrite String.eqb_refl.
    split; [f_equal; lia|reflexivity].
  - destruct Hd as (content & result & H1 & H2).
    mcbn. rewrite Hc. costs. destruct (Z.leb_spec 2 c) as [_|]; [|lia].
    mcbn. rewrite H1. mcbn. rewrite H2. mcbn. rewrite He. mcbn.
    eexists. split; [reflexivity|]. mcbn. rewrite String.eqb_refl.
    split; [f_equal; lia|reflexivity].
  - destruct Hd as (graph_data & w2 & H1).
    pose proof (build_graph_keeps_store E body_text
                  (snd (Layered.deduct_credits user Layered.mindmap_COST w))) as [K1 K2].
    rewrite H1 in K1, K2. revert H1 K1 K2.
    unfold Layered.handle, Layered.mindmap. mcore. rewrite Hc. costs.
    destruct (Z.leb_spec 2 c) as [_|]; [|lia]. mcore. intros H1 K1 K2.
    rewrite H1. mcore. rewrite He. mcore.
    eexists. split; [reflexivity|]. rewrite K1, K2. rewrite String.eqb_refl.
    split; [f_equal; lia|reflexivity].
Qed.


(** C3, amended, for a consistency scan of a user with 5 credits. *)
Lemma audit_failure_propagates_witness :
  exists w',
    Layered.handle (sample_env (Raise "connection reset"%string)) "u1"
      (Layered.Consistency "The cat sat") (layered_store 5)
    = (Raise "connection reset"%string, w') /\
    Layered.profiles w' "u1"%string = Some (5 - 2) /\
    Layered.analyses w' = [].
Proof.
  apply (@audit_failure_propagates (sample_env (Raise "connection reset"%string))
           "u1"%string (Layered.Consistency "The cat sat") (layered_store 5) 5
           "connection reset"%string).
  - reflexivity.
  - reflexivity.
  - vm_compute. discriminate.
  - simpl. eexists. eexists. split; reflexivity.
  - reflexivity.
Defined.

(** C3 as stated fails: the consistency scan whose audit record cannot
    be written does not answer with its result; the caller gets the
    exception of the insert. *)
Lemma audit_failure_reaches_caller :
  exists w',
    Layered.consistency (sample_env (Raise "connection reset"%string))
      "The cat sat" "u1" (layered_store 5)
    = (Raise "connection reset"%string, w') /\
    Layered.profiles w' "u1"%string = Some 3 /\
    Layered.analyses w' = [].
Proof. eexists. split; [vm_compute; reflexivity|]. split; reflexivity. Qed.

Import Interleaving.

(** ** Concurrent reservations *)

Lemma replace_nth_length {A : Type} (x : A) l : forall n,
  List.length (replace_nth n x l) = List.length l.
Proof.
  induction l as [|y l IH]; intros [|n]; simpl; auto.
Qed.

Lemma count_replace (f : call -> bool) x l : forall n y,
  nth_error l n = Some y ->
  Z.of_nat (List.length (filter f (replace_nth n x l)))
  = Z.of_nat (List.length (filter f l))
    + (if f x then 1 else 0) - (if f y then 1 else 0).
Proof.
  induction l as [|z l IH]; intros [|n] y H; simpl in *; try discriminate.
  - injection H as ->. destruct (f x), (f y); cbn [List.length]; lia.
  - specialize (IH n y H). destruct (f z); cbn [List.length]; lia.
Qed.

Lemma layered_step_keeps user start amount n s s' :
  0 <= amount ->
  reserved_so_far user start amount s ->
  layered_step user amount n s = Some s' ->
  reserved_so_far user start amount s' /\
  List.length (snd s') = List.length (snd s).
Proof.
  intros Ha (bal & Hb & He & H0 & Hf & Hc). destruct s as [w calls]. simpl in *.
  destruct (nth_error calls n) as [[| |]|] eqn:En; try discriminate.
  unfold Layered.deduct_credits, Layered.rpc_deduct_credits, Layered.update_credits,
    bind, ret. rewrite Hb.
  assert (Hcalls : forall ok, Forall (fun c => forall u, c <> Fetched u)
                                (replace_nth n (Returned ok) calls)).
  { intros ok. clear - Hc. revert n. induction calls as [|c calls IH]; intros [|n]; simpl;
      auto; inversion Hc; subst; constructor; auto; discriminate. }
  pose proof (count_replace succeeded (Returned true) calls n En) as S1.
  pose proof (count_replace failed (Returned true) calls n En) as F1.
  pose proof (count_replace succeeded (Returned false) calls n En) as S2.
  pose proof (count_replace failed (Returned false) calls n En) as F2.
  simpl in S1, F1, S2, F2.
  destruct (Z.leb_spec amount bal) as [Hle|Hlt]; rewrite ?Hb; intros E; injection E as <-;
    simpl; (split; [|apply replace_nth_length]).
  - exists (bal + - amount). cbn [fst snd Layered.profiles].
    rewrite String.eqb_refl. unfold successes, failures in *.
    repeat split; auto; try lia.
  - exists bal. cbn [fst snd]. unfold successes, failures in *.
    repeat split; auto; try lia.
Qed.

Lemma run_layered_keeps user start amount schedule : forall s s',
  0 <= amount ->
  reserved_so_far user start amount s ->
  run (layered_step user amount) schedule s = Some s' ->
  reserved_so_far user start amount s' /\
  List.length (snd s') = List.length (snd s).
Proof.
  induction schedule as [|n schedule IH]; intros s s' Ha Hs Hr; simpl in Hr.
  - injection Hr as <-. auto.
  - destruct (layered_step user amount n s) as [s1|] eqn:E1; [|discriminate].
    destruct (@layered_step_keeps user start amount n s s1 Ha Hs E1) as [H1 L1].
    destruct (IH _ _ Ha H1 Hr) as [H2 L2]. split; auto. congruence.
Qed.

Lemma all_returned_counts calls :
  Forall (fun c => forall u, c <> Fetched u) calls ->
  all_returned calls = true ->
  (successes calls + failures calls = List.length calls)%nat.
Proof.
  unfold all_returned, successes, failures.
  induction 1 as [|c calls Hc _ IH]; simpl; [reflexivity|].
  intros H. apply andb_prop in H. destruct H as [H1 H2]. specialize (IH H2).
  destruct c as [| |[|]]; simpl in *; try discriminate; lia.
Qed.

Lemma repeat_start_counts N :
  successes (repeat Start N) = 0%nat /\ failures (repeat Start N) = 0%nat /\
  Forall (fun c => forall u, c <> Fetched u) (repeat Start N).
Proof.
  unfold successes, failures. induction N as [|N (H1 & H2 & H3)]; simpl; auto.
  repeat split; auto. constructor; auto. discriminate.
Qed.

(** C4, amended: when [N] reservations of a cost of at least 2 run
    against a balance of [cost * (N - 1) + 1], each as one step of the
    stored procedure, then under every schedule that lets all of them
    return, [N - 1] succeed and one fails. *)
Theorem atomic_reservations (user : string) (amount : Z) (N : nat)
    (w : Layered.world) (schedule : list nat) (final : Layered.world * list call) :
  2 <= amount ->
  Layered.profiles w user = Some (amount * (Z.of_nat N - 1) + 1) ->
  run (layered_step user amount) schedule (w, repeat Start N) = Some final ->
  all_returned (snd final) = true ->
  (1 <= N)%nat ->
  successes (snd final) = (N - 1)%nat /\ failures (snd final) = 1%nat.
Proof.
  intros Ha Hw Hr Hall HN.
  destruct (repeat_start_counts N) as (S0 & F0 & C0).
  assert (Hinit : reserved_so_far user (amount * (Z.of_nat N - 1) + 1) amount
                    (w, repeat Start N)).
  { exists (amount * (Z.of_nat N - 1) + 1). simpl. rewrite S0, F0.
    repeat split; auto; try nia; lia. }
  assert (Ha0 : 0 <= amount) by lia.
  destruct (@run_layered_keeps user _ amount schedule _ _ Ha0 Hinit Hr)
    as ((bal & Hb & He & H0 & Hf & Hc) & Hlen).
  simpl in Hlen. rewrite repeat_length in Hlen.
  pose proof (all_returned_counts Hc Hall) as Hsum.
  destruct (Nat.eq_dec (failures (snd final)) 0) as [Hz|Hnz].
  - exfalso. assert (successes (snd final) = N) by lia. nia.
  - specialize (Hf ltac:(lia)).
    assert (N - 1 <= successes (snd final))%nat by nia. lia.
Qed.

(** C4, amended, for three reservations of 2 against a balance of 5. *)
Lemma atomic_reservations_witness :
  exists final,
    run (layered_step "u1" 2) [2; 0; 1]%nat (layered_store 5, repeat Start 3) = Some final /\
    all_returned (snd final) = true /\
    successes (snd final) = 2%nat /\ failures (snd final) = 1%nat.
Proof.
  eexists. split; [vm_compute; reflexivity|]. split; [reflexivity|].
  apply (@atomic_reservations "u1" 2 3 (layered_store 5) [2; 0; 1]%nat).
  - lia.
  - reflexivity.
  - vm_compute; reflexivity.
  - reflexivity.
  - lia.
Defined.

(** C4 as stated fails. For a cost of 1, two reservations against a
    balance of [1 * (2 - 1) + 1] both succeed, one after the other,
    in the stored procedure and in the legacy function alike. For a
    cost of 2, two calls of the legacy function that both read the
    balance of [2 * (2 - 1) + 1] before either writes both succeed,
    and the balance ends below zero. *)
Lemma both_reservations_succeed :
  (exists final,
     run (layered_step "u1" 1) [0; 1]%nat (layered_store (1 * (2 - 1) + 1), repeat Start 2)
     = Some final /\
     all_returned (snd final) = true /\
     successes (snd final) = 2%nat /\ failures (snd final) = 0%nat) /\
  (exists final,
     run (legacy_step "u1" 1) [0; 0; 1; 1]%nat
       (legacy_store (1 * (2 - 1) + 1), repeat Start 2)
     = Some final /\
     all_returned (snd final) = true /\
     successes (snd final) = 2%nat /\ failures (snd final) = 0%nat) /\
  (exists final,
     run (legacy_step "u1" 2) [0; 1; 0; 1]%nat
       (legacy_store (2 * (2 - 1) + 1), repeat Start 2)
     = Some final /\
     all_returned (snd final) = true /\
     successes (snd final) = 2%nat /\ failures (snd final) = 0%nat /\
     Legacy.users (fst final) "u1"%string = Some (-1)).
Proof.
  split; [|split]; eexists; (split; [vm_compute; reflexivity|]); repeat split.
Qed.

(** ** Graph assembly *)

Lemma edge_is_valid_known node_ids e :
  Layered.edge_is_valid node_ids e = Ok true -> endpoints_known node_ids e = true.
Proof.
  unfold Layered.edge_is_valid, endpoints_known, Layered.in_node_ids.
  destruct (getitem e "source") as [[]|]; try discriminate;
    destruct (existsb _ node_ids) eqn:E1; try discriminate.
  destruct (getitem e "target") as [[]|]; try discriminate.
  intros H. injection H as ->. reflexivity.
Qed.

Lemma keep_valid_edges_known node_ids edges : forall kept,
  Layered.keep_valid_edges node_ids edges = Ok kept ->
  forallb (endpoints_known node_ids) kept = true.
Proof.
  induction edges as [|e edges IH]; intros kept; simpl.
  - intros H. injection H as <-. reflexivity.
  - destruct (Layered.edge_is_valid node_ids e) as [keep|] eqn:Ee; [|discriminate].
    destruct (Layered.keep_valid_edges node_ids edges) as [rest|]; [|discriminate].
    intros H. injection H as <-. specialize (IH rest eq_refl).
    destruct keep; [|exact IH]. simpl. rewrite IH.
    now rewrite (edge_is_valid_known _ _ Ee).
Qed.

(** X15: when the extractor finds entities and the layered graph builder
    returns, every edge of the graph joins two of its nodes: an edge the
    collaborator proposes to or from an unknown node is left out. *)
Lemma build_graph_validates_edges E text w graph w' :
  Layered.extract_entities E text <> [] ->
  Layered.build_graph E text w = (Ok graph, w') ->
  edge_integrity graph = true.
Proof.
  intros Hne. unfold Layered.build_graph.
  destruct (Layered.extract_entities E text) as [|entity rest]; [congruence|].
  unfold bind, lift, ret, Layered.run_llm, Layered.acompletion.
  destruct (Layered.completion E (Layered.completions w)); [|discriminate].
  destruct (get _ "entity_attributes" _); [|discriminate].
  destruct (Layered.build_nodes _ _) as [nodes|]; [|discriminate].
  destruct (get _ "edges" _) as [edges|]; [|discriminate].
  destruct (Layered.valid_edges_of _ edges) as [valid_edges|] eqn:Ev; [|discriminate].
  destruct (get _ "themes" _); [|discriminate].
  destruct (get _ "summary" _); [|discriminate].
  destruct (Layered.first_six _); [|discriminate].
  intros H. injection H as <- _.
  unfold Layered.valid_edges_of in Ev. destruct (iterate edges); [|discriminate].
  apply keep_valid_edges_known in Ev. exact Ev.
Qed.

(** C8, at the failing input: the extractor finds nothing, the
    collaborator proposes an edge between nodes it does not list, and
    the fallback returns the graph as it came, to the caller of the
    mindmap route as well. *)
Lemma fallback_returns_dangling_edge :
  exists w',
    Layered.build_graph graph_env "she met him at dawn" (layered_store 5)
    = (Ok dangling_graph, w') /\
    edge_integrity dangling_graph = false /\
    exists w'' answer,
      Layered.mindmap graph_env "she met him at dawn" "u1" (layered_store 5)
      = (Ok (Http 200 (JDict answer)), w'') /\
      dict_lookup answer "edges"
      = Some (JList [JDict [("source", JStr "alice"); ("target", JStr "bob");
                            ("label", JStr "Friend")]]%string) /\
      dict_lookup answer "nodes" = Some (JList []).
Proof.
  eexists. split; [vm_compute; reflexivity|]. split; [reflexivity|].
  eexists. eexists. split; [vm_compute; reflexivity|]. split; reflexivity.
Qed.

(** ** Personas *)

(** C9 as stated fails: the legacy route answers an unknown persona
    with a 400 and leaves the store as it was, and the layered service
    gives an unknown persona the prompt of [simplified]. *)
Lemma legacy_rejects_layered_defaults :
  Legacy.persona_enhance legacy_env "u1" (persona_request (Some "pirate"%string))
    (legacy_store 5)
  = (Ok (Http 400 (JDict [("error", JStr Legacy.unknown_persona_message)]%string)),
     legacy_store 5) /\
  Layered.system_prompt_for "pirate" = Layered.system_prompt_for "simplified" /\
  Layered.system_prompt_for "pirate" <> Layered.system_prompt_for "poet".
Proof.
  split; [vm_compute; reflexivity|]. split; [reflexivity|].
  vm_compute. discriminate.
Qed.

Lemma PersonaEnum_of_none key :
  Layered.PersonaEnum_of key = None ->
  Layered.prompts_lookup Layered.PERSONA_PROMPTS key = None.
Proof.
  cbv beta iota zeta delta [Layered.PersonaEnum_of Layered.PersonaEnum_members
    Layered.PersonaEnum_value find Layered.prompts_lookup Layered.PERSONA_PROMPTS].
  repeat match goal with
    | |- context [String.eqb ?s key] => destruct (String.eqb s key); [discriminate|]
    end.
  reflexivity.
Qed.

(** C9, amended: the legacy route answers a persona key that is not in
    [PERSONAS] with a 400 before it reserves anything, while the
    lookup of the legacy helper falls back to [simplified]; in the
    layered variant the schema of the request refuses a persona that
    is not a member of [PersonaEnum], while the lookup of the service
    falls back to [simplified]; and the legacy route serves a request
    without the key [persona] exactly as it serves the same request
    with the persona [simplified]. *)
Theorem persona_resolution :
  (forall E user data w key,
     Legacy.data_persona data = Some key ->
     Legacy.in_PERSONAS key = false ->
     Legacy.is_empty (Legacy.text_of data) = false ->
     (50000 <? Z.of_nat (Py.len (Legacy.text_of data))) = false ->
     Legacy.persona_enhance E user data w
     = (Ok (Legacy.error 400 Legacy.unknown_persona_message), w)) /\
  (forall key,
     Legacy.in_PERSONAS key = false ->
     Legacy.persona_for key = Legacy.persona_for "simplified") /\
  (forall text key,
     Layered.PersonaEnum_of key = None ->
     Layered.parse_EnhanceRequest text key = None) /\
  (forall key,
     Layered.PersonaEnum_of key = None ->
     Layered.system_prompt_for key = Layered.system_prompt_for "simplified") /\
  (forall E user data w,
     Legacy.data_persona data = None ->
     Legacy.persona_enhance E user data w
     = Legacy.persona_enhance E user (with_persona data "simplified") w).
Proof.
  repeat split.
  - intros E user data w key Hk Hin He Hl.
    unfold Legacy.persona_enhance. unfold Legacy.text_of in *.
    rewrite He, Hl, Hk. cbn [Legacy.field]. rewrite Hin. reflexivity.
  - intros key. unfold Legacy.in_PERSONAS, Legacy.persona_for.
    destruct (Legacy.personas_lookup Legacy.PERSONAS key); [discriminate|reflexivity].
  - intros text key H. unfold Layered.parse_EnhanceRequest. rewrite H.
    now destruct (_ && _).
  - intros key H. unfold Layered.system_prompt_for.
    now rewrite (PersonaEnum_of_none _ H).
  - intros E user data w H. unfold Legacy.persona_enhance, with_persona.
    unfold Legacy.text_of. cbn [Legacy.data_text Legacy.data_persona Legacy.data_doc_id
      Legacy.data_title]. rewrite H. reflexivity.
Qed.

(** C9, amended, for the persona [pirate] and for a request without the
    key. *)
Lemma persona_resolution_witness :
  Legacy.in_PERSONAS "pirate" = false /\
  Layered.PersonaEnum_of "pirate" = None /\
  Legacy.persona_enhance legacy_env "u1" (persona_request (Some "pirate"%string))
    (legacy_store 5)
  = (Ok (Legacy.error 400 Legacy.unknown_persona_message), legacy_store 5) /\
  Layered.parse_EnhanceRequest "The cat sat on the mat" "pirate" = None /\
  Layered.system_prompt_for "pirate" = Layered.system_prompt_for "simplified" /\
  Legacy.persona_enhance legacy_env "u1" (persona_request None) (legacy_store 5)
  = Legacy.persona_enhance legacy_env "u1" (persona_request (Some "simplified"%string))
      (legacy_store 5).
Proof.
  destruct persona_resolution as (H1 & H2 & H3 & H4 & H5).
  split; [reflexivity|]. split; [reflexivity|]. split; [|split; [|split]].
  - apply (H1 legacy_env "u1"%string (persona_request (Some "pirate"%string))
             (legacy_store 5) "pirate"%string); reflexivity.
  - apply H3. reflexivity.
  - apply H4. reflexivity.
  - apply (H5 legacy_env "u1"%string (persona_request None) (legacy_store 5)).
    reflexivity.
Defined.


(** ** Answers and the ledger *)

Lemma layered_paid_or_free E user r w c :
  Layered.profiles w user = Some c ->
  (Layered.profiles (snd (Layered.handle E user r w)) user = Some c) \/
  (Layered.profiles (snd (Layered.handle E user r w)) user = Some (c - Layered.cost r) /\
   Layered.cost r <= c).
Proof.
  intros Hc. destruct r; mcbn; repeat mstep Hc; try congruence;
  rewrite ?String.eqb_refl, ?Hc; costs; arith;
  first [ left; f_equal; lia | left; reflexivity
        | right; split; [f_equal; lia|lia] | right; split; [reflexivity|lia] ].
Qed.

Lemma legacy_paid_or_free E user r w c :
  Legacy.users w user = Some c ->
  (Legacy.users (snd (Legacy.handle E user r w)) user = Some c) \/
  (Legacy.users (snd (Legacy.handle E user r w)) user = Some (c - Legacy.cost r) /\
   Legacy.cost r <= c).
Proof.
  intros Hc. destruct r; mcbn; repeat mstep Hc; try congruence;
  rewrite ?String.eqb_refl, ?Hc; costs; arith;
  first [ left; f_equal; lia | left; reflexivity
        | right; split; [f_equal; lia|lia] | right; split; [reflexivity|lia] ].
Qed.

Ltac ledger_done Hc :=
  intros H; injection H as <- <-;
  unfold Layered.insufficient_credits;
  cbv beta iota delta [layered_outcome_matches layered_ledger_matches Nat.eqb];
  cbn [fst snd Layered.profiles Layered.analyses];
  rewrite ?String.eqb_refl, ?Hc; costs;
  first [ split; [f_equal; lia|reflexivity]
        | split; reflexivity
        | split; [f_equal; lia|left; reflexivity]
        | split; [f_equal; lia|eexists; split; [reflexivity|split; reflexivity]]
        | split; [f_equal; lia|right; eexists; split; [reflexivity|split; reflexivity]] ].

(** X3: what a layered metered request comes back with tells what it did
    to the store.  The answer 200, and a stream that reaches its last
    event, go with one debit of the cost of the route and one audit record
    of that cost.  An error answer that the route builds itself goes with
    the balance and the audit records as they were.  When an exception
    leaves the route, or the stream breaks, the cost stays debited: the
    refund of the routes never succeeds, and a failed audit insert or an
    answer that does not fit the response model comes after the debit. *)
Theorem layered_answer_matches_ledger E user r w c res w' :
  Layered.profiles w user = Some c ->
  Layered.handle E user r w = (res, w') ->
  layered_outcome_matches user (Layered.cost r) c w w' res.
Proof.
  intros Hc. destruct r; mcbn; repeat mstep Hc; try congruence; ledger_done Hc.
Qed.

(** X4: a request to the layered enhancement route has one of three
    outcomes.  The user cannot pay: the answer is the 402 and the store is
    as it was.  The stream delivers the tokens and then the last event,
    with the diff and the balance after the debit: one credit is debited
    and one audit record added.  Or the stream breaks after the tokens it
    delivered, with the exception of the refund: the credit stays debited,
    no audit record is added, and no error event is sent. *)
Theorem enhance_stream_matches_ledger E body user w c res w' :
  Layered.profiles w user = Some c ->
  Layered.enhance E body user w = (res, w') ->
  (c < 1 /\ res = Ok (Layered.insufficient_credits 1 c) /\ w' = w) \/
  (1 <= c /\
   exists tokens diff,
     res = Ok (EventStream (map token_event tokens ++ [final_event diff (c - 1)])) /\
     Layered.profiles w' user = Some (c - 1) /\
     exists record,
       Layered.analyses w' = Layered.analyses w ++ [record] /\
       Layered.analysis_user_id record = user /\
       Layered.analysis_credits_used record = 1) \/
  (1 <= c /\
   exists tokens,
     res = Ok (BrokenStream (map token_event tokens) "AttributeError") /\
     Layered.profiles w' user = Some (c - 1) /\
     Layered.analyses w' = Layered.analyses w).
Proof.
  intros Hc. mcbn. repeat mstep Hc; try congruence;
    intros H; injection H as <- <-;
    cbn [fst snd Layered.profiles Layered.analyses];
    rewrite ?String.eqb_refl, ?Hc; costs; arith.
  all: first
    [ left; split; [lia|split; reflexivity]
    | right; left; split; [lia|]; eexists; eexists;
      split; [unfold final_event; repeat f_equal; lia|];
      split; [f_equal; lia|eexists; split; [reflexivity|split; reflexivity]]
    | right; right; split; [lia|]; eexists; split; [reflexivity|];
      split; [f_equal; lia|reflexivity] ].
Qed.



(** X6: a legacy request that fails validation is answered with 400 or 500
    and leaves the whole store as it was: nothing is debited, logged or
    saved, and no collaborator is called. *)
Theorem legacy_rejected_request_is_free E user r w :
  Legacy.accepts r = false ->
  exists status body,
    Legacy.handle E user r w = (Ok (Http status body), w) /\
    (status = 400 \/ status = 500)%nat.
Proof.
  intros Ha. destruct r; mcbn; revert Ha; mcbn;
  repeat (msplit; try discriminate); intros; try discriminate;
  eexists; eexists; (split; [reflexivity|auto]).
Qed.

(** X7: requests of one user that the legacy application serves one after
    the other never take the balance below zero and never raise it. *)
Theorem legacy_never_overdrawn user requests : forall w c,
  Legacy.users w user = Some c ->
  0 <= c ->
  exists c',
    Legacy.users (legacy_serve user requests w) user = Some c' /\ 0 <= c' <= c.
Proof.
  induction requests as [|[E r] requests IH]; intros w c Hc H0; simpl.
  - exists c. split; [exact Hc|lia].
  - destruct (@legacy_paid_or_free E user r w c Hc) as [H|[H Hle]].
    + apply (IH _ _ H H0).
    + assert (Hcost : 0 <= Legacy.cost r) by (destruct r; simpl; lia).
      destruct (IH _ _ H ltac:(lia)) as (c' & H1 & H2). exists c'. split; [exact H1|lia].
Qed.

(** X8: requests of one user that the layered application serves one after
    the other never take the balance below zero and never raise it. *)
Theorem layered_never_overdrawn user requests : forall w c,
  Layered.profiles w user = Some c ->
  0 <= c ->
  exists c',
    Layered.profiles (layered_serve user requests w) user = Some c' /\ 0 <= c' <= c.
Proof.
  induction requests as [|[E r] requests IH]; intros w c Hc H0; simpl.
  - exists c. split; [exact Hc|lia].
  - destruct (@layered_paid_or_free E user r w c Hc) as [H|[H Hle]].
    + apply (IH _ _ H H0).
    + assert (Hcost : 0 <= Layered.cost r) by (destruct r; vm_compute; discriminate).
      destruct (IH _ _ H ltac:(lia)) as (c' & H1 & H2). exists c'. split; [exact H1|lia].
Qed.

Lemma legacy_step_conserves user start amount n s s' :
  (exists bal, Legacy.users (fst s) user = Some bal /\
               bal = start - amount * Z.of_nat (successes (snd s))) ->
  legacy_step user amount n s = Some s' ->
  exists bal, Legacy.users (fst s') user = Some bal /\
              bal = start - amount * Z.of_nat (successes (snd s')).
Proof.
  intros (bal & Hb & He). destruct s as [w calls]. simpl in *.
  destruct (nth_error calls n) as [[|u|]|] eqn:En; try discriminate.
  - unfold Legacy.get_user_by_id. intros H. injection H as <-. simpl.
    pose proof (count_replace succeeded (Fetched (Legacy.users w user)) calls n En) as S1.
    simpl in S1. exists bal. split; [exact Hb|]. unfold successes in *. lia.
  - pose proof (count_replace succeeded (Returned true) calls n En) as S1.
    pose proof (count_replace succeeded (Returned false) calls n En) as S2.
    simpl in S1, S2. unfold successes in *.
    unfold Legacy.deduct_after_read. destruct u as [c|].
    + destruct (c <? amount); unfold bind, ret, Legacy.inc_credits; rewrite ?Hb;
        intros H; injection H as <-; simpl.
      * exists bal. split; [exact Hb|lia].
      * exists (bal + - amount). rewrite String.eqb_refl. split; [reflexivity|lia].
    + unfold ret. intros H; injection H as <-. simpl. exists bal. split; [exact Hb|lia].
Qed.

Lemma run_legacy_conserves user start amount schedule : forall s s',
  (exists bal, Legacy.users (fst s) user = Some bal /\
               bal = start - amount * Z.of_nat (successes (snd s))) ->
  run (legacy_step user amount) schedule s = Some s' ->
  exists bal, Legacy.users (fst s') user = Some bal /\
              bal = start - amount * Z.of_nat (successes (snd s')).
Proof.
  induction schedule as [|n schedule IH]; intros s s' Hs Hr; simpl in Hr.
  - injection Hr as <-. exact Hs.
  - destruct (legacy_step user amount n s) as [s1|] eqn:E1; [|discriminate].
    apply (IH s1 s'); [|exact Hr].
    apply (@legacy_step_conserves user start amount n s s1 Hs E1).
Qed.

(** X13: however the legacy reservations of one user interleave, every
    reservation that reports success is charged: the balance ends at the
    start balance minus the amount times the number of successes. *)
Theorem legacy_debits_are_not_lost user amount N schedule w start final :
  Legacy.users w user = Some start ->
  run (legacy_step user amount) schedule (w, repeat Start N) = Some final ->
  Legacy.users (fst final) user
  = Some (start - amount * Z.of_nat (successes (snd final))).
Proof.
  intros Hw Hr.
  destruct (@run_legacy_conserves user start amount schedule (w, repeat Start N) final)
    as (bal & Hb & ->); [|exact Hr|exact Hb].
  exists start. split; [exact Hw|].
  destruct (repeat_start_counts N) as (S0 & _). simpl. rewrite S0. lia.
Qed.

Lemma dict_lookup_dict_set d key v : dict_lookup (Layered.dict_set d key v) key = Some v.
Proof.
  induction d as [|[k v0] d IH]; simpl.
  - now rewrite String.eqb_refl.
  - destruct (String.eqb k key) eqn:E; simpl; rewrite E; [reflexivity|exact IH].
Qed.

Lemma dict_lookup_dict_set_other d key v key' :
  key' <> key ->
  dict_lookup (Layered.dict_set d key v) key' = dict_lookup d key'.
Proof.
  intros Hne. induction d as [|[k v0] d IH]; simpl.
  - destruct (String.eqb_spec key key'); [congruence|reflexivity].
  - destruct (String.eqb_spec k key) as [->|Hk]; simpl.
    + destruct (String.eqb_spec key key'); [congruence|reflexivity].
    + destruct (String.eqb k key'); [reflexivity|exact IH].
Qed.

Lemma with_credits_remaining_lookup graph_data credits answer :
  Layered.with_credits_remaining graph_data credits = Ok answer ->
  exists d, answer = JDict d /\ dict_lookup d "credits_remaining" = Some (JInt credits).
Proof.
  destruct graph_data; try discriminate. simpl. intros H. injection H as <-.
  eexists. split; [reflexivity|apply dict_lookup_dict_set].
Qed.

(** X14: the answer 200 of a layered metered route carries, under
    [credits_remaining], the balance before the request minus the cost of
    the route. *)
Theorem answer_reports_balance E user r w c body w' :
  Layered.profiles w user = Some c ->
  Layered.handle E user r w = (Ok (Http 200 body), w') ->
  exists d,
    body = JDict d /\
    dict_lookup d "credits_remaining" = Some (JInt (c - Layered.cost r)).
Proof.
  intros Hc. destruct r; mcbn; repeat mstep Hc; try congruence;
    intros H; try discriminate H; injection H as <- <-;
    rewrite ?String.eqb_refl; costs;
    try (eexists; split; [reflexivity|]; cbn; repeat f_equal; lia).
  all: match goal with
       | Hw : Layered.with_credits_remaining _ _ = Ok _ |- _ =>
           apply with_credits_remaining_lookup in Hw;
           destruct Hw as (d & -> & Hw); exists d; split; [reflexivity|];
           rewrite Hw; repeat f_equal; lia
       end.
Qed.

(** ** The ledger at concrete requests *)

Lemma legacy_net_change_witness :
  Legacy.users
    (snd (Legacy.handle legacy_env "u1" (Legacy.PersonaEnhance (persona_request None))
            (legacy_store 5))) "u1"%string = Some 5 \/
  Legacy.users
    (snd (Legacy.handle legacy_env "u1" (Legacy.PersonaEnhance (persona_request None))
            (legacy_store 5))) "u1"%string
  = Some (5 - Legacy.cost (Legacy.PersonaEnhance (persona_request None))).
Proof.
  apply (@legacy_net_change legacy_env "u1"%string
           (Legacy.PersonaEnhance (persona_request None)) (legacy_store 5) 5).
  reflexivity.
Defined.

Lemma layered_net_change_witness :
  Layered.profiles
    (snd (Layered.handle (sample_env (Ok tt)) "u1" (Layered.Consistency "The cat sat")
            (layered_store 5))) "u1"%string = Some 5 \/
  Layered.profiles
    (snd (Layered.handle (sample_env (Ok tt)) "u1" (Layered.Consistency "The cat sat")
            (layered_store 5))) "u1"%string
  = Some (5 - Layered.cost (Layered.Consistency "The cat sat")).
Proof.
  apply (@layered_net_change (sample_env (Ok tt)) "u1"%string
           (Layered.Consistency "The cat sat") (layered_store 5) 5).
  reflexivity.
Defined.

Lemma layered_answer_matches_ledger_witness :
  layered_outcome_matches "u1" (Layered.cost (Layered.Consistency "The cat sat")) 5
    (layered_store 5)
    (snd (Layered.handle (sample_env (Ok tt)) "u1" (Layered.Consistency "The cat sat")
            (layered_store 5)))
    (Ok (Http 200
           (JDict [("issues", JList []); ("score", JInt 50); ("summary", JStr EmptyString);
                   ("credits_remaining", JInt 3)]%string))).
Proof.
  apply (@layered_answer_matches_ledger (sample_env (Ok tt)) "u1"%string
           (Layered.Consistency "The cat sat") (layered_store 5) 5).
  - reflexivity.
  - vm_compute. reflexivity.
Defined.


(** The insert of the audit record fails after the rewrite was
    streamed: the refund raises, and the stream breaks after the two
    tokens with the credit debited. *)
Lemma enhance_stream_matches_ledger_witness :
  exists w',
    Layered.enhance (sample_env (Raise "connection reset"%string)) sample_body "u1"
      (layered_store 5)
    = (Ok (BrokenStream [token_event "The feline"; token_event " sat"] "AttributeError"),
       w') /\
    Layered.profiles w' "u1"%string = Some 4 /\
    Layered.analyses w' = [].
Proof.
  destruct (@enhance_stream_matches_ledger
              (sample_env (Raise "connection reset"%string)) sample_body "u1"%string
              (layered_store 5) 5
              (fst (Layered.enhance (sample_env (Raise "connection reset"%string))
                      sample_body "u1" (layered_store 5)))
              (snd (Layered.enhance (sample_env (Raise "connection reset"%string))
                      sample_body "u1" (layered_store 5)))
              eq_refl eq_refl)
    as [(H & _)|[(_ & tokens & diff & H & _)|(_ & tokens & H & Hp & Ha)]].
  - exfalso. lia.
  - exfalso. vm_compute in H. discriminate H.
  - eexists. split; [vm_compute; reflexivity|]. split; [exact Hp|exact Ha].
Defined.

Lemma legacy_rejected_request_is_free_witness :
  exists status body,
    Legacy.handle legacy_env "u1"
      (Legacy.PersonaEnhance (persona_request (Some "pirate"%string))) (legacy_store 5)
    = (Ok (Http status body), legacy_store 5) /\
    (status = 400 \/ status = 500)%nat.
Proof.
  apply (@legacy_rejected_request_is_free legacy_env "u1"%string
           (Legacy.PersonaEnhance (persona_request (Some "pirate"%string)))
           (legacy_store 5)).
  reflexivity.
Defined.

Lemma legacy_never_overdrawn_witness :
  exists c',
    Legacy.users (legacy_serve "u1" sample_requests (legacy_store 1)) "u1"%string = Some c' /\
    0 <= c' <= 1.
Proof.
  apply (@legacy_never_overdrawn "u1"%string sample_requests (legacy_store 1) 1).
  - reflexivity.
  - lia.
Defined.

Lemma layered_never_overdrawn_witness :
  exists c',
    Layered.profiles (layered_serve "u1" sample_layered_requests (layered_store 3))
      "u1"%string = Some c' /\
    0 <= c' <= 3.
Proof.
  apply (@layered_never_overdrawn "u1"%string sample_layered_requests (layered_store 3) 3).
  - reflexivity.
  - lia.
Defined.

Lemma legacy_debits_are_not_lost_witness :
  exists final,
    run (legacy_step "u1" 2) [0; 1; 0; 1]%nat (legacy_store 3, repeat Start 2) = Some final /\
    Legacy.users (fst final) "u1"%string
    = Some (3 - 2 * Z.of_nat (successes (snd final))).
Proof.
  eexists. split; [vm_compute; reflexivity|].
  apply (@legacy_debits_are_not_lost "u1"%string 2 2 [0; 1; 0; 1]%nat (legacy_store 3) 3).
  - reflexivity.
  - vm_compute. reflexivity.
Defined.

Lemma answer_reports_balance_witness :
  exists d,
    JDict [("issues", JList []); ("score", JInt 50); ("summary", JStr EmptyString);
           ("credits_remaining", JInt 3)]%string = JDict d /\
    dict_lookup d "credits_remaining"
    = Some (JInt (5 - Layered.cost (Layered.Consistency "The cat sat"))).
Proof.
  apply (@answer_reports_balance (sample_env (Ok tt)) "u1"%string
           (Layered.Consistency "The cat sat") (layered_store 5) 5 _
           (snd (Layered.handle (sample_env (Ok tt)) "u1"
                   (Layered.Consistency "The cat sat") (layered_store 5)))).
  - reflexivity.
  - vm_compute. reflexivity.
Defined.


(** ** Entities *)

Lemma seen_count_none seen key :
  Layered.seen_count seen key = None -> ~ In key (map fst seen).
Proof.
  induction seen as [|[k e] seen IH]; simpl; [tauto|].
  destruct (String.eqb_spec k key) as [->|Hne]; [discriminate|].
  destruct (Layered.seen_count seen key); [discriminate|].
  intros _ [H|H]; [congruence|]. now apply IH.
Qed.

Lemma seen_count_some seen key : forall seen',
  Layered.seen_count seen key = Some seen' ->
  map fst seen' = map fst seen /\
  total_count (map snd seen') = total_count (map snd seen) + 1 /\
  (Forall (fun ke => fst ke = Py.lower (Layered.entity_label (snd ke)) /\
                     Layered.entity_id (snd ke) = Py.replace_char " " "_" (fst ke) /\
                     1 <= Layered.entity_count (snd ke)) seen ->
   Forall (fun ke => fst ke = Py.lower (Layered.entity_label (snd ke)) /\
                     Layered.entity_id (snd ke) = Py.replace_char " " "_" (fst ke) /\
                     1 <= Layered.entity_count (snd ke)) seen').
Proof.
  induction seen as [|[k e] seen IH]; intros seen'; simpl; [discriminate|].
  destruct (String.eqb k key).
  - intros H. injection H as <-. simpl. repeat split; try lia.
    intros HF. inversion HF as [|? ? Hx HF']; subst. simpl in Hx.
    constructor; [simpl; repeat split; try tauto; lia|exact HF'].
  - destruct (Layered.seen_count seen key) as [seen''|]; [|discriminate].
    intros H. injection H as <-. destruct (IH seen'' eq_refl) as (I1 & I2 & I3).
    simpl. repeat split; try congruence; try lia.
    intros HF. inversion HF; subst. constructor; auto.
Qed.

Lemma extract_step_ok seen ent :
  seen_ok seen ->
  seen_ok (Layered.extract_step seen ent) /\
  total_count (map snd (Layered.extract_step seen ent))
  = total_count (map snd seen) + (if is_mapped ent then 1 else 0).
Proof.
  intros [Hnd HF]. destruct ent as [ent_text ent_label_].
  unfold Layered.extract_step, is_mapped. simpl snd.
  destruct (Layered.prompts_lookup Layered.ENTITY_TYPE_MAP ent_label_) as [entity_type|].
  - destruct (Layered.seen_count seen (Py.lower (Py.strip ent_text))) as [seen'|] eqn:Es.
    + destruct (seen_count_some _ _ Es) as (I1 & I2 & I3).
      split; [split; [now rewrite I1|auto]|exact I2].
    + apply seen_count_none in Es. split; [split|].
      * rewrite map_app. simpl. apply NoDup_app; repeat split; auto.
        -- repeat constructor. simpl. tauto.
        -- intros x Hx [<-|[]]. contradiction.
      * apply Forall_app. split; [exact HF|]. repeat constructor; simpl; lia.
      * rewrite map_app. unfold total_count. rewrite fold_right_app. simpl.
        generalize (map snd seen). intros l. induction l as [|e l IH]; simpl; lia.
  - split; [split; auto|lia].
Qed.

Lemma extract_loop_ok ents : forall seen,
  seen_ok seen ->
  seen_ok (fold_left Layered.extract_step ents seen) /\
  total_count (map snd (fold_left Layered.extract_step ents seen))
  = total_count (map snd seen) + Z.of_nat (List.length (filter is_mapped ents)).
Proof.
  induction ents as [|ent ents IH]; intros seen Hs; simpl.
  - split; [exact Hs|lia].
  - destruct (extract_step_ok ent Hs) as [H1 H2].
    destruct (IH _ H1) as [H3 H4]. split; [exact H3|].
    rewrite H4, H2. destruct (is_mapped ent); simpl List.length; lia.
Qed.

Lemma replace_char_without (old new : ascii) s :
  old <> new ->
  forallb (fun c => negb (Ascii.eqb c old)) (list_ascii_of_string (Py.replace_char old new s))
  = true.
Proof.
  intros Hne. induction s as [|c s IH]; [reflexivity|]. simpl.
  rewrite IH, andb_true_r.
  destruct (Ascii.eqb_spec c old) as [->|H].
  - destruct (Ascii.eqb_spec new old); [congruence|reflexivity].
  - destruct (Ascii.eqb_spec c old); [congruence|reflexivity].
Qed.

(** X21: the entity extractor merges the mentions that differ only by case:
    no two entities have the same lowered label, the counts of the entities
    add up to the number of mentions with a mapped type, every count is at
    least 1, and an id is the lowered label with underscores for spaces. *)
Theorem extract_entities_merges_mentions (E : Layered.env) (text : string) :
  let mentions := Layered.spacy_ents E (Py.take 100000 text) in
  let entities := Layered.extract_entities E text in
  NoDup (map (fun e => Py.lower (Layered.entity_label e)) entities) /\
  total_count entities = Z.of_nat (List.length (filter is_mapped mentions)) /\
  Forall (fun e =>
            1 <= Layered.entity_count e /\
            Layered.entity_id e
            = Py.replace_char " " "_" (Py.lower (Layered.entity_label e)) /\
            forallb (fun c => negb (Ascii.eqb c " "))
              (list_ascii_of_string (Layered.entity_id e)) = true) entities.
Proof.
  intros mentions entities. unfold entities, Layered.extract_entities. fold mentions.
  destruct (@extract_loop_ok mentions [] (conj (NoDup_nil _) (Forall_nil _)))
    as [[Hnd HF] Hc].
  set (seen := fold_left Layered.extract_step mentions []) in *.
  assert (Hkeys : map fst seen
                  = map (fun e => Py.lower (Layered.entity_label e)) (map snd seen)).
  { rewrite map_map. apply map_ext_Forall. eapply Forall_impl; [|exact HF].
    simpl. tauto. }
  repeat split.
  - rewrite <- Hkeys. exact Hnd.
  - rewrite Hc. reflexivity.
  - apply Forall_map. eapply Forall_impl; [|exact HF]. intros [k e] (H1 & H2 & H3).
    simpl in *. subst k. repeat split; auto.
    rewrite H2. apply replace_char_without. discriminate.
Qed.

(** ** The graph of the extractor path *)

Lemma node_ids_of_build_nodes attrs entities : forall nodes,
  Layered.build_nodes attrs entities = Ok nodes ->
  Layered.node_ids_of nodes = map Layered.entity_id entities /\
  List.length nodes = List.length entities.
Proof.
  induction entities as [|e entities IH]; intros nodes; simpl.
  - intros H. injection H as <-. auto.
  - destruct (get attrs (Layered.entity_id e) (JDict [])); [|discriminate].
    destruct (Layered.build_nodes attrs entities) as [rest|]; [|discriminate].
    intros H. injection H as <-. destruct (IH rest eq_refl) as [I1 I2].
    simpl. split; congruence.
Qed.

Lemma take_length s : forall n, (String.length (Py.take n s) <= N.to_nat n)%nat.
Proof.
  induction s as [|c s IH]; intros n; simpl; [lia|].
  destruct (N.eqb_spec n 0) as [->|Hn]; simpl; [lia|].
  specialize (IH (N.pred n)). lia.
Qed.

Lemma first_six_capped themes capped :
  Layered.first_six themes = Ok capped -> themes_capped capped.
Proof.
  destruct themes; try discriminate; intros H.
  - assert (Hc : capped = JStr (Py.take 6 s))
      by (unfold Layered.first_six in H; congruence).
    subst capped. apply (take_length s 6).
  - assert (Hc : capped = JList (firstn 6 l))
      by (unfold Layered.first_six in H; congruence).
    subst capped. unfold themes_capped. rewrite length_firstn. lia.
Qed.

(** X23: when the extractor finds entities and the graph builder returns,
    the graph has one node per entity, in the same order and with the ids
    of the entities, and at most six themes. *)
Theorem build_graph_nodes_follow_entities E text w graph w' :
  Layered.extract_entities E text <> [] ->
  Layered.build_graph E text w = (Ok graph, w') ->
  exists nodes edges summary themes,
    graph = JDict [("nodes", JList nodes); ("edges", JList edges);
                   ("summary", summary); ("themes", themes)]%string /\
    Layered.node_ids_of nodes = map Layered.entity_id (Layered.extract_entities E text) /\
    List.length nodes = List.length (Layered.extract_entities E text) /\
    themes_capped themes.
Proof.
  intros Hne. unfold Layered.build_graph.
  destruct (Layered.extract_entities E text) as [|entity rest] eqn:Ee; [congruence|].
  unfold bind, lift, ret, Layered.run_llm, Layered.acompletion.
  destruct (Layered.completion E (Layered.completions w)); [|discriminate].
  destruct (get _ "entity_attributes" _); [|discriminate].
  destruct (Layered.build_nodes _ _) as [nodes|] eqn:En; [|discriminate].
  destruct (get _ "edges" _) as [edges|]; [|discriminate].
  destruct (Layered.valid_edges_of _ edges) as [valid_edges|] eqn:Ev; [|discriminate].
  destruct (get _ "themes" _); [|discriminate].
  destruct (get _ "summary" _); [|discriminate].
  destruct (Layered.first_six _) as [themes6|] eqn:Et; [|discriminate].
  intros H. injection H as <- _.
  destruct (node_ids_of_build_nodes _ _ En) as [I1 I2].
  eexists. eexists. eexists. eexists. split; [reflexivity|].
  repeat split; auto. apply (first_six_capped _ Et).
Qed.

Lemma build_graph_nodes_follow_entities_witness :
  exists nodes edges summary themes,
    JDict [("nodes",
            JList [JDict [("id", JStr "alice"); ("label", JStr "Alice");
                          ("type", JStr "character"); ("attributes", JDict [])];
                   JDict [("id", JStr "bob"); ("label", JStr "Bob");
                          ("type", JStr "character"); ("attributes", JDict [])]]);
           ("edges", JList [JDict [("source", JStr "alice"); ("target", JStr "bob");
                                   ("label", JStr "Friend")]]);
           ("summary", JStr EmptyString);
           ("themes", JList (map JStr ["a"; "b"; "c"; "d"; "e"; "f"]))]%string
    = JDict [("nodes", JList nodes); ("edges", JList edges);
             ("summary", summary); ("themes", themes)]%string /\
    Layered.node_ids_of nodes
    = map Layered.entity_id (Layered.extract_entities entity_env "Alice met Bob.") /\
    List.length nodes
    = List.length (Layered.extract_entities entity_env "Alice met Bob.") /\
    themes_capped themes.
Proof.
  apply (@build_graph_nodes_follow_entities entity_env "Alice met Bob."%string
           (layered_store 5) _
           (snd (Layered.build_graph entity_env "Alice met Bob." (layered_store 5)))).
  - vm_compute. discriminate.
  - vm_compute. reflexivity.
Defined.

Lemma build_graph_validates_edges_witness :
  edge_integrity
    (JDict [("nodes",
             JList [JDict [("id", JStr "alice"); ("label", JStr "Alice");
                           ("type", JStr "character"); ("attributes", JDict [])];
                    JDict [("id", JStr "bob"); ("label", JStr "Bob");
                           ("type", JStr "character"); ("attributes", JDict [])]]);
            ("edges", JList [JDict [("source", JStr "alice"); ("target", JStr "bob");
                                    ("label", JStr "Friend")]]);
            ("summary", JStr EmptyString);
            ("themes", JList (map JStr ["a"; "b"; "c"; "d"; "e"; "f"]))]%string)
  = true.
Proof.
  apply (@build_graph_validates_edges entity_env "Alice met Bob."%string
           (layered_store 5) _
           (snd (Layered.build_graph entity_env "Alice met Bob." (layered_store 5)))).
  - vm_compute. discriminate.
  - vm_compute. reflexivity.
Defined.


(** ** Buying credits in the legacy application *)

(** X24: the legacy top-up route either adds an amount between 1 and 100 to
    the balance and answers 200 with the new balance, or does not answer
    200 and leaves the store as it was. *)
Theorem legacy_top_up_is_bounded (int_of_str : string -> result Z) (user : string)
    (data_amount : option json) (w w' : Legacy.world) (c : Z) (r : result response) :
  Legacy.users w user = Some c ->
  LegacyCredits.add_credits_route int_of_str user data_amount w = (r, w') ->
  (exists amount message,
     1 <= amount <= 100 /\
     r = Ok (Http 200 (JDict [("message", JStr message);
                              ("new_balance", JInt (c + amount))]%string)) /\
     Legacy.users w' user = Some (c + amount) /\
     Legacy.enhancements w' = Legacy.enhancements w /\
     Legacy.documents w' = Legacy.documents w) \/
  ((forall body, r <> Ok (Http 200 body)) /\ w' = w).
Proof.
  intros Hc. unfold LegacyCredits.add_credits_route.
  destruct (LegacyCredits.int int_of_str _) as [amount|e].
  - destruct (Z.ltb_spec amount 1) as [Hlo|Hlo];
      [intros E; injection E as <- <-; right; split;
       [intros body Hb; discriminate Hb|reflexivity]|].
    destruct (Z.ltb_spec 100 amount) as [Hhi|Hhi];
      [intros E; injection E as <- <-; right; split;
       [intros body Hb; discriminate Hb|reflexivity]|].
    simpl orb. cbv iota. mcbn. rewrite Hc. mcbn. rewrite String.eqb_refl.
    intros E; injection E as <- <-. left. exists amount. eexists.
    split; [lia|]. split; [reflexivity|].
    split; [cbn [Legacy.users]; now rewrite String.eqb_refl|]. split; reflexivity.
  - intros E; injection E as <- <-. right.
    split; [intros body Hb; discriminate Hb|reflexivity].
Qed.

Lemma legacy_top_up_is_bounded_witness :
  (exists amount message,
     1 <= amount <= 100 /\
     Ok (Http 200 (JDict [("message", JStr "Added 5 credits");
                          ("new_balance", JInt 10)]%string))
     = Ok (Http 200 (JDict [("message", JStr message);
                            ("new_balance", JInt (5 + amount))]%string)) /\
     Legacy.users
       (snd (LegacyCredits.add_credits_route (fun _ => Raise "ValueError"%string) "u1" None
               (legacy_store 5))) "u1"%string
     = Some (5 + amount) /\
     Legacy.enhancements
       (snd (LegacyCredits.add_credits_route (fun _ => Raise "ValueError"%string) "u1" None
               (legacy_store 5)))
     = Legacy.enhancements (legacy_store 5) /\
     Legacy.documents
       (snd (LegacyCredits.add_credits_route (fun _ => Raise "ValueError"%string) "u1" None
               (legacy_store 5)))
     = Legacy.documents (legacy_store 5)) \/
  ((forall body,
      Ok (Http 200 (JDict [("message", JStr "Added 5 credits");
                           ("new_balance", JInt 10)]%string))
      <> Ok (Http 200 body)) /\
   snd (LegacyCredits.add_credits_route (fun _ => Raise "ValueError"%string) "u1" None
          (legacy_store 5))
   = legacy_store 5).
Proof.
  apply (@legacy_top_up_is_bounded (fun _ => Raise "ValueError"%string) "u1"%string None
           (legacy_store 5) _ 5 _).
  - reflexivity.
  - vm_compute. reflexivity.
Defined.


(** ** Payments *)

Section PaymentsProofs.
Import Payments.

Lemma verify_payment_keeps_store E id user w :
  snd (verify_payment E id user w) = w /\
  forall body, fst (verify_payment E id user w) <> Ok (Http 200 body).
Proof.
  destruct w as [l txs]. unfold verify_payment.
  destruct (payment_intent_retrieve E id) as [intent|e];
    [|split; [reflexivity|intros body H; discriminate H]].
  destruct (negb (String.eqb (intent_status intent) "succeeded"));
    [split; [reflexivity|intros body H; discriminate H]|].
  destruct (negb _); [split; [reflexivity|intros body H; discriminate H]|].
  cbn [transactions]. unfold bind at 1. unfold single.
  destruct (filter _ txs) as [|tx [|tx' rest]];
    unfold ret, raise, bind, on_ledger, Layered.add_credits, raise;
    try (destruct (no_single_row E));
    (split; [reflexivity|intros body H; discriminate H]).
Qed.

Lemma stripe_webhook_keeps_store E payload sig_header w :
  snd (stripe_webhook E payload sig_header w) = w.
Proof.
  destruct w as [l txs]. unfold stripe_webhook.
  destruct (construct_event E payload sig_header) as [event|e]; [|reflexivity].
  destruct (String.eqb (event_type event) "payment_intent.succeeded"); [|reflexivity].
  unfold bind at 1. unfold bind at 1. unfold lift.
  destruct (match metadata_credits (event_object event) with
            | Some s => int_of_str E s
            | None => Ok 0
            end) as [credits|e]; [|reflexivity].
  destruct (metadata_user_id (event_object event)) as [u|]; [|reflexivity].
  destruct (negb (String.eqb u EmptyString) && negb (credits =? 0)); [|reflexivity].
  cbn [transactions].
  destruct (filter _ txs) as [|tx [|tx' rest]].
  - unfold bind, single, ret, raise. destruct (no_single_row E); reflexivity.
  - unfold bind, single, ret.
    destruct (String.eqb (tx_status tx) "pending"); reflexivity.
  - unfold bind, single, ret, raise. destruct (no_single_row E); reflexivity.
Qed.

(** X25: no payment is ever credited, so none is credited twice: the
    verification of a payment never answers 200 and leaves the store as
    it was, whatever the provider says about the payment, and so does the
    webhook.  The call that adds the credits raises before a transaction
    is marked. *)
Theorem payments_are_never_credited E w :
  (forall id user,
     snd (verify_payment E id user w) = w /\
     forall body, fst (verify_payment E id user w) <> Ok (Http 200 body)) /\
  (forall payload sig_header, snd (stripe_webhook E payload sig_header w) = w).
Proof.
  split.
  - intros id user. apply verify_payment_keeps_store.
  - intros payload sig_header. apply stripe_webhook_keeps_store.
Qed.

(** X26: when the provider cannot be asked, does not report the intent as
    succeeded, or reports it for another user, the verification answers
    400 or 403 and leaves the store as it was. *)
Theorem unconfirmed_payment_is_not_credited E id user w :
  match payment_intent_retrieve E id with
  | Ok intent =>
      intent_status intent <> "succeeded"%string \/ metadata_user_id intent <> Some user
  | Raise _ => True
  end ->
  exists status body,
    verify_payment E id user w = (Ok (Http status body), w) /\
    (status = 400 \/ status = 403)%nat.
Proof.
  unfold verify_payment.
  destruct (payment_intent_retrieve E id) as [intent|e].
  - destruct (String.eqb_spec (intent_status intent) "succeeded") as [Hs|Hs]; simpl.
    + destruct (metadata_user_id intent) as [u|]; simpl.
      * destruct (String.eqb_spec u user) as [->|Hu]; simpl.
        -- intros [H|H]; [contradiction|congruence].
        -- intros _. eexists. eexists. split; [reflexivity|auto].
      * intros _. eexists. eexists. split; [reflexivity|auto].
    + intros _. eexists. eexists. split; [reflexivity|auto].
  - intros _. eexists. eexists. split; [reflexivity|auto].
Qed.

Lemma filter_fresh id user l :
  Forall (fun tx => tx_stripe_payment_intent_id tx <> id) l ->
  filter (fun tx => String.eqb (tx_stripe_payment_intent_id tx) id
                    && String.eqb (tx_user_id tx) user
                    && String.eqb (tx_status tx) "pending") l = [].
Proof.
  induction 1 as [|tx l Hx _ IH]; [reflexivity|]. simpl.
  destruct (String.eqb_spec (tx_stripe_payment_intent_id tx) id); [contradiction|exact IH].
Qed.

(** X27: ordering a pack records one pending transaction with the credits
    and the price of the pack and answers with the order; when the
    provider then confirms the payment for that user, the verification
    raises, the balance is what it was before the order, and the
    transaction is still pending: the paid credits are not added. *)
Theorem paid_order_is_not_credited E E' pack user w intent0 intent :
  payment_intent_create E (pack_amount pack) user (CreditPackEnum_value pack)
    (pack_credits pack) = Ok intent0 ->
  transactions_insert E = Ok tt ->
  model_validate E "CreateOrderResponse" (order_answer intent0 pack) = Ok tt ->
  Forall (fun tx => tx_stripe_payment_intent_id tx <> intent_id intent0) (transactions w) ->
  payment_intent_retrieve E' (intent_id intent0) = Ok intent ->
  intent_status intent = "succeeded"%string ->
  metadata_user_id intent = Some user ->
  exists w1,
    create_order E pack user w = (Ok (Http 200 (order_answer intent0 pack)), w1) /\
    ledger w1 = ledger w /\
    transactions w1
    = transactions w ++
      [{| tx_user_id := user;
          tx_stripe_payment_intent_id := intent_id intent0;
          tx_credits_purchased := pack_credits pack;
          tx_amount_paise := pack_amount pack;
          tx_status := "pending" |}] /\
    verify_payment E' (intent_id intent0) user w1 = (Raise "AttributeError"%string, w1).
Proof.
  intros Hcreate Hins Hval Hfresh Hret Hst Hu.
  unfold create_order.
  assert (Hp : packs_get CREDIT_PACKS (CreditPackEnum_value pack)
               = Some (pack_credits pack, pack_amount pack))
    by (destruct pack; reflexivity).
  rewrite Hp, Hcreate. unfold bind, insert_pending, validated, bind, lift, ret.
  rewrite Hins. unfold order_answer in Hval. rewrite Hval.
  eexists. split; [reflexivity|]. split; [reflexivity|]. split; [reflexivity|].
  unfold verify_payment. rewrite Hret, Hst, Hu, !String.eqb_refl.
  cbn [negb]. cbv beta. cbn [transactions].
  rewrite filter_app, (filter_fresh user Hfresh).
  cbn [filter tx_stripe_payment_intent_id tx_user_id tx_status app].
  rewrite !String.eqb_refl. change (("pending" =? "pending")%string) with true.
  cbn [andb]. unfold bind, single, ret, on_ledger, Layered.add_credits, raise.
  reflexivity.
Qed.

Lemma paid_order_is_not_credited_witness :
  exists w1,
    create_order (stripe_env "succeeded") starter "u1" (payments_store 5)
    = (Ok (Http 200
             (JDict [("order_id", JStr "pi_1"); ("client_secret", JStr "pi_1_secret");
                     ("amount", JInt 9900); ("currency", JStr "INR");
                     ("credits_to_receive", JInt 20)]%string)), w1) /\
    ledger w1 = layered_store 5 /\
    transactions w1
    = [{| tx_user_id := "u1";
          tx_stripe_payment_intent_id := "pi_1";
          tx_credits_purchased := 20;
          tx_amount_paise := 9900;
          tx_status := "pending" |}] /\
    verify_payment (stripe_env "succeeded") "pi_1" "u1" w1
    = (Raise "AttributeError"%string, w1).
Proof.
  apply (@paid_order_is_not_credited (stripe_env "succeeded") (stripe_env "succeeded")
           starter "u1"%string (payments_store 5)
           {| intent_id := "pi_1"; intent_client_secret := "pi_1_secret";
              intent_status := "requires_payment_method";
              metadata_user_id := Some "u1"%string; metadata_credits := Some "20"%string |}
           {| intent_id := "pi_1"; intent_client_secret := "pi_1_secret";
              intent_status := "succeeded";
              metadata_user_id := Some "u1"%string; metadata_credits := Some "20"%string |});
    try reflexivity.
  constructor.
Defined.

Lemma unconfirmed_payment_is_not_credited_witness :
  exists status body,
    verify_payment (stripe_env "processing") "pi_1" "u1" ordered_store
    = (Ok (Http status body), ordered_store) /\
    (status = 400 \/ status = 403)%nat.
Proof.
  apply (@unconfirmed_payment_is_not_credited (stripe_env "processing") "pi_1"%string
           "u1"%string ordered_store).
  simpl. left. discriminate.
Defined.

End PaymentsProofs.
